(** * Scattering models of the renderer: thin dielectric and microfacet sheen layer

    A shallow embedding of [ThinDielectric_eval], [ThinDielectric_sample],
    [MicrofacetSheenLayer_eval] and [MicrofacetSheenLayer_sample]
    (src/apps/common/sg/SceneGraph.h) over IEEE 754 binary32 numbers, with
    the properties of their specification stated and settled.

    The code is ISPC; its [float] is binary32.  The arithmetic operators of
    the language are the correctly rounded operations of [SpecFloat] at
    precision 24 and maximal exponent 128.  The functions the two models call
    but which live in headers that are not part of the sources at hand
    (BSDF.ih, math/vec.ih, Fresnel.ih, SheenDistribution.ih,
    MicrofacetAlbedoTables.ih) are the methods of the class [Library]. *)

From Stdlib Require Import ZArith Bool List Lia.
From Stdlib Require Import Floats.SpecFloat.
Import ListNotations.

Local Open Scope Z_scope.

(** ** Binary32 numbers *)

Module F32.

Definition prec : Z := 24.
Definition emax : Z := 128.

Definition float : Type := spec_float.

Definition add : float -> float -> float := SFadd prec emax.
Definition sub : float -> float -> float := SFsub prec emax.
Definition mul : float -> float -> float := SFmul prec emax.
Definition div : float -> float -> float := SFdiv prec emax.
Definition sqrt : float -> float := SFsqrt prec emax.
Definition neg : float -> float := SFopp.
Definition abs : float -> float := SFabs.

Definition ltb : float -> float -> bool := SFltb.
Definition leb : float -> float -> bool := SFleb.
Definition eqb : float -> float -> bool := SFeqb.

  (** The literals of the source. *)
Definition zero : float := S754_zero false.                    (* 0.f *)
Definition one  : float := S754_finite false 8388608 (-23).    (* 1.f *)
Definition four : float := S754_finite false 8388608 (-21).    (* 4.f *)
Definition half : float := S754_finite false 8388608 (-24).    (* 0.5f *)
Definition inf  : float := S754_infinity false.                (* inf *)

  (** [min] and [max] of the ISPC standard library select with one
      comparison: [min(a,b) = a < b ? a : b], [max(a,b) = a > b ? a : b]
      (the second operand when the comparison is unordered). *)
Definition min (a b : float) : float := if ltb a b then a else b.
Definition max (a b : float) : float := if ltb b a then a else b.

  (** Neither an infinity nor a NaN. *)
Definition is_finite (a : float) : bool :=
    match a with
    | S754_zero _ | S754_finite _ _ _ => true
    | _ => false
    end.

Definition is_nan (a : float) : bool :=
    match a with S754_nan => true | _ => false end.

Definition is_zero (a : float) : bool :=
    match a with S754_zero _ => true | _ => false end.

  (** Finite and not negative: [+0] or a positive finite number. *)
Definition nonneg_finite (a : float) : bool :=
  match a with
  | S754_zero false | S754_finite false _ _ => true
  | _ => false
  end.

(** A finite number whose exponent is not below the least exponent of the
      format: every result of a rounded operation is of this kind. *)
Definition expo_ok (a : float) : Prop :=
    match a with
    | S754_finite _ _ e => emin prec emax <= e
    | _ => True
    end.

  (** A number of the format: mantissa and exponent in canonical position. *)
Definition valid (a : float) : bool := valid_binary prec emax a.

  (** Equal, or both a zero (of either sign). *)
Definition same (a b : float) : Prop :=
    a = b \/ (is_zero a = true /\ is_zero b = true).

End F32.

Definition float : Type := F32.float.

Declare Scope f32_scope.
Delimit Scope f32_scope with f32.
Infix "+" := F32.add : f32_scope.
Infix "-" := F32.sub : f32_scope.
Infix "*" := F32.mul : f32_scope.
Infix "<?" := F32.ltb : f32_scope.
Infix "<=?" := F32.leb : f32_scope.
Infix "==?" := F32.eqb (at level 70) : f32_scope.

(** ** Vectors (math/vec.ih: the operators are componentwise) *)

Module Vec3f.
Record t : Type := mk { x : float; y : float; z : float }.
End Vec3f.
Definition vec3f : Type := Vec3f.t.

Module Vec2f.
Record t : Type := mk { x : float; y : float }.
End Vec2f.
Definition vec2f : Type := Vec2f.t.

Record linear3f : Type := { vx : vec3f; vy : vec3f; vz : vec3f }.

(** [make_vec3f(a)] *)
Definition make_vec3f (a : float) : vec3f := Vec3f.mk a a a.

(** [v * a] *)
Definition vscale (v : vec3f) (a : float) : vec3f :=
  Vec3f.mk (Vec3f.x v * a)%f32 (Vec3f.y v * a)%f32 (Vec3f.z v * a)%f32.

(** [u + v] *)
Definition vadd (u v : vec3f) : vec3f :=
  Vec3f.mk (Vec3f.x u + Vec3f.x v)%f32 (Vec3f.y u + Vec3f.y v)%f32
           (Vec3f.z u + Vec3f.z v)%f32.

(** [neg(v)] *)
Definition neg (v : vec3f) : vec3f :=
  Vec3f.mk (F32.neg (Vec3f.x v)) (F32.neg (Vec3f.y v)) (F32.neg (Vec3f.z v)).

(** [reduce_max(v)] *)
Definition reduce_max (v : vec3f) : float :=
  F32.max (F32.max (Vec3f.x v) (Vec3f.y v)) (Vec3f.z v).

(** Every channel compares equal to zero. *)
Definition vzero (v : vec3f) : bool :=
  (Vec3f.x v ==? F32.zero)%f32 && (Vec3f.y v ==? F32.zero)%f32
  && (Vec3f.z v ==? F32.zero)%f32.

Definition vfinite (v : vec3f) : bool :=
  F32.is_finite (Vec3f.x v) && F32.is_finite (Vec3f.y v)
  && F32.is_finite (Vec3f.z v).

Definition vvalid (v : vec3f) : bool :=
  F32.valid (Vec3f.x v) && F32.valid (Vec3f.y v) && F32.valid (Vec3f.z v).

(** Channelwise [F32.same]. *)
Definition vsame (u v : vec3f) : Prop :=
  F32.same (Vec3f.x u) (Vec3f.x v) /\ F32.same (Vec3f.y u) (Vec3f.y v)
  /\ F32.same (Vec3f.z u) (Vec3f.z v).

(** ** Result types and lobe flags (BSDF.ih) *)

(** Modelled from the spec: the lobe type is a bitmask of
    {diffuse, glossy, specular} x {reflection, transmission}; the header
    that assigns the bits (BSDF.ih) is not part of the sources at hand.  One
    bit per pair, [BSDF_SPECULAR] the union of the two specular bits. *)
Definition BSDF_Type : Type := Z.
Definition BSDF_SPECULAR_REFLECTION   : BSDF_Type := 1.
Definition BSDF_GLOSSY_REFLECTION     : BSDF_Type := 2.
Definition BSDF_DIFFUSE_REFLECTION    : BSDF_Type := 4.
Definition BSDF_SPECULAR_TRANSMISSION : BSDF_Type := 8.
Definition BSDF_GLOSSY_TRANSMISSION   : BSDF_Type := 16.
Definition BSDF_DIFFUSE_TRANSMISSION  : BSDF_Type := 32.
Definition BSDF_SPECULAR : BSDF_Type :=
  Z.lor BSDF_SPECULAR_REFLECTION BSDF_SPECULAR_TRANSMISSION.

(** [(ty & BSDF_SPECULAR)] used as a condition. *)
Definition is_specular (ty : BSDF_Type) : bool :=
  negb (Z.land ty BSDF_SPECULAR =? 0).

Module EvalRes.
Record t : Type := mk { value : vec3f; pdf : float }.
End EvalRes.
Definition BSDF_EvalRes : Type := EvalRes.t.

Module SampleRes.
Record t : Type :=
    mk { weight : vec3f; wi : vec3f; pdf : float; type : BSDF_Type }.

Definition set_weight (r : t) (w : vec3f) : t := mk w (wi r) (pdf r) (type r).
Definition set_wi (r : t) (d : vec3f) : t := mk (weight r) d (pdf r) (type r).
Definition set_pdf (r : t) (p : float) : t := mk (weight r) (wi r) p (type r).
Definition set_type (r : t) (ty : BSDF_Type) : t :=
    mk (weight r) (wi r) (pdf r) ty.
End SampleRes.
Definition BSDF_SampleRes : Type := SampleRes.t.

(** Modelled from the spec: the zero sentinel of [eval] (BSDF.ih is not part
    of the sources at hand): no contribution and no density. *)
Definition make_BSDF_EvalRes_zero : BSDF_EvalRes :=
  EvalRes.mk (make_vec3f F32.zero) F32.zero.

(** Modelled from the spec: the void sentinel of [sample] (BSDF.ih is not
    part of the sources at hand): a weight of zero; the caller reads no
    other field of a void sample, they are zero here. *)
Definition make_BSDF_SampleRes_zero : BSDF_SampleRes :=
  SampleRes.mk (make_vec3f F32.zero) (make_vec3f F32.zero) F32.zero 0.

(** The test callers and the layer make on a sample: the maximum weight
    channel is not positive. *)
Definition is_void (r : BSDF_SampleRes) : bool :=
  (reduce_max (SampleRes.weight r) <=? F32.zero)%f32.

(** The capability interface: what [BSDF_Constructor] stores in [super]. *)
Record BSDF : Type := {
  bsdf_albedo : vec3f;
  bsdf_type : BSDF_Type;
  bsdf_eval : vec3f -> vec3f -> BSDF_EvalRes;
  bsdf_sample : vec3f -> vec2f -> float -> BSDF_SampleRes;
  bsdf_frame : linear3f
}.

(** The parameters of the sheen distribution, made by
    [make_SheenDistribution(roughnessToAlpha(roughness))]; the two models
    only hand it to [eval] and [evalG2]. *)
Record SheenDistribution : Type := { sheen_alpha : float }.

(** ** The functions of the absent headers *)

Class Library : Type := {
  dot : vec3f -> vec3f -> float;
  normalize : vec3f -> vec3f;
  rcp : float -> float;
  exp : float -> float;
  reflect : vec3f -> vec3f -> float -> vec3f;
  (** [frame * v] *)
  linear3f_mul : linear3f -> vec3f -> vec3f;
  uniformSampleHemisphere : vec2f -> vec3f;
  uniformSampleHemispherePDF : float;
  MicrofacetSheenAlbedoTable_eval : float -> float -> float;
  (** [eval(self->microfacet, cosThetaH)] *)
  SheenDistribution_eval : SheenDistribution -> float -> float;
  evalG2 : SheenDistribution -> float -> float -> float -> float -> float;
  (** [fresnelDielectricEx(cosI, cosT, eta)]: the reflectance and the value
      stored through the reference [cosT]. *)
  fresnelDielectricEx : float -> float -> float * float
}.

(** [expf(v)] of math/vec.ih: [exp] on each channel. *)
Definition expf {L : Library} (v : vec3f) : vec3f :=
  Vec3f.mk (exp (Vec3f.x v)) (exp (Vec3f.y v)) (exp (Vec3f.z v)).

(** ** Thin dielectric *)

Record ThinDielectric : Type := {
  td_frame : linear3f;      (* super.frame *)
  eta : float;
  attenuation : vec3f
}.

Definition ThinDielectric_eval (self : ThinDielectric) (wo wi : vec3f)
  : BSDF_EvalRes :=
  make_BSDF_EvalRes_zero.

Section Models.

Context {L : Library}.

(** The local [res] is declared without a value and every field is assigned
    on both paths; the record is built from the assigned fields. *)
Definition ThinDielectric_sample (self : ThinDielectric)
    (wo : vec3f) (s : vec2f) (ss : float) : BSDF_SampleRes :=
  let N := vz (td_frame self) in
  let cosThetaO := F32.max (dot wo N) F32.zero in
  (* Fresnel term *)
  let '(F, cosThetaT) := fresnelDielectricEx cosThetaO (eta self) in
  let res_pdf := F32.inf in
  (* Sample the reflection or the transmission *)
  let doReflection := (ss <=? F)%f32 in
  if doReflection then
    SampleRes.mk (make_vec3f F32.one) (reflect wo N cosThetaO) res_pdf
                 BSDF_SPECULAR_REFLECTION
  else
    (* Attenuation for crossing the slab once *)
    let length := rcp cosThetaT in
    let A := expf (vscale (attenuation self) length) in
    SampleRes.mk A (neg wo) res_pdf BSDF_SPECULAR_TRANSMISSION.

(** [ThinDielectric_Constructor]: the capability record of a thin
    dielectric. *)
Definition ThinDielectric_Constructor (frame : linear3f) (eta_ : float)
    (attenuation_ : vec3f) : BSDF :=
  let self := {| td_frame := frame; eta := eta_; attenuation := attenuation_ |} in
  {| bsdf_albedo := expf attenuation_;
     bsdf_type := BSDF_SPECULAR;
     bsdf_eval := ThinDielectric_eval self;
     bsdf_sample := ThinDielectric_sample self;
     bsdf_frame := frame |}.

(** ** Microfacet sheen layer *)

Record MicrofacetSheenLayer : Type := {
  sheen_frame : linear3f;   (* super.frame *)
  substrate : BSDF;
  R : vec3f;
  microfacet : SheenDistribution;
  roughness : float;
  weight : float
}.

(** [getN(super)] *)
Definition getN (self : MicrofacetSheenLayer) : vec3f := vz (sheen_frame self).

(** The coating reflection both functions evaluate: density and value. *)
Definition coat_lobe (self : MicrofacetSheenLayer) (wo wi : vec3f)
    (cosThetaO cosThetaI : float) : BSDF_EvalRes :=
  (* Compute the microfacet normal *)
  let wh := normalize (vadd wo wi) in
  let cosThetaH := dot wh (getN self) in
  let cosThetaOH := dot wo wh in
  let cosThetaIH := dot wi wh in
  (* Evaluate the coating reflection *)
  let D := SheenDistribution_eval (microfacet self) cosThetaH in
  let G := evalG2 (microfacet self) cosThetaO cosThetaI cosThetaOH cosThetaIH in
  EvalRes.mk
    (vscale (R self) (D * G * rcp (F32.four * cosThetaO) * weight self)%f32)
    uniformSampleHemispherePDF.

Definition MicrofacetSheenLayer_eval (self : MicrofacetSheenLayer)
    (wo wi : vec3f) : BSDF_EvalRes :=
  let cosThetaO := dot wo (getN self) in
  if (cosThetaO <=? F32.zero)%f32 then make_BSDF_EvalRes_zero else
  let cosThetaI := dot wi (getN self) in
  (* Evaluate the substrate *)
  let substrate0 := bsdf_eval (substrate self) wo wi in
  (* Energy conservation *)
  let Ro := (MicrofacetSheenAlbedoTable_eval cosThetaO (roughness self)
             * weight self)%f32 in
  let Ri := (MicrofacetSheenAlbedoTable_eval (F32.abs cosThetaI) (roughness self)
             * weight self)%f32 in
  let T := F32.min (F32.one - Ro)%f32 (F32.one - Ri)%f32 in
  let substrate_value := vscale (EvalRes.value substrate0) T in
  let substrate_pdf := EvalRes.pdf substrate0 in
  let coatPickProb := Ro in
  let substratePickProb := (F32.one - coatPickProb)%f32 in
  if (F32.zero <? cosThetaI)%f32 then
    let coat := coat_lobe self wo wi cosThetaO cosThetaI in
    (* Compute the total reflection *)
    EvalRes.mk
      (vadd (EvalRes.value coat) substrate_value)
      (coatPickProb * EvalRes.pdf coat + substratePickProb * substrate_pdf)%f32
  else
    (* Return the substrate transmission *)
    EvalRes.mk substrate_value (substrate_pdf * substratePickProb)%f32.

(** The part of [MicrofacetSheenLayer_sample] that follows the choice of the
    lobe, from [float cosThetaI = dot(res.wi, getN(super))] on: [res] and
    [substrate0] are the locals [res] and [substrate] as the chosen branch
    left them. *)
Definition sample_tail (self : MicrofacetSheenLayer) (wo : vec3f)
    (cosThetaO Ro : float) (res : BSDF_SampleRes) (substrate0 : BSDF_EvalRes)
  : BSDF_SampleRes :=
  let coatPickProb := Ro in
  let substratePickProb := (F32.one - coatPickProb)%f32 in
  let cosThetaI := dot (SampleRes.wi res) (getN self) in
  (* Energy conservation *)
  let Ri := (MicrofacetSheenAlbedoTable_eval (F32.abs cosThetaI)
               (roughness self) * weight self)%f32 in
  let T := F32.min (F32.one - Ro)%f32 (F32.one - Ri)%f32 in
  let substrate_value := vscale (EvalRes.value substrate0) T in
  let substrate_pdf := EvalRes.pdf substrate0 in
  if is_specular (SampleRes.type res) then
    (* If we sampled a delta distribution, we don't have to evaluate the
       coating reflection *)
    SampleRes.set_weight res (vscale substrate_value (rcp substratePickProb))
  else if (cosThetaI <=? F32.zero)%f32 then
    (* If we sampled transmission, we just have to return the substrate
       transmission *)
    let res := SampleRes.set_pdf res (substratePickProb * substrate_pdf)%f32 in
    SampleRes.set_weight res (vscale substrate_value (rcp (SampleRes.pdf res)))
  else
    let coat := coat_lobe self wo (SampleRes.wi res) cosThetaO cosThetaI in
    (* Compute the total reflection *)
    let res := SampleRes.set_pdf res
      (coatPickProb * EvalRes.pdf coat + substratePickProb * substrate_pdf)%f32 in
    SampleRes.set_weight res
      (vscale (vadd (EvalRes.value coat) substrate_value)
              (rcp (SampleRes.pdf res))).

(** The local [res] is declared without a value: [res0] is whatever it holds
    before the first assignment. *)
Definition MicrofacetSheenLayer_sample (res0 : BSDF_SampleRes)
    (self : MicrofacetSheenLayer) (wo : vec3f) (s : vec2f) (ss : float)
  : BSDF_SampleRes :=
  let cosThetaO := dot wo (getN self) in
  if (cosThetaO <=? F32.zero)%f32 then make_BSDF_SampleRes_zero else
  (* Energy conservation *)
  let Ro := (MicrofacetSheenAlbedoTable_eval cosThetaO (roughness self)
             * weight self)%f32 in
  let coatPickProb := Ro in
  let substratePickProb := (F32.one - coatPickProb)%f32 in
  if (ss <? coatPickProb)%f32 then
    (* Sample the coating reflection *)
    let res := SampleRes.set_type res0 BSDF_DIFFUSE_REFLECTION in
    let res := SampleRes.set_wi res
      (linear3f_mul (sheen_frame self) (uniformSampleHemisphere s)) in
    (* Evaluate the substrate *)
    sample_tail self wo cosThetaO Ro res
      (bsdf_eval (substrate self) wo (SampleRes.wi res))
  else
    (* Sample the substrate *)
    let ss1 := ((ss - coatPickProb) * rcp substratePickProb)%f32 in
    let res := bsdf_sample (substrate self) wo s ss1 in
    if (reduce_max (SampleRes.weight res) <=? F32.zero)%f32 then res else
    (* correctly handle delta distributions *)
    sample_tail self wo cosThetaO Ro res
      (EvalRes.mk
         (vscale (SampleRes.weight res)
            (if is_specular (SampleRes.type res) then F32.one
             else SampleRes.pdf res))
         (SampleRes.pdf res)).

End Models.

(** ** The quantities of the energy conservation step, by name *)

Section Quantities.

Context {L : Library}.

(** [Ro], the probability of picking the coating. *)
Definition coatPickProb (self : MicrofacetSheenLayer) (wo : vec3f) : float :=
  (MicrofacetSheenAlbedoTable_eval (dot wo (getN self)) (roughness self)
   * weight self)%f32.

Definition substratePickProb (self : MicrofacetSheenLayer) (wo : vec3f) : float :=
  (F32.one - coatPickProb self wo)%f32.

(** [Ri], the scaled albedo at [|cosThetaI|]. *)
Definition albedo_in (self : MicrofacetSheenLayer) (wi : vec3f) : float :=
  (MicrofacetSheenAlbedoTable_eval (F32.abs (dot wi (getN self))) (roughness self)
   * weight self)%f32.

(** [T = min(1 - Ro, 1 - Ri)] *)
Definition transmission (self : MicrofacetSheenLayer) (wo wi : vec3f) : float :=
  F32.min (F32.one - coatPickProb self wo)%f32 (F32.one - albedo_in self wi)%f32.

(** The coating reflection at a pair of directions. *)
Definition coat (self : MicrofacetSheenLayer) (wo wi : vec3f) : BSDF_EvalRes :=
  coat_lobe self wo wi (dot wo (getN self)) (dot wi (getN self)).

(** [D * G * rcp(4 cosThetaO)], the factor of the coat value next to the
    tint and the blend weight. *)
Definition coat_term (self : MicrofacetSheenLayer) (wo wi : vec3f) : float :=
  let wh := normalize (vadd wo wi) in
  (SheenDistribution_eval (microfacet self) (dot wh (getN self))
   * evalG2 (microfacet self) (dot wo (getN self)) (dot wi (getN self))
       (dot wo wh) (dot wi wh)
   * rcp (F32.four * dot wo (getN self)))%f32.

(** The reallocated random number handed to the substrate. *)
Definition reallocate (self : MicrofacetSheenLayer) (wo : vec3f) (ss : float)
  : float :=
  ((ss - coatPickProb self wo) * rcp (substratePickProb self wo))%f32.

(** The value [sample] reconstructs from a sample of the substrate. *)
Definition reconstruct (r : BSDF_SampleRes) : BSDF_EvalRes :=
  EvalRes.mk
    (vscale (SampleRes.weight r)
       (if is_specular (SampleRes.type r) then F32.one else SampleRes.pdf r))
    (SampleRes.pdf r).

(** The layer over a substrate whose evaluation is [ev] at every pair of
    directions, and which is the substrate of [self] otherwise. *)
Definition with_substrate_eval (self : MicrofacetSheenLayer)
    (ev : BSDF_EvalRes) : MicrofacetSheenLayer :=
  {| sheen_frame := sheen_frame self;
     substrate :=
       {| bsdf_albedo := bsdf_albedo (substrate self);
          bsdf_type := bsdf_type (substrate self);
          bsdf_eval := fun _ _ => ev;
          bsdf_sample := bsdf_sample (substrate self);
          bsdf_frame := bsdf_frame (substrate self) |};
     R := R self;
     microfacet := microfacet self;
     roughness := roughness self;
     weight := weight self |}.

End Quantities.

(** ** [MicrofacetSheenLayer_sample] with the calls it makes

    The same function, returning next to its result the calls it made, in
    the order of evaluation. *)

Inductive Call : Type :=
| CallDot (a b : vec3f)
| CallAlbedoTable (cosTheta rough : float)
| CallRcp (a : float)
| CallHemisphere (s : vec2f)
| CallFrameMul (v : vec3f)
| CallSubstrateEval (wo wi : vec3f)
| CallSubstrateSample (wo : vec3f) (s : vec2f) (ss : float)
| CallReduceMax (v : vec3f)
| CallNormalize (v : vec3f)
| CallD (cosThetaH : float)
| CallG2 (cosThetaO cosThetaI cosThetaOH cosThetaIH : float)
| CallHemispherePDF.

Definition Traced (A : Type) : Type := (A * list Call)%type.

Definition ret {A : Type} (a : A) : Traced A := (a, []).

Definition bind {A B : Type} (m : Traced A) (k : A -> Traced B) : Traced B :=
  let '(a, t) := m in
  let '(b, t') := k a in
  (b, t ++ t').

Definition call {A : Type} (c : Call) (a : A) : Traced A := (a, [c]).

Notation "x <- m ;; k" := (bind m (fun x => k))
  (at level 61, m at next level, right associativity).

Definition is_rcp (c : Call) : bool :=
  match c with CallRcp _ => true | _ => false end.

Definition is_coat_term (c : Call) : bool :=
  match c with
  | CallNormalize _ | CallD _ | CallG2 _ _ _ _ | CallHemispherePDF => true
  | _ => false
  end.

Definition is_table (c : Call) : bool :=
  match c with CallAlbedoTable _ _ => true | _ => false end.

Section Traced.

Context {L : Library}.

Definition coat_lobe_tr (self : MicrofacetSheenLayer) (wo wi : vec3f)
    (cosThetaO cosThetaI : float) : Traced BSDF_EvalRes :=
  wh <- call (CallNormalize (vadd wo wi)) (normalize (vadd wo wi)) ;;
  cosThetaH <- call (CallDot wh (getN self)) (dot wh (getN self)) ;;
  cosThetaOH <- call (CallDot wo wh) (dot wo wh) ;;
  cosThetaIH <- call (CallDot wi wh) (dot wi wh) ;;
  D <- call (CallD cosThetaH) (SheenDistribution_eval (microfacet self) cosThetaH) ;;
  G <- call (CallG2 cosThetaO cosThetaI cosThetaOH cosThetaIH)
         (evalG2 (microfacet self) cosThetaO cosThetaI cosThetaOH cosThetaIH) ;;
  pdf <- call CallHemispherePDF uniformSampleHemispherePDF ;;
  r <- call (CallRcp (F32.four * cosThetaO)%f32) (rcp (F32.four * cosThetaO)%f32) ;;
  ret (EvalRes.mk (vscale (R self) (D * G * r * weight self)%f32) pdf).

Definition sample_tail_tr (self : MicrofacetSheenLayer) (wo : vec3f)
    (cosThetaO Ro : float) (res : BSDF_SampleRes) (substrate0 : BSDF_EvalRes)
  : Traced BSDF_SampleRes :=
  let substratePickProb := (F32.one - Ro)%f32 in
  cosThetaI <- call (CallDot (SampleRes.wi res) (getN self))
                 (dot (SampleRes.wi res) (getN self)) ;;
  t <- call (CallAlbedoTable (F32.abs cosThetaI) (roughness self))
         (MicrofacetSheenAlbedoTable_eval (F32.abs cosThetaI) (roughness self)) ;;
  let Ri := (t * weight self)%f32 in
  let T := F32.min (F32.one - Ro)%f32 (F32.one - Ri)%f32 in
  let substrate_value := vscale (EvalRes.value substrate0) T in
  let substrate_pdf := EvalRes.pdf substrate0 in
  if is_specular (SampleRes.type res) then
    r <- call (CallRcp substratePickProb) (rcp substratePickProb) ;;
    ret (SampleRes.set_weight res (vscale substrate_value r))
  else if (cosThetaI <=? F32.zero)%f32 then
    let res := SampleRes.set_pdf res (substratePickProb * substrate_pdf)%f32 in
    r <- call (CallRcp (SampleRes.pdf res)) (rcp (SampleRes.pdf res)) ;;
    ret (SampleRes.set_weight res (vscale substrate_value r))
  else
    coat <- coat_lobe_tr self wo (SampleRes.wi res) cosThetaO cosThetaI ;;
    let res := SampleRes.set_pdf res
      (Ro * EvalRes.pdf coat + substratePickProb * substrate_pdf)%f32 in
    r <- call (CallRcp (SampleRes.pdf res)) (rcp (SampleRes.pdf res)) ;;
    ret (SampleRes.set_weight res
           (vscale (vadd (EvalRes.value coat) substrate_value) r)).

Definition MicrofacetSheenLayer_sample_tr (res0 : BSDF_SampleRes)
    (self : MicrofacetSheenLayer) (wo : vec3f) (s : vec2f) (ss : float)
  : Traced BSDF_SampleRes :=
  cosThetaO <- call (CallDot wo (getN self)) (dot wo (getN self)) ;;
  if (cosThetaO <=? F32.zero)%f32 then ret make_BSDF_SampleRes_zero else
  t <- call (CallAlbedoTable cosThetaO (roughness self))
         (MicrofacetSheenAlbedoTable_eval cosThetaO (roughness self)) ;;
  let Ro := (t * weight self)%f32 in
  let coatPickProb := Ro in
  let substratePickProb := (F32.one - coatPickProb)%f32 in
  if (ss <? coatPickProb)%f32 then
    let res := SampleRes.set_type res0 BSDF_DIFFUSE_REFLECTION in
    h <- call (CallHemisphere s) (uniformSampleHemisphere s) ;;
    d <- call (CallFrameMul h) (linear3f_mul (sheen_frame self) h) ;;
    let res := SampleRes.set_wi res d in
    substrate0 <- call (CallSubstrateEval wo (SampleRes.wi res))
                    (bsdf_eval (substrate self) wo (SampleRes.wi res)) ;;
    sample_tail_tr self wo cosThetaO Ro res substrate0
  else
    r <- call (CallRcp substratePickProb) (rcp substratePickProb) ;;
    let ss1 := ((ss - coatPickProb) * r)%f32 in
    res <- call (CallSubstrateSample wo s ss1)
             (bsdf_sample (substrate self) wo s ss1) ;;
    m <- call (CallReduceMax (SampleRes.weight res))
           (reduce_max (SampleRes.weight res)) ;;
    if (m <=? F32.zero)%f32 then ret res else
    sample_tail_tr self wo cosThetaO Ro res
      (EvalRes.mk
         (vscale (SampleRes.weight res)
            (if is_specular (SampleRes.type res) then F32.one
             else SampleRes.pdf res))
         (SampleRes.pdf res)).

(** The calls made after the substrate has been sampled. *)
Fixpoint after_substrate_sample (t : list Call) : list Call :=
  match t with
  | [] => []
  | CallSubstrateSample _ _ _ :: t' => t'
  | _ :: t' => after_substrate_sample t'
  end.

End Traced.

(** ** A reference interpretation of the absent headers

    Used to run the two models on concrete inputs.  Where IEEE 754 and the
    usual definitions fix a function ([dot], [rcp] as the correctly rounded
    quotient, [reflect], the frame product, the Fresnel formula) it is that
    function; [exp] is given at the arguments where its image is exact
    (zero and the infinities) and is a NaN elsewhere; the functions whose
    closed form needs [sin], [cos] or [pow] (the albedo table, the sheen
    distribution, the hemisphere sample) are constant stand-ins. *)

Module Ref.

Definition two    : float := S754_finite false 8388608 (-22).
Definition quarter : float := S754_finite false 8388608 (-25).
Definition one_and_half : float := S754_finite false 12582912 (-23).   (* 1.5f *)
Definition forty_one : float := S754_finite false 10747904 (-18).     (* 41.f *)
Definition minus_one : float := S754_finite true 8388608 (-23).
Definition minus_inf : float := S754_infinity true.
Definition one_over_two_pi : float := S754_finite false 10680707 (-26).

Definition sqr (a : float) : float := (a * a)%f32.

Definition dot (a b : vec3f) : float :=
  (Vec3f.x a * Vec3f.x b + Vec3f.y a * Vec3f.y b + Vec3f.z a * Vec3f.z b)%f32.

Definition rcp (a : float) : float := F32.div F32.one a.

Definition normalize (v : vec3f) : vec3f :=
  vscale v (rcp (F32.sqrt (dot v v))).

Definition exp (a : float) : float :=
  match a with
  | S754_zero _ => F32.one
  | S754_infinity true => F32.zero
  | S754_infinity false => F32.inf
  | _ => S754_nan
  end.

(** [reflect(I, N, cosI) = (2 cosI) N - I] *)
Definition reflect (i n : vec3f) (cosI : float) : vec3f :=
  let k := (two * cosI)%f32 in
  Vec3f.mk (Vec3f.x n * k - Vec3f.x i)%f32 (Vec3f.y n * k - Vec3f.y i)%f32
           (Vec3f.z n * k - Vec3f.z i)%f32.

(** [l * v = v.x l.vx + v.y l.vy + v.z l.vz] *)
Definition linear3f_mul (l : linear3f) (v : vec3f) : vec3f :=
  vadd (vadd (vscale (vx l) (Vec3f.x v)) (vscale (vy l) (Vec3f.y v)))
       (vscale (vz l) (Vec3f.z v)).

(** The pole of the hemisphere. *)
Definition uniformSampleHemisphere (s : vec2f) : vec3f :=
  Vec3f.mk F32.zero F32.zero F32.one.

Definition MicrofacetSheenAlbedoTable_eval (cosTheta rough : float) : float :=
  quarter.

Definition SheenDistribution_eval (d : SheenDistribution) (cosThetaH : float)
  : float := F32.one.

Definition evalG2 (d : SheenDistribution) (cosThetaO cosThetaI cosThetaOH
    cosThetaIH : float) : float := F32.one.

(** Modelled from the spec: the dielectric Fresnel reflectance as a function
    of the cosine of incidence and the relative index of refraction, with
    [F = 1] beyond the critical angle (Fresnel.ih is not part of the sources
    at hand). *)
Definition fresnelDielectric (cosI cosT eta : float) : float :=
  let Rper := ((eta * cosI - cosT) * rcp (eta * cosI + cosT))%f32 in
  let Rpar := ((cosI - eta * cosT) * rcp (cosI + eta * cosT))%f32 in
  (F32.half * (sqr Rpar + sqr Rper))%f32.

Definition fresnelDielectricEx (cosI eta : float) : float * float :=
  let sqrCosT := (F32.one - sqr eta * (F32.one - sqr cosI))%f32 in
  if (sqrCosT <? F32.zero)%f32 then (F32.one, F32.zero)
  else
    let cosT := F32.sqrt sqrCosT in
    (fresnelDielectric cosI cosT eta, cosT).

Definition lib : Library :=
  Build_Library dot normalize rcp exp reflect linear3f_mul
    uniformSampleHemisphere one_over_two_pi MicrofacetSheenAlbedoTable_eval
    SheenDistribution_eval evalG2 fresnelDielectricEx.

(** The same with an albedo table that is 0 everywhere. *)
Definition lib_dark_table : Library :=
  Build_Library dot normalize rcp exp reflect linear3f_mul
    uniformSampleHemisphere one_over_two_pi (fun _ _ => F32.zero)
    SheenDistribution_eval evalG2 fresnelDielectricEx.

(** Directions and a frame. *)
Definition up   : vec3f := Vec3f.mk F32.zero F32.zero F32.one.
Definition down : vec3f := Vec3f.mk F32.zero F32.zero minus_one.
Definition frame : linear3f :=
  {| vx := Vec3f.mk F32.one F32.zero F32.zero;
     vy := Vec3f.mk F32.zero F32.one F32.zero;
     vz := up |}.
Definition uv : vec2f := Vec2f.mk F32.half F32.half.
Definition white : vec3f := make_vec3f F32.one.

(** A lossless glass slab, and one that lets no light through. *)
Definition glass : ThinDielectric :=
  {| td_frame := frame; eta := one_and_half; attenuation := make_vec3f F32.zero |}.
Definition opaque_glass : ThinDielectric :=
  {| td_frame := frame; eta := one_and_half; attenuation := make_vec3f minus_inf |}.

(** The lossless slab as a substrate. *)
Definition glass_bsdf : BSDF :=
  ThinDielectric_Constructor (L := lib) frame one_and_half (make_vec3f F32.zero).

(** A continuous substrate that always proposes [up] with weight 1 and
    density [p], and evaluates to the matching value. *)
Definition matte (p : float) : BSDF :=
  {| bsdf_albedo := white;
     bsdf_type := BSDF_DIFFUSE_REFLECTION;
     bsdf_eval := fun _ _ => EvalRes.mk (vscale white p) p;
     bsdf_sample := fun _ _ _ => SampleRes.mk white up p BSDF_DIFFUSE_REFLECTION;
     bsdf_frame := frame |}.

(** The same proposing [down], a transmission. *)
Definition sheer (p : float) : BSDF :=
  {| bsdf_albedo := white;
     bsdf_type := BSDF_DIFFUSE_TRANSMISSION;
     bsdf_eval := fun _ _ => EvalRes.mk (vscale white p) p;
     bsdf_sample := fun _ _ _ => SampleRes.mk white down p BSDF_DIFFUSE_TRANSMISSION;
     bsdf_frame := frame |}.

(** A substrate that scatters nothing. *)
Definition black : BSDF :=
  {| bsdf_albedo := make_vec3f F32.zero;
     bsdf_type := BSDF_DIFFUSE_REFLECTION;
     bsdf_eval := fun _ _ => make_BSDF_EvalRes_zero;
     bsdf_sample := fun _ _ _ => make_BSDF_SampleRes_zero;
     bsdf_frame := frame |}.

(** A sheen layer of blend weight [w] over [sub]. *)
Definition layer (sub : BSDF) (w : float) : MicrofacetSheenLayer :=
  {| sheen_frame := frame; substrate := sub; R := white;
     microfacet := {| sheen_alpha := F32.half |};
     roughness := F32.half; weight := w |}.

(** Some contents for the local [res] before its first assignment. *)
Definition garbage : BSDF_SampleRes :=
  SampleRes.mk (make_vec3f S754_nan) down minus_one BSDF_SPECULAR.

(** A sheen layer as a substrate: the two functions its constructor stores,
    with the type mask it declares. *)
Definition sheen_bsdf (l : MicrofacetSheenLayer) : BSDF :=
  {| bsdf_albedo := white;
     bsdf_type := Z.lor BSDF_DIFFUSE_REFLECTION (bsdf_type (substrate l));
     bsdf_eval := MicrofacetSheenLayer_eval (L := lib) l;
     bsdf_sample := MicrofacetSheenLayer_sample (L := lib) garbage l;
     bsdf_frame := sheen_frame l |}.

(** A sheen layer over a sheen layer over the continuous substrate of
    density 1.5. *)
Definition lined : MicrofacetSheenLayer :=
  layer (sheen_bsdf (layer (matte one_and_half) F32.half)) F32.half.

(** A slab that lets light through in its first channel only. *)
Definition red_glass : ThinDielectric :=
  {| td_frame := frame; eta := one_and_half;
     attenuation := Vec3f.mk F32.zero minus_inf minus_inf |}.

End Ref.


(** ** The transparency helpers and the constructor of the sheen layer *)

(** [a * v], a number times a vector *)
Definition vscale_l (a : float) (v : vec3f) : vec3f :=
  Vec3f.mk (a * Vec3f.x v)%f32 (a * Vec3f.y v)%f32 (a * Vec3f.z v)%f32.

Section Helpers.

Context {L : Library}.

(** Helper function for transparent shadow rays *)
Definition MicrofacetSheenLayer_getTransparency (cosThetaO roughness_ weight_ : float)
  : vec3f :=
  (* Energy conservation *)
  let Ro := (MicrofacetSheenAlbedoTable_eval cosThetaO roughness_ * weight_)%f32 in
  let T := (F32.one - Ro)%f32 in
  make_vec3f T.

(** Helper function for transparent shadow rays *)
Definition ThinDielectric_getTransparency (cosThetaO eta_ : float)
    (attenuation_ : vec3f) : vec3f :=
  (* Fresnel term *)
  let '(F, cosThetaT) := fresnelDielectricEx cosThetaO eta_ in
  (* Attenuation for crossing the slab once *)
  let length := rcp cosThetaT in
  let A := expf (vscale attenuation_ length) in
  vscale_l (F32.one - F)%f32 A.

End Helpers.

(** [0.1f] *)
Definition tenth : float := S754_finite false 13421773 (-27).

Section Constructor.

Context {L : Library}.

(** [lerp], [roughnessToAlpha] and [make_SheenDistribution] live in headers
    that are not part of the sources at hand. *)
Variable lerp : float -> vec3f -> vec3f -> vec3f.
Variable roughnessToAlpha : float -> float.
Variable make_SheenDistribution : float -> SheenDistribution.

(** [MicrofacetSheenLayer_Constructor]: the capability record of a sheen
    layer.  [res0] is what the local [res] of its [sample] holds before the
    first assignment. *)
Definition MicrofacetSheenLayer_Constructor (res0 : BSDF_SampleRes)
    (frame : linear3f) (substrate_ : BSDF) (R_ : vec3f)
    (roughness_ weight_ : float) : BSDF :=
  let self :=
    {| sheen_frame := frame;
       substrate := substrate_;
       R := R_;
       microfacet := make_SheenDistribution (roughnessToAlpha roughness_);
       roughness := roughness_;
       weight := weight_ |} in
  {| (* lean towards substrate (sheen is only at edge) *)
     bsdf_albedo := lerp (weight_ * tenth)%f32 (bsdf_albedo substrate_) R_;
     bsdf_type := Z.lor BSDF_DIFFUSE_REFLECTION (bsdf_type substrate_);
     bsdf_eval := MicrofacetSheenLayer_eval self;
     bsdf_sample := MicrofacetSheenLayer_sample res0 self;
     bsdf_frame := frame |}.

(** The arguments of one call of the constructor, the substrate apart. *)
Record Coating : Type := {
  coating_res0 : BSDF_SampleRes;
  coating_frame : linear3f;
  coating_R : vec3f;
  coating_roughness : float;
  coating_weight : float
}.

(** A substrate wrapped in sheen layers, the first of the list outermost. *)
Fixpoint coated (base : BSDF) (cs : list Coating) : BSDF :=
  match cs with
  | [] => base
  | c :: cs' =>
      MicrofacetSheenLayer_Constructor (coating_res0 c) (coating_frame c)
        (coated base cs') (coating_R c) (coating_roughness c) (coating_weight c)
  end.

End Constructor.

(** Every sample of [b] that is not void has a lobe type within the type
    mask [b] declares. *)
Definition lobes_declared (b : BSDF) : Prop :=
  forall (wo : vec3f) (s : vec2f) (u : float),
    let r := bsdf_sample b wo s u in
    is_void r = false ->
    Z.land (SampleRes.type r) (bsdf_type b) = SampleRes.type r.

(** ** The voxel range of a structured volume
       (src/ospray/volume/StructuredVolume.cpp) *)

From Stdlib Require Import Strings.Byte Permutation.

Module Volume.

(** [std::min(a, b)] is [(b < a) ? b : a] and [std::max(a, b)] is
    [(a < b) ? b : a]. *)
Definition std_min (a b : float) : float := if (b <? a)%f32 then b else a.
Definition std_max (a b : float) : float := if (a <? b)%f32 then b else a.

(** One step of the three loops: [voxelRange.x = std::min(voxelRange.x, v)]
    and [voxelRange.y = std::max(voxelRange.y, v)]. *)
Definition widen (voxelRange : vec2f) (v : float) : vec2f :=
  Vec2f.mk (std_min (Vec2f.x voxelRange) v) (std_max (Vec2f.y voxelRange) v).

(** Compute the voxel value range for floating point voxels.  The array
    [source] of [count] elements is the list of its elements. *)
Definition computeVoxelRange_float (voxelRange : vec2f) (source : list float)
  : vec2f :=
  fold_left widen source voxelRange.

(** A [double] is a binary64 number; the conversion [(float) d] rounds it to
    the nearest binary32 number. *)
Definition double : Type := spec_float.

Definition float_of_double (d : double) : float :=
  match d with
  | S754_finite s m e => binary_round F32.prec F32.emax s m e
  | _ => d
  end.

(** Compute the voxel value range for double precision floating point
    voxels. *)
Definition computeVoxelRange_double (voxelRange : vec2f) (source : list double)
  : vec2f :=
  fold_left (fun r d => widen r (float_of_double d)) source voxelRange.

(** [(float) c] for an unsigned char [c]. *)
Definition float_of_uchar (c : byte) : float :=
  binary_normalize F32.prec F32.emax (Z.of_N (Byte.to_N c)) 0 false.

(** The loop of the branch the preprocessor leaves out ([#else]). *)
Definition computeVoxelRange_uchar_serial (voxelRange : vec2f)
    (source : list byte) : vec2f :=
  fold_left (fun r c => widen r (float_of_uchar c)) source voxelRange.

(** [int], [size_t] and the conversions between them. *)
Definition to_int (a : Z) : Z := (a + 2 ^ 31) mod 2 ^ 32 - 2 ^ 31.
Definition to_size_t (a : Z) : Z := a mod 2 ^ 64.

(** [divRoundUp(a, b)] on [size_t] *)
Definition divRoundUp (a b : Z) : Z := to_size_t (a + b - 1) / b.

Definition blockSize : Z := 1000000.

(** [int numBlocks = divRoundUp(count, blockSize)] *)
Definition numBlocks (count : Z) : Z := to_int (divRoundUp count blockSize).

(** [source[i]] *)
Definition at_index (source : list byte) (i : Z) : byte :=
  nth (Z.to_nat i) source Byte.x00.

(** The integers from [lo] up to [hi], [hi] excluded. *)
Definition range (lo hi : Z) : list Z :=
  map (fun k => lo + Z.of_nat k) (seq 0 (Z.to_nat (hi - lo))).

(** The body of the parallel loop up to the lock: the range of block [i]. *)
Definition block_range (source : list byte) (i : Z) : vec2f :=
  let count := Z.of_nat (length source) in
  let myBegin := to_size_t (i * blockSize) in
  let myEnd := Z.min (to_size_t (myBegin + blockSize)) count in
  let myVoxelRange :=
    Vec2f.mk (float_of_uchar (at_index source myBegin))
             (float_of_uchar (at_index source myBegin)) in
  fold_left (fun r j => widen r (float_of_uchar (at_index source j)))
    (range myBegin myEnd) myVoxelRange.

(** What a block does while it holds the lock. *)
Definition merge (voxelRange myVoxelRange : vec2f) : vec2f :=
  Vec2f.mk (std_min (Vec2f.x voxelRange) (Vec2f.x myVoxelRange))
           (std_max (Vec2f.y voxelRange) (Vec2f.y myVoxelRange)).

(** The blocks of the parallel loop: [i] from 0 while [i < numBlocks], the
    [int] being converted to [size_t] by the comparison. *)
Definition blocks (source : list byte) : list Z :=
  range 0 (to_size_t (numBlocks (Z.of_nat (length source)))).

(** Compute the voxel value range for unsigned byte voxels.  The blocks run
    in parallel and each merges its range under the mutex: [schedule] is the
    order in which the blocks take the lock. *)
Definition computeVoxelRange_uchar (schedule : list Z) (voxelRange : vec2f)
    (source : list byte) : vec2f :=
  fold_left (fun r i => merge r (block_range source i)) schedule voxelRange.

(** Keep [a] unless [b] is strictly before it: [std_min] for the order of
    the numbers, [std_max] for its converse. *)
Definition pick {A : Type} (lt : A -> A -> bool) (a b : A) : A :=
  if lt b a then b else a.

(** The converse of the order of the numbers. *)
Definition gtb (a b : float) : bool := (b <? a)%f32.

(** A number that is neither a NaN nor the negative zero: on these numbers
    the comparison is a total order. *)
Definition ordered (a : float) : bool :=
  match a with
  | S754_nan | S754_zero true => false
  | _ => true
  end.

(** The place of a number that is not a NaN in the order: its class, then
    exponent and mantissa, negated for the negative numbers. *)
Definition key (a : float) : Z * Z * Z :=
  match a with
  | S754_infinity true => (-2, 0, 0)
  | S754_finite true m e => (-1, - e, - Zpos m)
  | S754_zero _ | S754_nan => (0, 0, 0)
  | S754_finite false m e => (1, e, Zpos m)
  | S754_infinity false => (2, 0, 0)
  end.

Definition lex (p q : Z * Z * Z) : Prop :=
  let '(c1, e1, m1) := p in
  let '(c2, e2, m2) := q in
  c1 < c2 \/ (c1 = c2 /\ (e1 < e2 \/ (e1 = e2 /\ m1 < m2))).

(** The elements of block [i]. *)
Definition chunk (source : list byte) (i : Z) : list byte :=
  firstn (Z.to_nat (Z.min (i * blockSize + blockSize) (Z.of_nat (length source))
                    - i * blockSize))
         (skipn (Z.to_nat (i * blockSize)) source).

End Volume.

(** ** The voxel type of a structured volume *)

From Stdlib Require Strings.Ascii Strings.String.

Module VoxelType.

Import String.StringSyntax.
Local Open Scope string_scope.

Definition string : Set := String.string.
Definition ascii : Set := Ascii.ascii.

Inductive OSPDataType : Set :=
| OSP_UNKNOWN
| OSP_UCHAR
| OSP_FLOAT
| OSP_DOUBLE.

(** The ways the function leaves the defined behaviour of the language. *)
Inductive Undefined : Set :=
| ReadsIndeterminate    (* strcmp reads [kind], in which nothing was stored *)
| WritesPastEnd         (* sscanf stores more characters than [kind] holds *)
| NotRepresentable.     (* the number read by %u does not fit unsigned int *)

Definition is_digit (c : ascii) : bool :=
  let n := Ascii.N_of_ascii c in
  ((48 <=? n) && (n <=? 57))%N.

Definition is_nul (c : ascii) : bool := (Ascii.N_of_ascii c =? 0)%N.

(** [voxelType.c_str()] as the scan sees it: the characters before the first
    NUL. *)
Fixpoint c_str (s : string) : string :=
  match s with
  | String.EmptyString => String.EmptyString
  | String.String c s' =>
      if is_nul c then String.EmptyString else String.String c (c_str s')
  end.

(** The directive [%[^0-9]]: the longest run of characters that are not
    digits, and the input left. *)
Fixpoint scanset (s : string) : string * string :=
  match s with
  | String.EmptyString => (String.EmptyString, String.EmptyString)
  | String.String c s' =>
      if is_digit c then (String.EmptyString, s)
      else let (kind, rest) := scanset s' in (String.String c kind, rest)
  end.

(** The directive [%u] on input that starts with a digit: the value of the
    longest run of digits. *)
Fixpoint digits (s : string) (acc : Z) : Z :=
  match s with
  | String.EmptyString => acc
  | String.String c s' =>
      if is_digit c
      then digits s' (10 * acc + (Z.of_N (Ascii.N_of_ascii c) - 48))
      else acc
  end.

(** [StructuredVolume::getVoxelType], with the string [voxelType] of the
    volume as its argument. *)
Definition getVoxelType (voxelType : string) : OSPDataType + Undefined :=
  (* Separate out the base type and vector width. *)
  let size := Z.of_nat (String.length voxelType) in     (* new char[size] *)
  let (kind, rest) := scanset (c_str voxelType) in
  match kind with
  | String.EmptyString => inr ReadsIndeterminate
  | _ =>
      (* the characters of kind and the NUL that ends them *)
      if size <? Z.of_nat (String.length kind) + 1 then inr WritesPastEnd
      else
        let width :=
          match rest with
          | String.EmptyString => Some 1
          | _ => let v := digits rest 0 in
                 if v <? 2 ^ 32 then Some v else None
          end in
        match width with
        | None => inr NotRepresentable
        | Some width =>
            let res := OSP_UNKNOWN in
            (* Unsigned 8-bit scalar integer. *)
            let res :=
              if String.eqb kind "uchar" && (width =? 1)
              then OSP_UCHAR else res in
            (* Single precision scalar floating point. *)
            let res :=
              if String.eqb kind "float" && (width =? 1)
              then OSP_FLOAT else res in
            (* Double precision scalar floating point. *)
            let res :=
              if String.eqb kind "double" && (width =? 1)
              then OSP_DOUBLE else res in
            inl res
        end
  end.

(** The name of a voxel type in [voxelType]. *)
Definition name (t : OSPDataType) : string :=
  match t with
  | OSP_UNKNOWN => ""
  | OSP_UCHAR => "uchar"
  | OSP_FLOAT => "float"
  | OSP_DOUBLE => "double"
  end.

(** No character of [s] satisfies [p]. *)
Fixpoint without (p : ascii -> bool) (s : string) : bool :=
  match s with
  | String.EmptyString => true
  | String.String c s' => negb (p c) && without p s'
  end.

End VoxelType.

(** ** The sphere geometry (the last file of src/apps/common/sg/SceneGraph.h) *)

(** [u - v] *)
Definition vsub (u v : vec3f) : vec3f :=
  Vec3f.mk (Vec3f.x u - Vec3f.x v)%f32 (Vec3f.y u - Vec3f.y v)%f32
           (Vec3f.z u - Vec3f.z v)%f32.

Module Geometry.

(** The integer types, with their wrap-around. *)
Definition int32 (a : Z) : Z := (a + 2 ^ 31) mod 2 ^ 32 - 2 ^ 31.
Definition int64 (a : Z) : Z := (a + 2 ^ 63) mod 2 ^ 64 - 2 ^ 63.
Definition uint32 (a : Z) : Z := a mod 2 ^ 32.

(** Memory, read through pointers to [uint32], [float], [vec2f] and
    [vec3f]; an address is an integer. *)
Record Memory : Type := {
  load_uint32 : Z -> Z;
  load_float : Z -> float;
  load_vec2f : Z -> vec2f;
  load_vec3f : Z -> vec3f
}.

(** The fields of [struct Spheres]; of [super] only [geomID] is kept, a
    pointer is its address. *)
Record Spheres : Type := {
  geomID : Z;
  data : Z;
  stride : Z;
  offset_center : Z;
  offset_radius : Z;
  offset_materialID : Z;
  offset_colorID : Z;
  radius : float;
  epsilon : float;
  materialID : Z;
  color : Z;
  color_stride : Z;
  color_offset : Z;
  color_format : Z;
  texcoord : Z;
  huge_mesh : bool
}.

Definition primsPerPage : Z := 1024 * 1024 * 64.

(** [Spheres_getMaterialID] in one program instance; [paged] is the value of
    [any(primID >= primsPerPage)], the same for the whole gang. *)
Definition getMaterialID_lane (mem : Memory) (self : Spheres) (paged : bool)
    (primID : Z) : Z :=
  if 0 <=? offset_materialID self then
    if paged then
      let primPageID := Z.quot primID primsPerPage in
      let localPrimID := Z.rem primID primsPerPage in
      let pagePtr :=
        data self + int64 (int64 (primPageID * primsPerPage) * stride self) in
      let spherePtr := pagePtr + int32 (stride self * localPrimID) in
      int32 (load_uint32 mem (spherePtr + offset_materialID self))
    else
      let spherePtr := data self + int32 (stride self * primID) in
      int32 (load_uint32 mem (spherePtr + offset_materialID self))
  else
    materialID self.

(** [Spheres_getMaterialID] on a gang: [primIDs] holds the [primID] of each
    running program instance. *)
Definition Spheres_getMaterialID (mem : Memory) (self : Spheres)
    (primIDs : list Z) : list Z :=
  let paged := existsb (fun primID => primsPerPage <=? primID) primIDs in
  map (getMaterialID_lane mem self paged) primIDs.

(** The fields of a ray the kernel reads or writes; its identifiers are
    [int]. *)
Record Ray : Type := {
  org : vec3f;
  dir : vec3f;
  t0 : float;
  t : float;
  Ng : vec3f;
  primID : Z;
  ray_geomID : Z;
  instID : Z
}.

(** [make_box3fa(lower, upper)], without the padding of its corners. *)
Record box3fa : Type := { lower : vec3f; upper : vec3f }.

(** [Spheres_bounds]; [args_primID] is [args->primID], an [unsigned int]
    the function keeps in an [int]. *)
Definition Spheres_bounds (mem : Memory) (self : Spheres) (args_primID : Z)
  : box3fa :=
  let primID_ := int32 args_primID in
  let spherePtr := data self + int64 (stride self * primID_) in
  let offr := 0 <=? offset_radius self in
  let radius_ :=
    if offr then load_float mem (spherePtr + offset_radius self)
    else radius self in
  let center := load_vec3f mem (spherePtr + offset_center self) in
  {| lower := vsub center (make_vec3f radius_);
     upper := vadd center (make_vec3f radius_) |}.

Record vec4f : Type := { x4 : float; y4 : float; z4 : float; w4 : float }.

(** The fields of [DifferentialGeometry] the geometry writes. *)
Record DifferentialGeometry : Type := {
  dg_Ng : vec3f;
  dg_Ns : vec3f;
  dg_color : vec4f;
  dg_st : vec2f;
  dg_materialID : Z
}.

(** [(float) n] for an unsigned integer [n]. *)
Definition float_of_uint32 (n : Z) : float :=
  binary_normalize F32.prec F32.emax n 0 false.

Definition two_five_five : float := S754_finite false 16711680 (-16).  (* 255.0 *)

Section PostIntersect.

(** The flags of DifferentialGeometry.ih, the data types of OSPDataType.h
    and the gathers of safe_gather.ih. *)
Variables DG_COLOR DG_TEXCOORD DG_MATERIALID : Z.
Variables OSP_FLOAT4 OSP_FLOAT3 OSP_FLOAT3A OSP_UCHAR4 : Z.
Variable gather_byte_stride_vec4f : bool -> Z -> Z -> Z -> vec4f.
Variable gather_byte_stride_vec3f : bool -> Z -> Z -> Z -> vec3f.
Variable gather_stride_uint32 : bool -> Z -> Z -> Z -> Z.

(** [Spheres_postIntersect] in one program instance; [paged] is the value
    of [any(primID >= primsPerPage)] in [Spheres_getMaterialID]. *)
Definition Spheres_postIntersect (mem : Memory) (self : Spheres)
    (paged : bool) (dg : DifferentialGeometry) (ray : Ray) (flags : Z)
  : DifferentialGeometry :=
  let dg :=
    {| dg_Ng := Ng ray; dg_Ns := Ng ray; dg_color := dg_color dg;
       dg_st := dg_st dg; dg_materialID := dg_materialID dg |} in
  let set_color (c : vec4f) : DifferentialGeometry :=
    {| dg_Ng := dg_Ng dg; dg_Ns := dg_Ns dg; dg_color := c;
       dg_st := dg_st dg; dg_materialID := dg_materialID dg |} in
  let dg :=
    if negb (Z.land flags DG_COLOR =? 0) && negb (color self =? 0) then
      let colorID :=
        if 0 <=? offset_colorID self then
          let spherePtr := data self + int32 (stride self * primID ray) in
          load_uint32 mem (spherePtr + offset_colorID self)
        else uint32 (primID ray) in
      if color_format self =? OSP_FLOAT4 then
        set_color (gather_byte_stride_vec4f (huge_mesh self)
                     (color self + color_offset self) (color_stride self)
                     colorID)
      else if (color_format self =? OSP_FLOAT3)
              || (color_format self =? OSP_FLOAT3A) then
        let c := gather_byte_stride_vec3f (huge_mesh self)
                   (color self + color_offset self) (color_stride self)
                   colorID in
        set_color {| x4 := Vec3f.x c; y4 := Vec3f.y c; z4 := Vec3f.z c;
                     w4 := F32.one |}
      else if color_format self =? OSP_UCHAR4 then
        let c := gather_stride_uint32 (huge_mesh self)
                   (color self + color_offset self) (color_stride self)
                   colorID in
        set_color
          {| x4 := F32.div (float_of_uint32 (Z.land c 255)) two_five_five;
             y4 := F32.div (float_of_uint32
                              (Z.shiftr (Z.land c 65280) 8)) two_five_five;
             z4 := F32.div (float_of_uint32
                              (Z.shiftr (Z.land c 16711680) 16)) two_five_five;
             w4 := F32.div (float_of_uint32
                              (Z.shiftr (Z.land c 4278190080) 24))
                     two_five_five |}
      else dg
    else dg in
  let dg :=
    if negb (Z.land flags DG_TEXCOORD =? 0) && negb (texcoord self =? 0) then
      {| dg_Ng := dg_Ng dg; dg_Ns := dg_Ns dg; dg_color := dg_color dg;
         dg_st := load_vec2f mem (texcoord self + 8 * primID ray);
         dg_materialID := dg_materialID dg |}
    else dg in
  if negb (Z.land flags DG_MATERIALID =? 0) then
    {| dg_Ng := dg_Ng dg; dg_Ns := dg_Ns dg; dg_color := dg_color dg;
       dg_st := dg_st dg;
       dg_materialID := getMaterialID_lane mem self paged (primID ray) |}
  else dg.

End PostIntersect.

Definition two : float := S754_finite false 8388608 (-22).         (* 2.f *)
Definition hundred : float := S754_finite false 13107200 (-17).    (* 100.0 *)
Definition neg_inf : float := S754_infinity true.

Section Kernel.

Context {L : Library}.

(** [sqrt], [rcpf] and [log] are functions of the standard library of the
    language and of math.ih. *)
Variable sqrt : float -> float.
Variable rcpf : float -> float.
Variable log : float -> float.

(** [Spheres_intersect_kernel] in one program instance: [valid] is
    [args->valid[programIndex]], [args_primID] is [args->primID] and
    [args_instID] is [args->context->instID[0]]. *)
Definition Spheres_intersect_kernel (mem : Memory) (self : Spheres)
    (valid : bool) (args_primID args_instID : Z) (isOcclusionTest : bool)
    (ray : Ray) : Ray :=
  (* make sure to set the mask *)
  if negb valid then ray else
  let primID_ := uint32 args_primID in
  let spherePtr := data self + int64 (stride self * primID_) in
  let radius_ :=
    if 0 <=? offset_radius self
    then load_float mem (spherePtr + offset_radius self)
    else radius self in
  let center := load_vec3f mem (spherePtr + offset_center self) in
  let approxDist := dot (vsub center (org ray)) (dir ray) in
  let closeOrg := vadd (org ray) (vscale_l approxDist (dir ray)) in
  let A := vsub center closeOrg in
  let a := dot (dir ray) (dir ray) in
  let b := (two * dot (dir ray) A)%f32 in
  let c := (dot A A - radius_ * radius_)%f32 in
  let radical := (b * b - F32.four * a * c)%f32 in
  if (radical <? F32.zero)%f32 then ray else
  let srad := sqrt radical in
  let t_in := ((b - srad) * rcpf (two * a) + approxDist)%f32 in
  let t_out := ((b + srad) * rcpf (two * a) + approxDist)%f32 in
  let hit_at (t' : float) : Ray :=
    if isOcclusionTest then
      {| org := org ray; dir := dir ray; t0 := t0 ray; t := neg_inf;
         Ng := Ng ray; primID := primID ray; ray_geomID := ray_geomID ray;
         instID := instID ray |}
    else
      {| org := org ray; dir := dir ray; t0 := t0 ray; t := t';
         (* we need hit in object space *)
         Ng := vsub (vadd (org ray) (vscale_l t' (dir ray))) center;
         primID := int32 primID_; ray_geomID := geomID self;
         instID := args_instID |} in
  if (t0 ray <? t_in)%f32 && (t_in <? t ray)%f32 then hit_at t_in
  else if (t0 ray + epsilon self <? t_out)%f32 && (t_out <? t ray)%f32
  then hit_at t_out
  else ray.

Definition Spheres_intersect mem self valid args_primID args_instID ray : Ray :=
  Spheres_intersect_kernel mem self valid args_primID args_instID false ray.

Definition Spheres_occluded mem self valid args_primID args_instID ray : Ray :=
  Spheres_intersect_kernel mem self valid args_primID args_instID true ray.

(** The value [SpheresGeometry_set] leaves in [self->epsilon]. *)
Definition set_epsilon (radius_ : float) : float :=
  (* Why a log function? *)
  let epsilon_ := log radius_ in
  let epsilon_ :=
    if (epsilon_ <? F32.zero)%f32 then F32.div (F32.neg F32.one) epsilon_
    else epsilon_ in
  (* make sure epsilon is not too big *)
  if (F32.div radius_ hundred <? epsilon_)%f32 then F32.div radius_ hundred
  else epsilon_.

(** [SpheresGeometry_set]: the fields it leaves in [self]; [geomID_] is the
    identifier [rtcAttachGeometry] returned.  The model, the material list
    and the number of spheres go to fields of [super] and to the ray tracing
    kernels only. *)
Definition SpheresGeometry_set (geomID_ : Z) (data_ texcoord_ color_ : Z)
    (color_offset_ color_stride_ color_format_ : Z) (bytesPerSphere : Z)
    (radius_ : float) (materialID_ : Z)
    (offset_center_ offset_radius_ offset_materialID_ offset_colorID_ : Z)
    (huge_mesh_ : bool) : Spheres :=
  {| geomID := geomID_;
     data := data_;
     stride := bytesPerSphere;
     offset_center := offset_center_;
     offset_radius := offset_radius_;
     offset_materialID := offset_materialID_;
     offset_colorID := offset_colorID_;
     radius := radius_;
     epsilon := set_epsilon radius_;
     materialID := materialID_;
     color := color_;
     color_stride := color_stride_;
     color_offset := color_offset_;
     color_format := color_format_;
     texcoord := texcoord_;
     huge_mesh := huge_mesh_ |}.

End Kernel.

End Geometry.


(** * Facts about binary32 arithmetic *)

Section Rounding.

Lemma digits2_pos_size m : digits2_pos m = Pos.size m.
Proof. induction m; simpl; congruence. Qed.

Lemma digits2_pos_lower m : 2 ^ (Zpos (digits2_pos m) - 1) <= Zpos m.
Proof.
  rewrite digits2_pos_size.
  pose proof (Pos.size_le m) as H.
  assert (H' : 2 ^ Zpos (Pos.size m) <= 2 * Zpos m).
  { change (2 * Zpos m) with (Zpos (m~0)). rewrite <- Pos2Z.inj_pow. 
    apply Pos2Z.pos_le_pos. exact H. }
  replace (Zpos (Pos.size m)) with (Z.succ (Zpos (Pos.size m) - 1)) in H' by lia.
  rewrite Z.pow_succ_r in H' by lia. lia.
Qed.

Lemma shr_1_m mrs : 0 <= shr_m mrs -> shr_m (shr_1 mrs) = shr_m mrs / 2.
Proof.
  destruct mrs as [m r s]; simpl. intros H.
  destruct m as [|p|p]; try lia; simpl.
  - reflexivity.
  - destruct p; simpl.
    + rewrite Pos2Z.inj_xI. apply Z.div_unique with 1; lia.
    + rewrite Pos2Z.inj_xO. apply Z.div_unique with 0; lia.
    + reflexivity.
Qed.

Lemma shr_m_iter p : forall mrs, 0 <= shr_m mrs ->
  shr_m (iter_pos shr_1 p mrs) = shr_m mrs / 2 ^ Zpos p.
Proof.
  induction p as [p IH|p IH|]; intros mrs H; simpl iter_pos.
  - assert (H1 : 0 <= shr_m (shr_1 mrs)).
    { rewrite shr_1_m by assumption. apply Z.div_pos; lia. }
    assert (H2 : 0 <= shr_m (iter_pos shr_1 p (shr_1 mrs))).
    { rewrite IH by assumption. apply Z.div_pos; [assumption|]. apply Z.pow_pos_nonneg; lia. }
    rewrite IH by assumption. rewrite IH by assumption. rewrite shr_1_m by assumption.
    rewrite !Z.div_div by (try lia; apply Z.pow_pos_nonneg; lia).
    f_equal. replace (Zpos p~1) with (1 + Zpos p + Zpos p) by lia.
    rewrite !Z.pow_add_r by lia. change (2 ^ 1) with 2. ring.
  - assert (H2 : 0 <= shr_m (iter_pos shr_1 p mrs)).
    { rewrite IH by assumption. apply Z.div_pos; [assumption|]. apply Z.pow_pos_nonneg; lia. }
    rewrite IH by assumption. rewrite IH by assumption.
    rewrite !Z.div_div by (try lia; apply Z.pow_pos_nonneg; lia).
    f_equal. replace (Zpos p~0) with (Zpos p + Zpos p) by lia.
    rewrite Z.pow_add_r by lia. reflexivity.
  - rewrite shr_1_m by assumption. reflexivity.
Qed.

Lemma shr_record_of_loc_m m l : shr_m (shr_record_of_loc m l) = m.
Proof. destruct l as [|[]]; reflexivity. Qed.

Lemma fexp_emin e : emin F32.prec F32.emax <= fexp F32.prec F32.emax e.
Proof. unfold fexp. lia. Qed.

Lemma shr_fexp_expo m e l :
  emin F32.prec F32.emax <= snd (shr_fexp F32.prec F32.emax m e l).
Proof.
  unfold shr_fexp, shr.
  pose proof (fexp_emin (Zdigits2 m + e)) as H.
  destruct (fexp F32.prec F32.emax (Zdigits2 m + e) - e) eqn:E; simpl; lia.
Qed.

Lemma shr_fexp_pos m e l :
  emin F32.prec F32.emax <= e ->
  0 < shr_m (fst (shr_fexp F32.prec F32.emax (Zpos m) e l)).
Proof.
  intros He. unfold shr_fexp, shr.
  destruct (fexp F32.prec F32.emax (Zdigits2 (Zpos m) + e) - e) as [|p|p] eqn:E;
    simpl fst; try (rewrite shr_record_of_loc_m; lia).
  rewrite shr_m_iter by (rewrite shr_record_of_loc_m; lia).
  rewrite shr_record_of_loc_m.
  apply Z.div_str_pos. split; [apply Z.pow_pos_nonneg; lia|].
  pose proof (digits2_pos_lower m) as Hd.
  apply Z.le_trans with (2 ^ (Zpos (digits2_pos m) - 1)); [|exact Hd].
  apply Z.pow_le_mono_r; [lia|].
  simpl Zdigits2 in E. unfold fexp, emin, F32.prec, F32.emax in *. lia.
Qed.

Lemma round_nearest_even_pos m l : 0 < m -> 0 < round_nearest_even m l.
Proof.
  intros H. destruct l as [|[]]; simpl; try lia.
  destruct (Z.even m); lia.
Qed.

Lemma binary_round_aux_expo sx mx ex lx :
  F32.expo_ok (binary_round_aux F32.prec F32.emax sx mx ex lx).
Proof.
  unfold binary_round_aux.
  destruct (shr_fexp F32.prec F32.emax mx ex lx) as [mrs' e'].
  match goal with |- context [shr_fexp ?p ?q ?m ?e ?l] =>
    pose proof (shr_fexp_expo m e l) as H;
    destruct (shr_fexp p q m e l) as [mrs'' e''] end.
  simpl in H.
  destruct (shr_m mrs''); simpl; auto.
  destruct (e'' <=? 104); simpl; auto.
Qed.

Lemma binary_round_aux_pos m e l :
  emin F32.prec F32.emax <= e ->
  F32.ltb F32.zero (binary_round_aux F32.prec F32.emax false (Zpos m) e l) = true.
Proof.
  intros He. unfold binary_round_aux.
  pose proof (shr_fexp_pos m e l He) as H1.
  pose proof (shr_fexp_expo (Zpos m) e l) as H2.
  destruct (shr_fexp F32.prec F32.emax (Zpos m) e l) as [mrs' e'].
  simpl in H1, H2.
  pose proof (round_nearest_even_pos _ (loc_of_shr_record mrs') H1) as H3.
  destruct (round_nearest_even (shr_m mrs') (loc_of_shr_record mrs')) as [|m1|m1];
    try lia.
  pose proof (shr_fexp_pos m1 e' loc_Exact H2) as H4.
  destruct (shr_fexp F32.prec F32.emax (Zpos m1) e' loc_Exact) as [mrs'' e''].
  simpl in H4.
  destruct (shr_m mrs'') as [|m2|m2]; try lia.
  destruct (e'' <=? F32.emax - F32.prec); reflexivity.
Qed.

Lemma binary_round_pos m e :
  emin F32.prec F32.emax <= e ->
  F32.ltb F32.zero (binary_round F32.prec F32.emax false m e) = true.
Proof.
  intros He. unfold binary_round, shl_align.
  pose proof (fexp_emin (Zpos (digits2_pos m) + e)) as H.
  destruct (fexp F32.prec F32.emax (Zpos (digits2_pos m) + e) - e) eqn:E;
    apply binary_round_aux_pos; lia.
Qed.

Lemma mul_expo_ok a b : F32.expo_ok (F32.mul a b).
Proof.
  destruct a as [sa|sa| |sa ma ea], b as [sb|sb| |sb mb eb]; simpl; auto.
  apply binary_round_aux_expo.
Qed.

Lemma add_pos_nonneg a b :
  F32.expo_ok a -> F32.expo_ok b ->
  F32.ltb F32.zero a = true -> F32.leb F32.zero b = true ->
  F32.ltb F32.zero (F32.add a b) = true.
Proof.
  intros Ha Hb Pa Pb.
  destruct a as [sa|sa| |sa ma ea]; try discriminate Pa;
  destruct sa; try discriminate Pa;
  destruct b as [sb|sb| |sb mb eb]; try discriminate Pb;
  try (destruct sb; try discriminate Pb); try reflexivity.
  simpl in Ha, Hb.
  unfold F32.add, SFadd, cond_Zopp, binary_normalize.
  cbn [Z.add]. apply binary_round_pos. lia.
Qed.

Lemma mul_comm a b : F32.mul a b = F32.mul b a.
Proof.
  destruct a as [sa|sa| |sa ma ea], b as [sb|sb| |sb mb eb];
    unfold F32.mul, SFmul;
    rewrite ?(xorb_comm sa sb), ?(Pos.mul_comm ma mb), ?(Z.add_comm ea eb);
    reflexivity.
Qed.

Lemma mul_one_r a : F32.valid a = true -> F32.mul a F32.one = a.
Proof.
  destruct a as [sa|sa| |sa m e]; simpl; intros H;
    try (rewrite xorb_false_r; reflexivity); try reflexivity.
  unfold F32.valid, valid_binary, bounded, canonical_mantissa in H.
  apply andb_true_iff in H. destruct H as [Hc Hb].
  apply Z.eqb_eq in Hc.
  unfold F32.mul, F32.one, SFmul. rewrite xorb_false_r.
  rewrite Pos.mul_comm. cbn [Pos.mul].
  unfold binary_round_aux.
  assert (E1 : shr_fexp F32.prec F32.emax
                 (Zpos (m~0~0~0~0~0~0~0~0~0~0~0~0~0~0~0~0~0~0~0~0~0~0~0)) (e + -23) loc_Exact
               = (Build_shr_record (Zpos m) false false, e)).
  { unfold shr_fexp. cbn [Zdigits2 digits2_pos].
    replace (fexp F32.prec F32.emax _ - (e + -23)) with 23.
    - unfold shr. cbn. f_equal. lia.
    - rewrite <- Hc at 2. 
      replace (Zpos (Pos.succ (Pos.succ (Pos.succ (Pos.succ (Pos.succ (Pos.succ
        (Pos.succ (Pos.succ (Pos.succ (Pos.succ (Pos.succ (Pos.succ
        (Pos.succ (Pos.succ (Pos.succ (Pos.succ (Pos.succ (Pos.succ
        (Pos.succ (Pos.succ (Pos.succ (Pos.succ (Pos.succ
        (digits2_pos m)))))))))))))))))))))))) + (e + -23))
        with (Zpos (digits2_pos m) + e) by lia.
      lia. }
  rewrite E1. cbn [shr_m loc_of_shr_record round_nearest_even].
  assert (E2 : shr_fexp F32.prec F32.emax (Zpos m) e loc_Exact
               = (Build_shr_record (Zpos m) false false, e)).
  { unfold shr_fexp. cbn [Zdigits2]. rewrite Hc. rewrite Z.sub_diag. reflexivity. }
  rewrite E2. cbn [shr_m]. rewrite Hb. reflexivity.
Qed.

End Rounding.


(** ** Comparisons with zero *)

Section Comparisons.

Lemma leb_zero_not_ltb a :
  (a <=? F32.zero)%f32 = true -> (F32.zero <? a)%f32 = false.
Proof. destruct a as [s|s| |s m e]; try destruct s; cbv; congruence. Qed.

Lemma ltb_zero_not_leb a :
  (F32.zero <? a)%f32 = true -> (a <=? F32.zero)%f32 = false.
Proof. destruct a as [s|s| |s m e]; try destruct s; cbv; congruence. Qed.

Lemma not_leb_zero_ltb a :
  F32.is_nan a = false -> (a <=? F32.zero)%f32 = false ->
  (F32.zero <? a)%f32 = true.
Proof. destruct a as [s|s| |s m e]; try destruct s; cbv; congruence. Qed.

Lemma ltb_zero_not_eqb a :
  (F32.zero <? a)%f32 = true -> (a ==? F32.zero)%f32 = false.
Proof. destruct a as [s|s| |s m e]; try destruct s; cbv; congruence. Qed.

Lemma eqb_zero_is_zero a : (a ==? F32.zero)%f32 = F32.is_zero a.
Proof. destruct a as [s|s| |s m e]; try destruct s; reflexivity. Qed.

Lemma max_clamp d : (d <=? F32.zero)%f32 = true -> F32.max d F32.zero = F32.zero.
Proof. intros H. unfold F32.max. rewrite (leb_zero_not_ltb d H). reflexivity. Qed.

Lemma max_pos a b :
  (F32.zero <? a)%f32 = true -> (F32.zero <? b)%f32 = true ->
  (F32.zero <? F32.max a b)%f32 = true.
Proof. intros Ha Hb. unfold F32.max. destruct (b <? a)%f32; assumption. Qed.

Lemma ltb_zero_negb_leb a :
  F32.is_nan a = false -> negb (F32.zero <? a)%f32 = (a <=? F32.zero)%f32.
Proof. destruct a as [s|s| |s m e]; try destruct s; cbv; congruence. Qed.

Lemma max_leb_zero a b :
  F32.is_nan a = false -> F32.is_nan b = false ->
  F32.is_nan (F32.max a b) = false
  /\ (F32.max a b <=? F32.zero)%f32
     = (a <=? F32.zero)%f32 && (b <=? F32.zero)%f32.
Proof.
  intros Ha Hb. unfold F32.max.
  destruct a as [sa|sa| |sa ma ea]; try discriminate Ha;
  destruct b as [sb|sb| |sb mb eb]; try discriminate Hb;
  destruct sa; destruct sb;
  match goal with |- context [if ?c then _ else _] => destruct c eqn:E end;
  try (split; reflexivity); cbv in E; discriminate E.
Qed.

Lemma reduce_max_leb_zero v :
  F32.is_nan (Vec3f.x v) = false -> F32.is_nan (Vec3f.y v) = false ->
  F32.is_nan (Vec3f.z v) = false ->
  (reduce_max v <=? F32.zero)%f32
  = (Vec3f.x v <=? F32.zero)%f32 && (Vec3f.y v <=? F32.zero)%f32
    && (Vec3f.z v <=? F32.zero)%f32.
Proof.
  intros Hx Hy Hz. unfold reduce_max.
  destruct (max_leb_zero _ _ Hx Hy) as [Hn Hxy].
  destruct (max_leb_zero _ _ Hn Hz) as [_ H].
  rewrite H, Hxy. reflexivity.
Qed.

Lemma reduce_max_pos v :
  (F32.zero <? Vec3f.x v)%f32 = true -> (F32.zero <? Vec3f.y v)%f32 = true ->
  (F32.zero <? Vec3f.z v)%f32 = true ->
  (F32.zero <? reduce_max v)%f32 = true.
Proof. intros Hx Hy Hz. unfold reduce_max. auto using max_pos. Qed.

End Comparisons.

(** ** Products and sums with a zero *)

Section Zeros.

Lemma mul_zero_r a z :
  F32.is_finite a = true -> F32.is_zero z = true ->
  F32.is_zero (a * z)%f32 = true.
Proof.
  destruct a as [sa|sa| |sa m e], z as [sz|sz| |sz mz ez]; simpl; congruence.
Qed.

Lemma mul_zero_l z a :
  F32.is_zero z = true -> F32.is_finite a = true ->
  F32.is_zero (z * a)%f32 = true.
Proof. intros Hz Ha. rewrite mul_comm. apply mul_zero_r; assumption. Qed.

Lemma sub_plus_zero_r a : (a - F32.zero)%f32 = a.
Proof. destruct a as [sa|sa| |sa m e]; try destruct sa; reflexivity. Qed.

Lemma add_zero_l z a :
  F32.is_zero z = true -> F32.same (z + a)%f32 a.
Proof.
  destruct z as [sz|sz| |sz mz ez]; simpl; try congruence. intros _.
  destruct a as [sa|sa| |sa m e]; try (left; reflexivity).
  destruct sz, sa; simpl; (left; reflexivity) || (right; split; reflexivity).
Qed.

Lemma add_zero_l_eq z a :
  F32.is_zero z = true -> F32.is_zero a = false -> (z + a)%f32 = a.
Proof.
  destruct z as [sz|sz| |sz mz ez]; simpl; try congruence. intros _.
  destruct a as [sa|sa| |sa m e]; simpl; congruence.
Qed.

Lemma mul_one_l a : F32.valid a = true -> (F32.one * a)%f32 = a.
Proof. intros H. rewrite mul_comm. apply mul_one_r, H. Qed.

Lemma vscale_one v : vvalid v = true -> vscale v F32.one = v.
Proof.
  destruct v as [a b c]. unfold vvalid, vscale. simpl. intros H.
  apply andb_true_iff in H. destruct H as [H Hc].
  apply andb_true_iff in H. destruct H as [Ha Hb].
  rewrite !mul_one_r by assumption. reflexivity.
Qed.

Lemma vscale_zero v t :
  vzero v = true -> F32.is_finite t = true -> vzero (vscale v t) = true.
Proof.
  destruct v as [a b c]. unfold vzero, vscale. simpl.
  rewrite !eqb_zero_is_zero. intros H Ht.
  apply andb_true_iff in H. destruct H as [H Hc].
  apply andb_true_iff in H. destruct H as [Ha Hb].
  rewrite !mul_zero_l by assumption. reflexivity.
Qed.

Lemma vscale_by_zero v t :
  vfinite v = true -> F32.is_zero t = true -> vzero (vscale v t) = true.
Proof.
  destruct v as [a b c]. unfold vzero, vfinite, vscale. simpl.
  rewrite !eqb_zero_is_zero. intros H Ht.
  apply andb_true_iff in H. destruct H as [H Hc].
  apply andb_true_iff in H. destruct H as [Ha Hb].
  rewrite !mul_zero_r by assumption. reflexivity.
Qed.

End Zeros.


(** Discharge the first premise of [H] by evaluation. *)
Ltac premise H :=
  match type of H with
  | ?P -> _ =>
      let HP := fresh "HP" in
      assert (HP : P) by (vm_compute; reflexivity);
      specialize (H HP); clear HP
  end.


(** * The thin dielectric *)

Section ThinDielectricFacts.

Context {L : Library}.

Lemma ThinDielectric_sample_eq (self : ThinDielectric) (wo : vec3f)
    (s : vec2f) (u : float) :
  let N := vz (td_frame self) in
  let cosThetaO := F32.max (dot wo N) F32.zero in
  let F := fst (fresnelDielectricEx cosThetaO (eta self)) in
  let cosThetaT := snd (fresnelDielectricEx cosThetaO (eta self)) in
  ThinDielectric_sample self wo s u =
    if (u <=? F)%f32 then
      SampleRes.mk (make_vec3f F32.one) (reflect wo N cosThetaO) F32.inf
        BSDF_SPECULAR_REFLECTION
    else
      SampleRes.mk (expf (vscale (attenuation self) (rcp cosThetaT)))
        (neg wo) F32.inf BSDF_SPECULAR_TRANSMISSION.
Proof.
  cbv zeta. unfold ThinDielectric_sample.
  destruct (fresnelDielectricEx (F32.max (dot wo (vz (td_frame self))) F32.zero)
              (eta self)) as [F cosThetaT].
  reflexivity.
Qed.

(** C4, as amended.  [ThinDielectric_sample] reports an infinite density.
    For [wo] above the horizon the cosine of incidence is [dot(wo, N)], the
    entry angle: when [u <= F], the Fresnel reflectance there, the result is
    the mirror direction [reflect(wo, N, dot(wo, N))] tagged specular
    reflection with weight (1,1,1); otherwise it is the negated [wo] tagged
    specular transmission with weight [expf(attenuation * rcp(cosThetaT))].
    For any other [wo] (at or below the horizon, or a cosine that is a NaN)
    the same holds with the cosine 0 in place of [dot(wo, N)]: [F] and
    [cosThetaT] are those of grazing incidence and the reflection branch
    returns [reflect(wo, N, 0)], where the mirror direction of [wo] is
    [reflect(wo, N, dot(wo, N))]. *)
Theorem thin_dielectric_sample_branches (self : ThinDielectric) (wo : vec3f)
    (s : vec2f) (u : float) :
  let N := vz (td_frame self) in
  let r := ThinDielectric_sample self wo s u in
  let branches (cosThetaO : float) : Prop :=
    let F := fst (fresnelDielectricEx cosThetaO (eta self)) in
    let cosThetaT := snd (fresnelDielectricEx cosThetaO (eta self)) in
    ((u <=? F)%f32 = true ->
     r = SampleRes.mk (make_vec3f F32.one) (reflect wo N cosThetaO) F32.inf
           BSDF_SPECULAR_REFLECTION)
    /\ ((u <=? F)%f32 = false ->
        r = SampleRes.mk (expf (vscale (attenuation self) (rcp cosThetaT)))
              (neg wo) F32.inf BSDF_SPECULAR_TRANSMISSION) in
  SampleRes.pdf r = F32.inf
  /\ ((F32.zero <? dot wo N)%f32 = true -> branches (dot wo N))
  /\ ((F32.zero <? dot wo N)%f32 = false -> branches F32.zero).
Proof.
  cbv zeta. rewrite ThinDielectric_sample_eq. cbv zeta.
  split; [destruct (u <=? _)%f32; reflexivity|].
  unfold F32.max.
  split; intros Hd; rewrite Hd;
    (destruct (u <=? _)%f32; split; intros; congruence).
Qed.

(** C10, as amended.  [ThinDielectric_sample] rejects no [wo].  Its
    reflection branch returns weight (1,1,1), which is never void; its
    transmission branch returns [expf(attenuation * rcp(cosThetaT))], and
    when no channel of that weight is a NaN the sample is void exactly when
    no channel is positive: one positive channel is enough for a sample that
    is not void, and the sample is void when the exponential is zero (or
    negative) in the three channels. *)
Theorem thin_dielectric_sample_not_void (self : ThinDielectric) (wo : vec3f)
    (s : vec2f) (u : float) :
  let N := vz (td_frame self) in
  let cosThetaO := F32.max (dot wo N) F32.zero in
  let F := fst (fresnelDielectricEx cosThetaO (eta self)) in
  let cosThetaT := snd (fresnelDielectricEx cosThetaO (eta self)) in
  let a := vscale (attenuation self) (rcp cosThetaT) in
  let r := ThinDielectric_sample self wo s u in
  ((u <=? F)%f32 = true ->
     SampleRes.weight r = make_vec3f F32.one /\ is_void r = false)
  /\ ((u <=? F)%f32 = false ->
      SampleRes.weight r = expf a
      /\ (F32.is_nan (exp (Vec3f.x a)) = false ->
          F32.is_nan (exp (Vec3f.y a)) = false ->
          F32.is_nan (exp (Vec3f.z a)) = false ->
          is_void r
          = negb ((F32.zero <? exp (Vec3f.x a))%f32
                  || (F32.zero <? exp (Vec3f.y a))%f32
                  || (F32.zero <? exp (Vec3f.z a))%f32))).
Proof.
  cbv zeta. rewrite ThinDielectric_sample_eq.
  split; intros Hu; rewrite Hu.
  - split; reflexivity.
  - split; [reflexivity|]. intros Hx Hy Hz.
    unfold is_void. cbn [SampleRes.weight].
    rewrite reduce_max_leb_zero by assumption.
    cbn [expf Vec3f.x Vec3f.y Vec3f.z].
    rewrite !negb_orb, !ltb_zero_negb_leb by assumption. reflexivity.
Qed.

End ThinDielectricFacts.

(** Witness of C4: the lossless slab at normal incidence, transmitting for
    [u = 0.5] and reflecting for [u = 0]; the same slab seen along the
    negated normal, where the cosine is clamped; the slab that lets no light
    through, transmitting the weight 0. *)
Lemma thin_dielectric_sample_branches_witness :
  (@ThinDielectric_sample Ref.lib Ref.glass Ref.up Ref.uv F32.half
   = SampleRes.mk Ref.white (neg Ref.up) F32.inf BSDF_SPECULAR_TRANSMISSION
   /\ @ThinDielectric_sample Ref.lib Ref.glass Ref.up Ref.uv F32.zero
      = SampleRes.mk Ref.white Ref.up F32.inf BSDF_SPECULAR_REFLECTION)
  /\ @ThinDielectric_sample Ref.lib Ref.glass Ref.down Ref.uv F32.half
     = SampleRes.mk Ref.white (Ref.reflect Ref.down Ref.up F32.zero) F32.inf
         BSDF_SPECULAR_REFLECTION
  /\ @ThinDielectric_sample Ref.lib Ref.opaque_glass Ref.up Ref.uv F32.half
     = SampleRes.mk (make_vec3f F32.zero) (neg Ref.up) F32.inf
         BSDF_SPECULAR_TRANSMISSION.
Proof.
  split; [split|split].
  - pose proof (@thin_dielectric_sample_branches Ref.lib Ref.glass Ref.up
                  Ref.uv F32.half) as H.
    cbv zeta in H. destruct H as (_ & H & _).
    premise H. destruct H as [_ H]. premise H.
    rewrite H. vm_compute. reflexivity.
  - pose proof (@thin_dielectric_sample_branches Ref.lib Ref.glass Ref.up
                  Ref.uv F32.zero) as H.
    cbv zeta in H. destruct H as (_ & H & _).
    premise H. destruct H as [H _]. premise H.
    rewrite H. vm_compute. reflexivity.
  - pose proof (@thin_dielectric_sample_branches Ref.lib Ref.glass Ref.down
                  Ref.uv F32.half) as H.
    cbv zeta in H. destruct H as (_ & _ & H).
    premise H. destruct H as [H _]. premise H.
    rewrite H. vm_compute. reflexivity.
  - pose proof (@thin_dielectric_sample_branches Ref.lib Ref.opaque_glass
                  Ref.up Ref.uv F32.half) as H.
    cbv zeta in H. destruct H as (_ & H & _).
    premise H. destruct H as [_ H]. premise H.
    rewrite H. vm_compute. reflexivity.
Defined.

(** Counterexample to C4: the lossless slab of index 1.5 seen along the
    negated normal, [dot(wo, N) = -1].  With [u = 0.5] the reflection branch
    is taken, the reflectance at the clamped cosine 0 being 1, and the
    direction returned is [reflect(wo, N, 0)], the normal itself; the
    mirror direction of [wo] about the normal is [wo]. *)
Lemma thin_dielectric_sample_branches_counterexample :
  let N := vz (td_frame Ref.glass) in
  let r := @ThinDielectric_sample Ref.lib Ref.glass Ref.down Ref.uv F32.half in
  (Ref.dot Ref.down N <=? F32.zero)%f32 = true
  /\ SampleRes.type r = BSDF_SPECULAR_REFLECTION
  /\ fst (Ref.fresnelDielectricEx F32.zero (eta Ref.glass)) = F32.one
  /\ SampleRes.wi r = Ref.up
  /\ Ref.reflect Ref.down N (Ref.dot Ref.down N)
     = Vec3f.mk (S754_zero true) (S754_zero true) Ref.minus_one
  /\ SampleRes.wi r <> Ref.reflect Ref.down N (Ref.dot Ref.down N).
Proof. vm_compute. repeat split. discriminate. Qed.

(** Witness of C10: the lossless slab, reflecting when seen from below its
    surface and transmitting at normal incidence, and the slab that lets
    light through in its first channel only: weight (1,0,0), not void. *)
Lemma thin_dielectric_sample_not_void_witness :
  ((Ref.dot Ref.down Ref.up <=? F32.zero)%f32 = true
   /\ is_void (@ThinDielectric_sample Ref.lib Ref.glass Ref.down Ref.uv F32.half)
      = false)
  /\ is_void (@ThinDielectric_sample Ref.lib Ref.glass Ref.up Ref.uv F32.half)
     = false
  /\ (SampleRes.weight
        (@ThinDielectric_sample Ref.lib Ref.red_glass Ref.up Ref.uv F32.half)
      = Vec3f.mk F32.one F32.zero F32.zero
      /\ is_void (@ThinDielectric_sample Ref.lib Ref.red_glass Ref.up Ref.uv
                    F32.half) = false).
Proof.
  split; [split; [vm_compute; reflexivity|]|split; [|split]].
  - pose proof (@thin_dielectric_sample_not_void Ref.lib Ref.glass Ref.down
                  Ref.uv F32.half) as H.
    cbv zeta in H. destruct H as (Hr & _).
    apply Hr. vm_compute. reflexivity.
  - pose proof (@thin_dielectric_sample_not_void Ref.lib Ref.glass Ref.up
                  Ref.uv F32.half) as H.
    cbv zeta in H. destruct H as (_ & Ht).
    premise Ht. destruct Ht as [_ Ht]. premise Ht. premise Ht. premise Ht.
    rewrite Ht. vm_compute. reflexivity.
  - pose proof (@thin_dielectric_sample_not_void Ref.lib Ref.red_glass Ref.up
                  Ref.uv F32.half) as H.
    cbv zeta in H. destruct H as (_ & Ht).
    premise Ht. destruct Ht as [Hw _].
    rewrite Hw. vm_compute. reflexivity.
  - pose proof (@thin_dielectric_sample_not_void Ref.lib Ref.red_glass Ref.up
                  Ref.uv F32.half) as H.
    cbv zeta in H. destruct H as (_ & Ht).
    premise Ht. destruct Ht as [_ Ht]. premise Ht. premise Ht. premise Ht.
    rewrite Ht. vm_compute. reflexivity.
Defined.

(** Counterexample to C10: a slab whose attenuation coefficient is minus
    infinity (the logarithm of a black attenuation colour); at normal
    incidence with [u = 0.5 > F] the transmitted weight is [exp(-inf) = 0]
    in every channel, a void sample. *)
Lemma thin_dielectric_sample_void_counterexample :
  (F32.half <=? fst (Ref.fresnelDielectricEx F32.one Ref.one_and_half))%f32
    = false
  /\ SampleRes.weight
       (@ThinDielectric_sample Ref.lib Ref.opaque_glass Ref.up Ref.uv F32.half)
     = make_vec3f F32.zero
  /\ is_void (@ThinDielectric_sample Ref.lib Ref.opaque_glass Ref.up Ref.uv
                F32.half) = true.
Proof. vm_compute. repeat split. Qed.


(** * The microfacet sheen layer *)

Section SheenEquations.

Context {L : Library}.

Variable self : MicrofacetSheenLayer.
Variables wo : vec3f.

Let cosThetaO := dot wo (getN self).
Let Ro := coatPickProb self wo.
Let sPP := substratePickProb self wo.

Lemma eval_below wi :
  (cosThetaO <=? F32.zero)%f32 = true ->
  MicrofacetSheenLayer_eval self wo wi = make_BSDF_EvalRes_zero.
Proof.
  unfold MicrofacetSheenLayer_eval. fold cosThetaO. intros ->. reflexivity.
Qed.

Lemma eval_reflect wi :
  (cosThetaO <=? F32.zero)%f32 = false ->
  (F32.zero <? dot wi (getN self))%f32 = true ->
  MicrofacetSheenLayer_eval self wo wi =
    EvalRes.mk
      (vadd (EvalRes.value (coat self wo wi))
            (vscale (EvalRes.value (bsdf_eval (substrate self) wo wi))
                    (transmission self wo wi)))
      (Ro * EvalRes.pdf (coat self wo wi)
       + sPP * EvalRes.pdf (bsdf_eval (substrate self) wo wi))%f32.
Proof.
  unfold MicrofacetSheenLayer_eval. fold cosThetaO. intros -> ->. reflexivity.
Qed.

Lemma eval_transmit wi :
  (cosThetaO <=? F32.zero)%f32 = false ->
  (F32.zero <? dot wi (getN self))%f32 = false ->
  MicrofacetSheenLayer_eval self wo wi =
    EvalRes.mk
      (vscale (EvalRes.value (bsdf_eval (substrate self) wo wi))
              (transmission self wo wi))
      (EvalRes.pdf (bsdf_eval (substrate self) wo wi) * sPP)%f32.
Proof.
  unfold MicrofacetSheenLayer_eval. fold cosThetaO. intros -> ->. reflexivity.
Qed.

Lemma sample_below res0 s ss :
  (cosThetaO <=? F32.zero)%f32 = true ->
  MicrofacetSheenLayer_sample res0 self wo s ss = make_BSDF_SampleRes_zero.
Proof.
  unfold MicrofacetSheenLayer_sample. fold cosThetaO. intros ->. reflexivity.
Qed.

Lemma sample_coat res0 s ss :
  (cosThetaO <=? F32.zero)%f32 = false ->
  (ss <? Ro)%f32 = true ->
  let d := linear3f_mul (sheen_frame self) (uniformSampleHemisphere s) in
  MicrofacetSheenLayer_sample res0 self wo s ss =
    sample_tail self wo cosThetaO Ro
      (SampleRes.mk (SampleRes.weight res0) d (SampleRes.pdf res0)
         BSDF_DIFFUSE_REFLECTION)
      (bsdf_eval (substrate self) wo d).
Proof.
  unfold MicrofacetSheenLayer_sample. fold cosThetaO. intros ->.
  unfold Ro, coatPickProb. fold cosThetaO. intros ->. reflexivity.
Qed.

Lemma sample_substrate res0 s ss :
  (cosThetaO <=? F32.zero)%f32 = false ->
  (ss <? Ro)%f32 = false ->
  let rs := bsdf_sample (substrate self) wo s (reallocate self wo ss) in
  MicrofacetSheenLayer_sample res0 self wo s ss =
    if is_void rs then rs
    else sample_tail self wo cosThetaO Ro rs (reconstruct rs).
Proof.
  unfold MicrofacetSheenLayer_sample. fold cosThetaO. intros ->.
  unfold Ro, coatPickProb. fold cosThetaO. intros ->. reflexivity.
Qed.

Lemma tail_specular res sub0 :
  is_specular (SampleRes.type res) = true ->
  sample_tail self wo cosThetaO Ro res sub0 =
    SampleRes.mk
      (vscale (vscale (EvalRes.value sub0) (transmission self wo (SampleRes.wi res)))
              (rcp sPP))
      (SampleRes.wi res) (SampleRes.pdf res) (SampleRes.type res).
Proof. unfold sample_tail. intros ->. reflexivity. Qed.

Lemma tail_transmit res sub0 :
  is_specular (SampleRes.type res) = false ->
  (dot (SampleRes.wi res) (getN self) <=? F32.zero)%f32 = true ->
  sample_tail self wo cosThetaO Ro res sub0 =
    SampleRes.mk
      (vscale (vscale (EvalRes.value sub0) (transmission self wo (SampleRes.wi res)))
              (rcp (sPP * EvalRes.pdf sub0)%f32))
      (SampleRes.wi res) (sPP * EvalRes.pdf sub0)%f32 (SampleRes.type res).
Proof. unfold sample_tail. intros -> ->. reflexivity. Qed.

Lemma tail_reflect res sub0 :
  is_specular (SampleRes.type res) = false ->
  (dot (SampleRes.wi res) (getN self) <=? F32.zero)%f32 = false ->
  let c := coat self wo (SampleRes.wi res) in
  let p := (Ro * EvalRes.pdf c + sPP * EvalRes.pdf sub0)%f32 in
  sample_tail self wo cosThetaO Ro res sub0 =
    SampleRes.mk
      (vscale (vadd (EvalRes.value c)
                 (vscale (EvalRes.value sub0)
                    (transmission self wo (SampleRes.wi res))))
              (rcp p))
      (SampleRes.wi res) p (SampleRes.type res).
Proof. unfold sample_tail. intros -> ->. reflexivity. Qed.

Lemma tail_type res sub0 :
  SampleRes.type (sample_tail self wo cosThetaO Ro res sub0) = SampleRes.type res.
Proof.
  unfold sample_tail.
  destruct (is_specular (SampleRes.type res)); [reflexivity|].
  destruct (_ <=? F32.zero)%f32; reflexivity.
Qed.

Lemma tail_wi res sub0 :
  SampleRes.wi (sample_tail self wo cosThetaO Ro res sub0) = SampleRes.wi res.
Proof.
  unfold sample_tail.
  destruct (is_specular (SampleRes.type res)); [reflexivity|].
  destruct (_ <=? F32.zero)%f32; reflexivity.
Qed.

(** The tail of [sample], fed with the substrate's evaluation at the
    direction it returns, agrees with [eval] at that direction. *)
Lemma tail_consistent res :
  (cosThetaO <=? F32.zero)%f32 = false ->
  is_specular (SampleRes.type res) = false ->
  F32.is_nan (dot (SampleRes.wi res) (getN self)) = false ->
  let r := sample_tail self wo cosThetaO Ro res
             (bsdf_eval (substrate self) wo (SampleRes.wi res)) in
  let e := MicrofacetSheenLayer_eval self wo (SampleRes.wi res) in
  EvalRes.pdf e = SampleRes.pdf r
  /\ vscale (EvalRes.value e) (rcp (EvalRes.pdf e)) = SampleRes.weight r.
Proof.
  intros Ho Hs Hn. cbv zeta.
  destruct (dot (SampleRes.wi res) (getN self) <=? F32.zero)%f32 eqn:Hi.
  - rewrite tail_transmit by assumption.
    rewrite eval_transmit by (auto using leb_zero_not_ltb).
    simpl. rewrite (mul_comm sPP). split; reflexivity.
  - rewrite tail_reflect by assumption.
    rewrite eval_reflect by (auto using not_leb_zero_ltb).
    simpl. split; reflexivity.
Qed.

(** The same for the density alone, when the tail is fed with an evaluation
    that has the density the substrate's evaluation reports. *)
Lemma tail_pdf_consistent res sub0 :
  (cosThetaO <=? F32.zero)%f32 = false ->
  is_specular (SampleRes.type res) = false ->
  F32.is_nan (dot (SampleRes.wi res) (getN self)) = false ->
  EvalRes.pdf (bsdf_eval (substrate self) wo (SampleRes.wi res))
    = EvalRes.pdf sub0 ->
  EvalRes.pdf (MicrofacetSheenLayer_eval self wo (SampleRes.wi res))
    = SampleRes.pdf (sample_tail self wo cosThetaO Ro res sub0).
Proof.
  intros Ho Hs Hn Hp.
  destruct (dot (SampleRes.wi res) (getN self) <=? F32.zero)%f32 eqn:Hi.
  - rewrite tail_transmit by assumption.
    rewrite eval_transmit by (auto using leb_zero_not_ltb).
    simpl. rewrite Hp. apply mul_comm.
  - rewrite tail_reflect by assumption.
    rewrite eval_reflect by (auto using not_leb_zero_ltb).
    simpl. rewrite Hp. reflexivity.
Qed.

End SheenEquations.


Section SheenClaims.

Context {L : Library}.

(** C1, as amended.  When [dot(wo, N) <= 0] the sheen layer's [eval] returns
    the zero sentinel and its [sample] the void sentinel; the thin
    dielectric's [eval] returns the zero sentinel for every pair of
    directions; the thin dielectric's [sample] does not reject: it clamps
    the cosine to 0 and samples the reflection or the transmission there. *)
Theorem horizon_rejection (self : MicrofacetSheenLayer) (td : ThinDielectric)
    (res0 : BSDF_SampleRes) (wo wi : vec3f) (s : vec2f) (u : float) :
  ((dot wo (getN self) <=? F32.zero)%f32 = true ->
     MicrofacetSheenLayer_eval self wo wi = make_BSDF_EvalRes_zero
     /\ MicrofacetSheenLayer_sample res0 self wo s u = make_BSDF_SampleRes_zero)
  /\ ThinDielectric_eval td wo wi = make_BSDF_EvalRes_zero
  /\ ((dot wo (vz (td_frame td)) <=? F32.zero)%f32 = true ->
      let N := vz (td_frame td) in
      let F := fst (fresnelDielectricEx F32.zero (eta td)) in
      let cosThetaT := snd (fresnelDielectricEx F32.zero (eta td)) in
      ThinDielectric_sample td wo s u =
        if (u <=? F)%f32 then
          SampleRes.mk (make_vec3f F32.one) (reflect wo N F32.zero) F32.inf
            BSDF_SPECULAR_REFLECTION
        else
          SampleRes.mk (expf (vscale (attenuation td) (rcp cosThetaT)))
            (neg wo) F32.inf BSDF_SPECULAR_TRANSMISSION).
Proof.
  split; [|split].
  - intros H. split; [apply eval_below | apply sample_below]; exact H.
  - reflexivity.
  - intros H. cbv zeta. rewrite ThinDielectric_sample_eq.
    rewrite (max_clamp _ H). reflexivity.
Qed.

(** C3. With [wo] and [wi] above the horizon, [eval] returns the coat value
    plus the substrate's value attenuated by [T = min(1 - Ro, 1 - Ri)], and
    the density [Ro * coatPdf + (1 - Ro) * substratePdf], where [Ro] and [Ri]
    are the table lookups at [cosThetaO] and [|cosThetaI|] scaled by the
    blend weight and [coatPdf] is the uniform hemisphere density. *)
Theorem eval_above_horizon (self : MicrofacetSheenLayer) (wo wi : vec3f) :
  (F32.zero <? dot wo (getN self))%f32 = true ->
  (F32.zero <? dot wi (getN self))%f32 = true ->
  let sub := bsdf_eval (substrate self) wo wi in
  let Ro := (MicrofacetSheenAlbedoTable_eval (dot wo (getN self)) (roughness self)
             * weight self)%f32 in
  let Ri := (MicrofacetSheenAlbedoTable_eval (F32.abs (dot wi (getN self)))
               (roughness self) * weight self)%f32 in
  let T := F32.min (F32.one - Ro)%f32 (F32.one - Ri)%f32 in
  let coatPickProb := Ro in
  let substratePickProb := (F32.one - Ro)%f32 in
  let coatPdf := uniformSampleHemispherePDF in
  let e := MicrofacetSheenLayer_eval self wo wi in
  EvalRes.value e
    = vadd (EvalRes.value (coat self wo wi)) (vscale (EvalRes.value sub) T)
  /\ EvalRes.pdf e
     = (coatPickProb * coatPdf + substratePickProb * EvalRes.pdf sub)%f32.
Proof.
  intros Ho Hi. cbv zeta.
  rewrite eval_reflect by (auto using ltb_zero_not_leb).
  split; reflexivity.
Qed.


(** C2, as amended.  Whenever [sample] returns a continuous direction [wi]
    with a positive weight and [dot(wi, N)] is not a NaN, the density and
    the weight returned are those of [eval(wo, wi)] computed with the
    substrate evaluation that [sample] used: [eval]'s density, and [eval]'s
    value times the reciprocal of that density.  When the coat was picked
    that evaluation is the substrate's own.  When the substrate was picked
    it is the pair [(weight * pdf, pdf)] that [sample] reconstructs from the
    substrate's sample; so [eval(wo, wi)] itself returns the density that
    [sample] returned when the substrate's evaluation reports the density
    its sample reported, and its value times the reciprocal of that density
    is the weight returned when moreover the substrate's evaluation has the
    value [weight * pdf]. *)
Theorem sample_eval_consistent (self : MicrofacetSheenLayer)
    (res0 : BSDF_SampleRes) (wo : vec3f) (s : vec2f) (u : float) :
  let r := MicrofacetSheenLayer_sample res0 self wo s u in
  let rs := bsdf_sample (substrate self) wo s (reallocate self wo u) in
  let sub := bsdf_eval (substrate self) wo (SampleRes.wi r) in
  let e := MicrofacetSheenLayer_eval self wo (SampleRes.wi r) in
  let e_s := MicrofacetSheenLayer_eval
               (with_substrate_eval self (reconstruct rs)) wo (SampleRes.wi r) in
  is_specular (SampleRes.type r) = false ->
  (F32.zero <? reduce_max (SampleRes.weight r))%f32 = true ->
  F32.is_nan (dot (SampleRes.wi r) (getN self)) = false ->
  ((u <? coatPickProb self wo)%f32 = true ->
   EvalRes.pdf e = SampleRes.pdf r
   /\ vscale (EvalRes.value e) (rcp (EvalRes.pdf e)) = SampleRes.weight r)
  /\ ((u <? coatPickProb self wo)%f32 = false ->
      (EvalRes.pdf e_s = SampleRes.pdf r
       /\ vscale (EvalRes.value e_s) (rcp (EvalRes.pdf e_s))
          = SampleRes.weight r)
      /\ (EvalRes.pdf sub = SampleRes.pdf rs ->
          EvalRes.pdf e = SampleRes.pdf r
          /\ (EvalRes.value sub
              = vscale (SampleRes.weight rs) (SampleRes.pdf rs) ->
              vscale (EvalRes.value e) (rcp (EvalRes.pdf e))
              = SampleRes.weight r))).
Proof.
  cbv zeta.
  destruct (dot wo (getN self) <=? F32.zero)%f32 eqn:Ho.
  { rewrite sample_below by assumption. intros _ H. discriminate H. }
  destruct (u <? coatPickProb self wo)%f32 eqn:Hu.
  - rewrite sample_coat by assumption. cbv zeta.
    rewrite tail_type, tail_wi. simpl SampleRes.type. simpl SampleRes.wi.
    intros Hs _ Hn. split; [intros _ | intros H; discriminate H].
    apply (tail_consistent self wo
             (SampleRes.mk (SampleRes.weight res0)
                (linear3f_mul (sheen_frame self) (uniformSampleHemisphere s))
                (SampleRes.pdf res0) BSDF_DIFFUSE_REFLECTION)); assumption.
  - rewrite sample_substrate by assumption. cbv zeta.
    destruct (is_void _) eqn:Hv.
    + intros _ Hw. unfold is_void in Hv.
      rewrite (leb_zero_not_ltb _ Hv) in Hw. discriminate Hw.
    + rewrite tail_type, tail_wi. intros Hs _ Hn.
      split; [intros H; discriminate H | intros _].
      split.
      * exact (tail_consistent
                 (with_substrate_eval self
                    (reconstruct
                       (bsdf_sample (substrate self) wo s
                          (reallocate self wo u))))
                 wo
                 (bsdf_sample (substrate self) wo s (reallocate self wo u))
                 Ho Hs Hn).
      * intros Hp. split.
        -- apply tail_pdf_consistent; assumption.
        -- intros Hval.
           assert (E : reconstruct
                         (bsdf_sample (substrate self) wo s
                            (reallocate self wo u))
                       = bsdf_eval (substrate self) wo
                           (SampleRes.wi
                              (bsdf_sample (substrate self) wo s
                                 (reallocate self wo u)))).
           { unfold reconstruct. rewrite Hs. rewrite <- Hval, <- Hp.
             destruct (bsdf_eval _ _ _). reflexivity. }
           rewrite E. apply tail_consistent; assumption.
Qed.

End SheenClaims.


Section SheenSampling.

Context {L : Library}.

(** The instrumented [sample] computes the result of [sample]. *)
Lemma sample_tail_tr_fst (self : MicrofacetSheenLayer) (wo : vec3f)
    (cosThetaO Ro : float) (res : BSDF_SampleRes) (sub0 : BSDF_EvalRes) :
  fst (sample_tail_tr self wo cosThetaO Ro res sub0)
    = sample_tail self wo cosThetaO Ro res sub0.
Proof.
  unfold sample_tail_tr, sample_tail, coat_lobe_tr, coat_lobe, bind, call, ret.
  cbv beta iota zeta.
  destruct (is_specular (SampleRes.type res)); [reflexivity|].
  destruct (_ <=? F32.zero)%f32; reflexivity.
Qed.

Lemma sample_tr_fst (self : MicrofacetSheenLayer) (res0 : BSDF_SampleRes)
    (wo : vec3f) (s : vec2f) (u : float) :
  fst (MicrofacetSheenLayer_sample_tr res0 self wo s u)
    = MicrofacetSheenLayer_sample res0 self wo s u.
Proof.
  unfold MicrofacetSheenLayer_sample_tr, MicrofacetSheenLayer_sample,
    bind, call, ret.
  cbv beta iota zeta.
  destruct (_ <=? F32.zero)%f32; [reflexivity|].
  destruct (u <? _)%f32.
  - rewrite <- sample_tail_tr_fst.
    destruct (sample_tail_tr _ _ _ _ _ _); reflexivity.
  - destruct (_ <=? F32.zero)%f32; [reflexivity|].
    rewrite <- sample_tail_tr_fst.
    destruct (sample_tail_tr _ _ _ _ _ _); reflexivity.
Qed.

(** C8.  When the substrate branch is taken and the substrate's sample is
    void, [sample] returns that sample at once: after the substrate has been
    sampled nothing is evaluated but the maximum of its weight, neither the
    table at [wi], nor a coat term, nor a reciprocal.  The calls of the
    whole path are the cosine of [wo], the table at [cosThetaO], the
    reciprocal that remaps [u] for the substrate, the substrate's [sample]
    and that maximum. *)
Theorem void_propagation (self : MicrofacetSheenLayer) (res0 : BSDF_SampleRes)
    (wo : vec3f) (s : vec2f) (u : float) :
  let rs := bsdf_sample (substrate self) wo s (reallocate self wo u) in
  let t := snd (MicrofacetSheenLayer_sample_tr res0 self wo s u) in
  (dot wo (getN self) <=? F32.zero)%f32 = false ->
  (u <? coatPickProb self wo)%f32 = false ->
  is_void rs = true ->
  fst (MicrofacetSheenLayer_sample_tr res0 self wo s u)
    = MicrofacetSheenLayer_sample res0 self wo s u
  /\ MicrofacetSheenLayer_sample res0 self wo s u = rs
  /\ t = [ CallDot wo (getN self);
           CallAlbedoTable (dot wo (getN self)) (roughness self);
           CallRcp (substratePickProb self wo);
           CallSubstrateSample wo s (reallocate self wo u);
           CallReduceMax (SampleRes.weight rs) ]
  /\ after_substrate_sample t = [ CallReduceMax (SampleRes.weight rs) ]
  /\ filter is_table t
     = [ CallAlbedoTable (dot wo (getN self)) (roughness self) ]
  /\ filter is_coat_term t = []
  /\ filter is_rcp (after_substrate_sample t) = [].
Proof.
  cbv zeta. intros Ho Hu Hv.
  assert (Ht : snd (MicrofacetSheenLayer_sample_tr res0 self wo s u)
               = [ CallDot wo (getN self);
                   CallAlbedoTable (dot wo (getN self)) (roughness self);
                   CallRcp (substratePickProb self wo);
                   CallSubstrateSample wo s (reallocate self wo u);
                   CallReduceMax
                     (SampleRes.weight
                        (bsdf_sample (substrate self) wo s
                           (reallocate self wo u))) ]).
  { unfold MicrofacetSheenLayer_sample_tr, bind, call, ret.
    cbv beta iota zeta.
    rewrite Ho. unfold coatPickProb in Hu. rewrite Hu. cbv beta iota zeta.
    unfold is_void, reallocate, substratePickProb, coatPickProb in Hv.
    rewrite Hv. reflexivity. }
  split; [apply sample_tr_fst|]. split.
  - rewrite sample_substrate by assumption. cbv zeta. rewrite Hv. reflexivity.
  - rewrite Ht. repeat split.
Qed.

(** C5, as amended.  No reciprocal of [sample] is guarded.  In the substrate
    branch the substrate is sampled at [(u - Ro) * rcp(substratePickProb)];
    a specular sample keeps the density the substrate reported and gets the
    weight [value * T * rcp(substratePickProb)]; a continuous sample gets
    the combined density and the weight [numerator * rcp(density)].  The
    coat branch ends in the two continuous exits.  The results are finite
    only where these products are. *)
Theorem sample_reciprocals (self : MicrofacetSheenLayer) (res0 : BSDF_SampleRes)
    (wo : vec3f) (s : vec2f) (u : float) :
  let Ro := coatPickProb self wo in
  let sPP := substratePickProb self wo in
  let r := MicrofacetSheenLayer_sample res0 self wo s u in
  (dot wo (getN self) <=? F32.zero)%f32 = false ->
  (let rs := bsdf_sample (substrate self) wo s
               ((u - Ro) * rcp sPP)%f32 in
   let v := vscale (EvalRes.value (reconstruct rs))
              (transmission self wo (SampleRes.wi rs)) in
   let c := coat self wo (SampleRes.wi rs) in
   let cosThetaI := dot (SampleRes.wi rs) (getN self) in
   (u <? Ro)%f32 = false -> is_void rs = false ->
   (is_specular (SampleRes.type rs) = true ->
      SampleRes.pdf r = SampleRes.pdf rs
      /\ SampleRes.weight r = vscale v (rcp sPP))
   /\ (is_specular (SampleRes.type rs) = false ->
       (cosThetaI <=? F32.zero)%f32 = true ->
       SampleRes.pdf r = (sPP * SampleRes.pdf rs)%f32
       /\ SampleRes.weight r = vscale v (rcp (sPP * SampleRes.pdf rs)%f32))
   /\ (is_specular (SampleRes.type rs) = false ->
       (cosThetaI <=? F32.zero)%f32 = false ->
       SampleRes.pdf r = (Ro * EvalRes.pdf c + sPP * SampleRes.pdf rs)%f32
       /\ SampleRes.weight r
          = vscale (vadd (EvalRes.value c) v)
              (rcp (Ro * EvalRes.pdf c + sPP * SampleRes.pdf rs)%f32)))
  /\ (let d := linear3f_mul (sheen_frame self) (uniformSampleHemisphere s) in
      let sub := bsdf_eval (substrate self) wo d in
      let v := vscale (EvalRes.value sub) (transmission self wo d) in
      let c := coat self wo d in
      let cosThetaI := dot d (getN self) in
      (u <? Ro)%f32 = true ->
      ((cosThetaI <=? F32.zero)%f32 = true ->
         SampleRes.pdf r = (sPP * EvalRes.pdf sub)%f32
         /\ SampleRes.weight r = vscale v (rcp (sPP * EvalRes.pdf sub)%f32))
      /\ ((cosThetaI <=? F32.zero)%f32 = false ->
          SampleRes.pdf r = (Ro * EvalRes.pdf c + sPP * EvalRes.pdf sub)%f32
          /\ SampleRes.weight r
             = vscale (vadd (EvalRes.value c) v)
                 (rcp (Ro * EvalRes.pdf c + sPP * EvalRes.pdf sub)%f32))).
Proof.
  cbv zeta. intros Ho. split.
  - intros Hu Hv.
    rewrite sample_substrate by assumption. cbv zeta.
    change ((u - coatPickProb self wo) * rcp (substratePickProb self wo))%f32
      with (reallocate self wo u) in *.
    rewrite Hv. repeat split.
    + rewrite tail_specular by assumption. reflexivity.
    + rewrite tail_specular by assumption. reflexivity.
    + rewrite tail_transmit by assumption. reflexivity.
    + rewrite tail_transmit by assumption. reflexivity.
    + rewrite tail_reflect by assumption. reflexivity.
    + rewrite tail_reflect by assumption. reflexivity.
  - intros Hu. rewrite sample_coat by assumption. cbv zeta. repeat split.
    + rewrite tail_transmit by (try assumption; reflexivity). reflexivity.
    + rewrite tail_transmit by (try assumption; reflexivity). reflexivity.
    + rewrite tail_reflect by (try assumption; reflexivity). reflexivity.
    + rewrite tail_reflect by (try assumption; reflexivity). reflexivity.
Qed.

End SheenSampling.


Section SheenInvariant.

Context {L : Library}.

Lemma zero_min_nonneg z b :
  F32.is_zero z = true -> (z <? b)%f32 = false ->
  (F32.zero <=? b)%f32 = true -> F32.is_zero b = true.
Proof.
  destruct z as [sz|sz| |sz mz ez]; simpl; try congruence. intros _.
  destruct b as [sb|sb| |sb mb eb]; try destruct sb; cbv; congruence.
Qed.

Lemma add_comm a b : (a + b)%f32 = (b + a)%f32.
Proof.
  destruct a as [sa|sa| |sa ma ea], b as [sb|sb| |sb mb eb];
    try reflexivity; try (destruct sa, sb; reflexivity).
  unfold F32.add, SFadd.
  rewrite (Z.min_comm ea eb), Z.add_comm. reflexivity.
Qed.

Lemma nonneg_not_pos_zero a :
  (F32.zero <=? a)%f32 = true -> (F32.zero <? a)%f32 = false ->
  F32.is_zero a = true.
Proof. destruct a as [s|s| |s m e]; try destruct s; cbv; congruence. Qed.

(** A sum of two numbers that are not negative is zero only if both are. *)
Lemma add_nonneg_zero a b :
  F32.expo_ok a -> F32.expo_ok b ->
  (F32.zero <=? a)%f32 = true -> (F32.zero <=? b)%f32 = true ->
  (a + b ==? F32.zero)%f32 = true ->
  F32.is_zero a = true /\ F32.is_zero b = true.
Proof.
  intros Ea Eb Ha Hb Hz. split.
  - apply nonneg_not_pos_zero; [assumption|].
    destruct (F32.zero <? a)%f32 eqn:Pa; [|reflexivity].
    rewrite (ltb_zero_not_eqb _ (add_pos_nonneg a b Ea Eb Pa Hb)) in Hz.
    discriminate Hz.
  - apply nonneg_not_pos_zero; [assumption|].
    destruct (F32.zero <? b)%f32 eqn:Pb; [|reflexivity].
    rewrite add_comm in Hz.
    rewrite (ltb_zero_not_eqb _ (add_pos_nonneg b a Eb Ea Pb Ha)) in Hz.
    discriminate Hz.
Qed.

Lemma vadd_zeros u v :
  vzero u = true -> vzero v = true -> vzero (vadd u v) = true.
Proof.
  assert (H : forall a b, F32.is_zero a = true -> F32.is_zero b = true ->
                F32.is_zero (a + b)%f32 = true).
  { intros a b. destruct a as [sa|sa| |sa ma ea]; try discriminate.
    destruct b as [sb|sb| |sb mb eb]; try discriminate.
    destruct sa, sb; reflexivity. }
  destruct u as [a b c], v as [a' b' c']. unfold vzero, vadd. simpl.
  rewrite !eqb_zero_is_zero. intros Hu Hv.
  apply andb_true_iff in Hu. destruct Hu as [Hu Hc].
  apply andb_true_iff in Hu. destruct Hu as [Ha Hb].
  apply andb_true_iff in Hv. destruct Hv as [Hv Hc'].
  apply andb_true_iff in Hv. destruct Hv as [Ha' Hb'].
  rewrite !H by assumption. reflexivity.
Qed.

(** C6, as amended.  [pdf == 0] implies [value == 0] for the thin
    dielectric's [eval], and for the sheen layer's [eval] when the
    substrate's evaluation has the property and a finite value, [T] is
    finite, [1 - Ri] is not negative, the substrate's share of the density
    (the product of [substratePickProb] and the substrate's density) is zero
    only when a factor is, and, for [wi] above the horizon, the two shares
    of the density are not negative and the coat's value is zero whenever
    the coat's share [Ro * coatPdf] is. *)
Theorem eval_zero_density (self : MicrofacetSheenLayer) (td : ThinDielectric)
    (wo wi : vec3f) :
  let sub := bsdf_eval (substrate self) wo wi in
  let Ro := coatPickProb self wo in
  let sPP := substratePickProb self wo in
  let e := MicrofacetSheenLayer_eval self wo wi in
  let e' := ThinDielectric_eval td wo wi in
  ((EvalRes.pdf e' ==? F32.zero)%f32 = true -> vzero (EvalRes.value e') = true)
  /\ (((EvalRes.pdf sub ==? F32.zero)%f32 = true ->
       vzero (EvalRes.value sub) = true) ->
      vfinite (EvalRes.value sub) = true ->
      F32.is_finite (transmission self wo wi) = true ->
      (F32.zero <=? F32.one - albedo_in self wi)%f32 = true ->
      ((F32.zero <? dot wi (getN self))%f32 = true ->
       (F32.zero <=? Ro * uniformSampleHemispherePDF)%f32 = true
       /\ (F32.zero <=? sPP * EvalRes.pdf sub)%f32 = true
       /\ ((Ro * uniformSampleHemispherePDF ==? F32.zero)%f32 = true ->
           vzero (EvalRes.value (coat self wo wi)) = true)
       /\ ((sPP * EvalRes.pdf sub ==? F32.zero)%f32 = true ->
           (EvalRes.pdf sub ==? F32.zero)%f32 = true
           \/ (sPP ==? F32.zero)%f32 = true)) ->
      ((F32.zero <? dot wi (getN self))%f32 = false ->
       (EvalRes.pdf sub * sPP ==? F32.zero)%f32 = true ->
       (EvalRes.pdf sub ==? F32.zero)%f32 = true
       \/ (sPP ==? F32.zero)%f32 = true) ->
      (EvalRes.pdf e ==? F32.zero)%f32 = true ->
      vzero (EvalRes.value e) = true).
Proof.
  cbv zeta. split; [reflexivity|].
  intros Hsub Hfin HT HRi Hrefl Htrans.
  assert (Hscaled :
            (EvalRes.pdf (bsdf_eval (substrate self) wo wi) ==? F32.zero)%f32
              = true
            \/ (substratePickProb self wo ==? F32.zero)%f32 = true ->
            vzero (vscale (EvalRes.value (bsdf_eval (substrate self) wo wi))
                     (transmission self wo wi)) = true).
  { intros [Hp | Hp].
    - apply vscale_zero; auto.
    - apply vscale_by_zero; [assumption|].
      rewrite eqb_zero_is_zero in Hp.
      unfold transmission, F32.min. fold (substratePickProb self wo).
      destruct (substratePickProb self wo <? _)%f32 eqn:Hm; [assumption|].
      apply (zero_min_nonneg (substratePickProb self wo)); assumption. }
  destruct (dot wo (getN self) <=? F32.zero)%f32 eqn:Ho.
  { rewrite eval_below by assumption. reflexivity. }
  destruct (F32.zero <? dot wi (getN self))%f32 eqn:Hi.
  - rewrite eval_reflect by assumption.
    cbn [EvalRes.pdf EvalRes.value].
    destruct (Hrefl eq_refl) as (Hc & Hs & Hcoat & Hshare).
    intros Hz.
    destruct (add_nonneg_zero _ _ (mul_expo_ok _ _) (mul_expo_ok _ _) Hc Hs Hz)
      as [Zc Zs].
    rewrite <- eqb_zero_is_zero in Zc, Zs.
    apply vadd_zeros; [apply Hcoat, Zc | apply Hscaled, Hshare, Zs].
  - rewrite eval_transmit by assumption.
    cbn [EvalRes.pdf EvalRes.value]. intros Hz.
    apply Hscaled, (Htrans eq_refl Hz).
Qed.

End SheenInvariant.

(** Witness of C6: a sheen layer over a substrate that scatters nothing:
    of blend weight 0, evaluated on the near side, where density and value
    are those of the two lobes, all zero; and of half weight, evaluated
    towards the far side. *)
Lemma eval_zero_density_witness :
  let e := @MicrofacetSheenLayer_eval Ref.lib (Ref.layer Ref.black F32.zero)
             Ref.up Ref.up in
  let e' := @MicrofacetSheenLayer_eval Ref.lib (Ref.layer Ref.black F32.half)
              Ref.up Ref.down in
  ((F32.zero <? Ref.dot Ref.up Ref.up)%f32 = true
   /\ (EvalRes.pdf e ==? F32.zero)%f32 = true
   /\ vzero (EvalRes.value e) = true)
  /\ ((F32.zero <? Ref.dot Ref.down Ref.up)%f32 = false
      /\ (EvalRes.pdf e' ==? F32.zero)%f32 = true
      /\ vzero (EvalRes.value e') = true).
Proof.
  cbv zeta. split; (split; [vm_compute; reflexivity|]);
    (split; [vm_compute; reflexivity|]).
  - pose proof (@eval_zero_density Ref.lib (Ref.layer Ref.black F32.zero)
                  Ref.glass Ref.up Ref.up) as H.
    cbv zeta in H. destruct H as [_ H]. apply H.
    + intros _. vm_compute. reflexivity.
    + vm_compute. reflexivity.
    + vm_compute. reflexivity.
    + vm_compute. reflexivity.
    + intros _. split; [vm_compute; reflexivity|].
      split; [vm_compute; reflexivity|].
      split; [intros _; vm_compute; reflexivity|].
      intros _. left. vm_compute. reflexivity.
    + intros Hi. vm_compute in Hi. discriminate Hi.
    + vm_compute. reflexivity.
  - pose proof (@eval_zero_density Ref.lib (Ref.layer Ref.black F32.half)
                  Ref.glass Ref.up Ref.down) as H.
    cbv zeta in H. destruct H as [_ H]. apply H.
    + intros _. vm_compute. reflexivity.
    + vm_compute. reflexivity.
    + vm_compute. reflexivity.
    + vm_compute. reflexivity.
    + intros Hi. vm_compute in Hi. discriminate Hi.
    + intros _ _. left. vm_compute. reflexivity.
    + vm_compute. reflexivity.
Defined.

(** Counterexample to C6: a full-weight sheen layer over a substrate that
    scatters nothing, with an albedo table that is 0 (a value in [0,1]) at
    the query.  The substrate's evaluation has the property, the density is
    0 and the value is the coat value, 0.25 in every channel. *)
Lemma eval_zero_density_counterexample :
  let self := Ref.layer Ref.black F32.one in
  let sub := bsdf_eval (substrate self) Ref.up Ref.up in
  let e := @MicrofacetSheenLayer_eval Ref.lib_dark_table self Ref.up Ref.up in
  ((EvalRes.pdf sub ==? F32.zero)%f32 = true /\ vzero (EvalRes.value sub) = true)
  /\ @MicrofacetSheenAlbedoTable_eval Ref.lib_dark_table F32.one F32.half
     = F32.zero
  /\ (EvalRes.pdf e ==? F32.zero)%f32 = true
  /\ EvalRes.value e = make_vec3f Ref.quarter
  /\ vzero (EvalRes.value e) = false.
Proof. vm_compute. repeat split. Qed.


Section SheenPassThrough.

Context {L : Library}.

Lemma nonneg_finite_mul_zero a :
  F32.nonneg_finite a = true -> (a * F32.zero)%f32 = F32.zero.
Proof. destruct a as [s|s| |s m e]; try destruct s; cbv; congruence. Qed.

Lemma vadd_zero_l z v : vzero z = true -> vsame (vadd z v) v.
Proof.
  destruct z as [a b c], v as [a' b' c']. unfold vzero, vsame, vadd. simpl.
  rewrite !eqb_zero_is_zero. intros H.
  apply andb_true_iff in H. destruct H as [H Hc].
  apply andb_true_iff in H. destruct H as [Ha Hb].
  auto using add_zero_l.
Qed.

Variable self : MicrofacetSheenLayer.
Variable wo : vec3f.
Hypothesis weight_zero : weight self = F32.zero.
Hypothesis table_o :
  F32.nonneg_finite
    (MicrofacetSheenAlbedoTable_eval (dot wo (getN self)) (roughness self))
  = true.

Lemma passthrough_Ro : coatPickProb self wo = F32.zero.
Proof.
  unfold coatPickProb. rewrite weight_zero.
  apply nonneg_finite_mul_zero, table_o.
Qed.

Lemma passthrough_sPP : substratePickProb self wo = F32.one.
Proof. unfold substratePickProb. rewrite passthrough_Ro. reflexivity. Qed.

Lemma passthrough_T wi :
  F32.nonneg_finite
    (MicrofacetSheenAlbedoTable_eval (F32.abs (dot wi (getN self)))
       (roughness self)) = true ->
  transmission self wo wi = F32.one.
Proof.
  intros H. unfold transmission, albedo_in. rewrite passthrough_Ro, weight_zero.
  rewrite (nonneg_finite_mul_zero _ H). reflexivity.
Qed.

Lemma passthrough_coat wi :
  F32.is_finite (coat_term self wo wi) = true -> vfinite (R self) = true ->
  vzero (EvalRes.value (coat self wo wi)) = true.
Proof.
  intros Hk HR.
  change (EvalRes.value (coat self wo wi))
    with (vscale (R self) (coat_term self wo wi * weight self)%f32).
  rewrite weight_zero. apply vscale_by_zero; [assumption|].
  apply mul_zero_r; [assumption|reflexivity].
Qed.

Lemma passthrough_reallocate u :
  rcp F32.one = F32.one -> F32.valid u = true -> reallocate self wo u = u.
Proof.
  intros Hr Hu. unfold reallocate.
  rewrite passthrough_sPP, passthrough_Ro, Hr, sub_plus_zero_r.
  apply mul_one_r, Hu.
Qed.

End SheenPassThrough.


Section SheenPassThroughClaim.

Context {L : Library}.

(** C7, as amended.  With blend weight [0.f], [wo] above the horizon and
    finite, non-negative table values, [eval] returns the substrate's
    result: exactly when [wi] is not above the horizon, and up to the sign
    of a zero when it is and the coat terms are finite.  [sample], for a
    [u] that is not negative and [rcp(1) = 1], returns the substrate's
    direction and lobe type, and the substrate's very result when that is
    void or specular; for a continuous sample it returns the substrate's
    density and the weight [(weight * pdf) * rcp(pdf)], which a rounding
    can separate from the substrate's weight. *)
Theorem weight_zero_passthrough (self : MicrofacetSheenLayer)
    (res0 : BSDF_SampleRes) (wo wi : vec3f) (s : vec2f) (u : float) :
  let N := getN self in
  let table c := MicrofacetSheenAlbedoTable_eval c (roughness self) in
  let sub := bsdf_eval (substrate self) wo wi in
  let rs := bsdf_sample (substrate self) wo s u in
  let e := MicrofacetSheenLayer_eval self wo wi in
  let r := MicrofacetSheenLayer_sample res0 self wo s u in
  weight self = F32.zero ->
  (dot wo N <=? F32.zero)%f32 = false ->
  F32.nonneg_finite (table (dot wo N)) = true ->
  (F32.nonneg_finite (table (F32.abs (dot wi N))) = true ->
   vvalid (EvalRes.value sub) = true ->
   F32.valid (EvalRes.pdf sub) = true ->
   ((F32.zero <? dot wi N)%f32 = false -> e = sub)
   /\ ((F32.zero <? dot wi N)%f32 = true ->
       F32.is_finite (coat_term self wo wi) = true ->
       vfinite (R self) = true ->
       F32.is_finite uniformSampleHemispherePDF = true ->
       vsame (EvalRes.value e) (EvalRes.value sub)
       /\ F32.same (EvalRes.pdf e) (EvalRes.pdf sub)))
  /\ (F32.nonneg_finite (table (F32.abs (dot (SampleRes.wi rs) N))) = true ->
      (u <? F32.zero)%f32 = false ->
      F32.valid u = true ->
      rcp F32.one = F32.one ->
      vvalid (SampleRes.weight rs) = true ->
      SampleRes.wi r = SampleRes.wi rs
      /\ SampleRes.type r = SampleRes.type rs
      /\ (is_void rs = true -> r = rs)
      /\ (is_specular (SampleRes.type rs) = true -> r = rs)
      /\ (is_void rs = false ->
          is_specular (SampleRes.type rs) = false ->
          let q := vscale (SampleRes.weight rs) (SampleRes.pdf rs) in
          F32.valid (SampleRes.pdf rs) = true ->
          vvalid q = true ->
          ((dot (SampleRes.wi rs) N <=? F32.zero)%f32 = true ->
           SampleRes.pdf r = SampleRes.pdf rs
           /\ SampleRes.weight r = vscale q (rcp (SampleRes.pdf rs)))
          /\ ((dot (SampleRes.wi rs) N <=? F32.zero)%f32 = false ->
              F32.is_finite (coat_term self wo (SampleRes.wi rs)) = true ->
              vfinite (R self) = true ->
              F32.is_finite uniformSampleHemispherePDF = true ->
              F32.is_zero (SampleRes.pdf rs) = false ->
              SampleRes.pdf r = SampleRes.pdf rs
              /\ exists v : vec3f,
                   vsame v q
                   /\ SampleRes.weight r = vscale v (rcp (SampleRes.pdf rs))))).
Proof.
  cbv zeta. intros Hw Ho Hto.
  pose proof (passthrough_Ro self wo Hw Hto) as ERo.
  pose proof (passthrough_sPP self wo Hw Hto) as EsPP.
  split.
  - (* eval *)
    intros Hti Hv Hp. pose proof (passthrough_T self wo Hw Hto wi Hti) as ET.
    split.
    + intros Hi. rewrite eval_transmit by assumption.
      rewrite ET, EsPP, vscale_one, mul_one_r by assumption.
      destruct (bsdf_eval (substrate self) wo wi). reflexivity.
    + intros Hi Hk HR Hc. rewrite eval_reflect by assumption.
      rewrite ET, EsPP, ERo, vscale_one, mul_one_l by assumption.
      cbn [EvalRes.value EvalRes.pdf]. split.
      * apply vadd_zero_l. apply passthrough_coat; assumption.
      * apply add_zero_l. apply mul_zero_l; [reflexivity|exact Hc].
  - (* sample *)
    intros Hti Hu Hvu Hr Hvw.
    pose proof (passthrough_T self wo Hw Hto _ Hti) as ET.
    assert (Hbranch : (u <? coatPickProb self wo)%f32 = false)
      by (rewrite ERo; assumption).
    rewrite sample_substrate by assumption. cbv zeta.
    rewrite (passthrough_reallocate self wo Hw Hto u Hr Hvu).
    set (rs := bsdf_sample (substrate self) wo s u) in *.
    assert (Hspec : is_specular (SampleRes.type rs) = true ->
                    sample_tail self wo (dot wo (getN self))
                      (coatPickProb self wo) rs (reconstruct rs) = rs).
    { intros Hs. rewrite tail_specular by assumption.
      unfold reconstruct. rewrite Hs. cbn [EvalRes.value EvalRes.pdf].
      rewrite ET, EsPP, Hr.
      rewrite (vscale_one (SampleRes.weight rs)) by assumption.
      rewrite (vscale_one (SampleRes.weight rs)) by assumption.
      rewrite (vscale_one (SampleRes.weight rs)) by assumption.
      destruct rs. reflexivity. }
    destruct (is_void rs) eqn:Hvoid.
    + repeat split; try reflexivity; intros; discriminate.
    + split; [apply tail_wi|]. split; [apply tail_type|].
      split; [intros; discriminate|]. split; [exact Hspec|].
      intros _ Hs Hvp Hvq. unfold reconstruct. rewrite Hs. split.
      * intros Hi. rewrite tail_transmit by assumption.
        cbn [EvalRes.value EvalRes.pdf].
        rewrite ET, EsPP, mul_one_l by assumption.
        rewrite vscale_one by assumption. split; reflexivity.
      * intros Hi Hk HR Hc Hnz. rewrite tail_reflect by assumption.
        cbv zeta. cbn [EvalRes.value EvalRes.pdf].
        rewrite ET, EsPP, ERo, mul_one_l by assumption.
        rewrite vscale_one by assumption.
        rewrite add_zero_l_eq
          by (assumption || (apply mul_zero_l; [reflexivity|exact Hc])).
        split; [reflexivity|].
        eexists. split; [|reflexivity].
        apply vadd_zero_l. apply passthrough_coat; assumption.
Qed.

End SheenPassThroughClaim.

(** Counterexample to C7: a sheen layer of blend weight 0 over a continuous
    substrate that proposes the normal with weight 1 and density 41.  The
    layer returns the weight [41 * rcp(41)], the binary32 number below 1. *)
Lemma weight_zero_passthrough_counterexample :
  let self := Ref.layer (Ref.matte Ref.forty_one) F32.zero in
  let rs := bsdf_sample (substrate self) Ref.up Ref.uv F32.half in
  let r := @MicrofacetSheenLayer_sample Ref.lib Ref.garbage self Ref.up Ref.uv
             F32.half in
  weight self = F32.zero
  /\ (Ref.dot Ref.up (getN self) <=? F32.zero)%f32 = false
  /\ SampleRes.weight rs = make_vec3f F32.one
  /\ SampleRes.weight r = make_vec3f (S754_finite false 16777215 (-24))
  /\ SampleRes.weight r <> SampleRes.weight rs.
Proof. vm_compute. repeat split. discriminate. Qed.


(** * The claims on concrete inputs *)

(** Witness of C1: a sheen layer and a glass slab seen from below. *)
Lemma horizon_rejection_witness :
  let self := Ref.layer (Ref.matte Ref.quarter) F32.half in
  (Ref.dot Ref.down (getN self) <=? F32.zero)%f32 = true
  /\ @MicrofacetSheenLayer_eval Ref.lib self Ref.down Ref.up
     = make_BSDF_EvalRes_zero
  /\ @MicrofacetSheenLayer_sample Ref.lib Ref.garbage self Ref.down Ref.uv
       F32.half = make_BSDF_SampleRes_zero
  /\ @ThinDielectric_sample Ref.lib Ref.glass Ref.down Ref.uv F32.half
     = SampleRes.mk (make_vec3f F32.one) (Ref.reflect Ref.down Ref.up F32.zero)
         F32.inf BSDF_SPECULAR_REFLECTION.
Proof.
  cbv zeta.
  pose proof (@horizon_rejection Ref.lib
                (Ref.layer (Ref.matte Ref.quarter) F32.half) Ref.glass
                Ref.garbage Ref.down Ref.up Ref.uv F32.half) as H.
  destruct H as (Hs & _ & Ht).
  assert (Hd : (Ref.dot Ref.down Ref.up <=? F32.zero)%f32 = true)
    by (vm_compute; reflexivity).
  split; [exact Hd|].
  destruct (Hs Hd) as [He Hr].
  split; [exact He|]. split; [exact Hr|].
  rewrite (Ht Hd). vm_compute. reflexivity.
Defined.

(** Counterexample to C1: the lossless glass slab of index 1.5 seen along
    the negated normal, [dot(wo, N) = -1].  The cosine is clamped to 0, the
    reflectance there is 1, and [u = 0.5] selects the reflection: weight
    (1,1,1), not the void sentinel. *)
Lemma horizon_rejection_counterexample :
  let r := @ThinDielectric_sample Ref.lib Ref.glass Ref.down Ref.uv F32.half in
  (Ref.dot Ref.down (vz (td_frame Ref.glass)) <=? F32.zero)%f32 = true
  /\ SampleRes.weight r = make_vec3f F32.one
  /\ is_void r = false
  /\ r <> make_BSDF_SampleRes_zero.
Proof. vm_compute. repeat split. discriminate. Qed.

(** Witness of C2: a half-weight sheen layer over a continuous substrate
    whose evaluation matches its sample; [u = 0.5] selects the substrate
    and [u = 1/16] the coat. *)
Lemma sample_eval_consistent_witness :
  let self := Ref.layer (Ref.matte Ref.quarter) F32.half in
  let sixteenth := S754_finite false 8388608 (-27) in
  let r := @MicrofacetSheenLayer_sample Ref.lib Ref.garbage self Ref.up Ref.uv
             F32.half in
  let e := @MicrofacetSheenLayer_eval Ref.lib self Ref.up (SampleRes.wi r) in
  let r' := @MicrofacetSheenLayer_sample Ref.lib Ref.garbage self Ref.up Ref.uv
              sixteenth in
  let e' := @MicrofacetSheenLayer_eval Ref.lib self Ref.up (SampleRes.wi r') in
  ((F32.half <? @coatPickProb Ref.lib self Ref.up)%f32 = false
   /\ EvalRes.pdf e = SampleRes.pdf r
   /\ vscale (EvalRes.value e) (Ref.rcp (EvalRes.pdf e)) = SampleRes.weight r)
  /\ ((sixteenth <? @coatPickProb Ref.lib self Ref.up)%f32 = true
      /\ EvalRes.pdf e' = SampleRes.pdf r'
      /\ vscale (EvalRes.value e') (Ref.rcp (EvalRes.pdf e'))
         = SampleRes.weight r').
Proof.
  cbv zeta. split; (split; [vm_compute; reflexivity|]).
  - pose proof (@sample_eval_consistent Ref.lib
                  (Ref.layer (Ref.matte Ref.quarter) F32.half) Ref.garbage
                  Ref.up Ref.uv F32.half) as H.
    cbv zeta in H. premise H. premise H. premise H.
    destruct H as [_ H]. premise H. destruct H as [_ H]. premise H.
    destruct H as [Hp Hw]. premise Hw.
    split; [exact Hp | exact Hw].
  - pose proof (@sample_eval_consistent Ref.lib
                  (Ref.layer (Ref.matte Ref.quarter) F32.half) Ref.garbage
                  Ref.up Ref.uv (S754_finite false 8388608 (-27))) as H.
    cbv zeta in H. premise H. premise H. premise H.
    destruct H as [H _]. premise H. exact H.
Defined.

(** Counterexample to C2: a sheen layer over a sheen layer over the
    continuous substrate of density 1.5.  With [u = 0.5] the outer layer
    samples its substrate, the inner layer, which has the property: its
    evaluation at the sampled direction reports the density and, divided by
    it, the weight of its sample.  The outer layer returns a continuous
    direction with a positive weight and the density of its evaluation, but
    the weight 9782817 / 2^23 where the evaluation gives 9782818 / 2^23:
    the value rebuilt as [weight * pdf] is not the value of the inner
    evaluation. *)
Lemma sample_eval_consistent_counterexample :
  let self := Ref.lined in
  let r := @MicrofacetSheenLayer_sample Ref.lib Ref.garbage self Ref.up Ref.uv
             F32.half in
  let rs := bsdf_sample (substrate self) Ref.up Ref.uv
              (@reallocate Ref.lib self Ref.up F32.half) in
  let sub := bsdf_eval (substrate self) Ref.up (SampleRes.wi rs) in
  let e := @MicrofacetSheenLayer_eval Ref.lib self Ref.up (SampleRes.wi r) in
  ((F32.half <? @coatPickProb Ref.lib self Ref.up)%f32 = false
   /\ is_specular (SampleRes.type rs) = false
   /\ (F32.zero <? reduce_max (SampleRes.weight rs))%f32 = true
   /\ EvalRes.pdf sub = SampleRes.pdf rs
   /\ vscale (EvalRes.value sub) (Ref.rcp (EvalRes.pdf sub))
      = SampleRes.weight rs)
  /\ (is_specular (SampleRes.type r) = false
      /\ (F32.zero <? reduce_max (SampleRes.weight r))%f32 = true
      /\ F32.is_nan (Ref.dot (SampleRes.wi r) (getN self)) = false
      /\ SampleRes.wi r = SampleRes.wi rs)
  /\ EvalRes.pdf e = SampleRes.pdf r
  /\ SampleRes.weight r = make_vec3f (S754_finite false 9782817 (-23))
  /\ vscale (EvalRes.value e) (Ref.rcp (EvalRes.pdf e))
     = make_vec3f (S754_finite false 9782818 (-23))
  /\ vscale (EvalRes.value e) (Ref.rcp (EvalRes.pdf e)) <> SampleRes.weight r.
Proof. vm_compute. repeat split. discriminate. Qed.

(** Witness of C3: the same layer evaluated along the normal. *)
Lemma eval_above_horizon_witness :
  let self := Ref.layer (Ref.matte Ref.quarter) F32.half in
  let e := @MicrofacetSheenLayer_eval Ref.lib self Ref.up Ref.up in
  EvalRes.value e = make_vec3f (S754_finite false 11534336 (-25))
  /\ EvalRes.pdf e = S754_finite false 16015152 (-26).
Proof.
  cbv zeta.
  pose proof (@eval_above_horizon Ref.lib
                (Ref.layer (Ref.matte Ref.quarter) F32.half) Ref.up Ref.up) as H.
  cbv zeta in H. premise H. premise H.
  destruct H as [Hv Hp].
  rewrite Hv, Hp. vm_compute. split; reflexivity.
Defined.

(** Witness of C5: the layer over the glass slab, a specular sample, and
    over the continuous substrate with [u] below [Ro], a coat sample. *)
Lemma sample_reciprocals_witness :
  let glazed := Ref.layer Ref.glass_bsdf F32.half in
  let self := Ref.layer (Ref.matte Ref.quarter) F32.half in
  let sixteenth := S754_finite false 8388608 (-27) in
  SampleRes.pdf (@MicrofacetSheenLayer_sample Ref.lib Ref.garbage glazed Ref.up
                   Ref.uv F32.half) = F32.inf
  /\ SampleRes.pdf (@MicrofacetSheenLayer_sample Ref.lib Ref.garbage self Ref.up
                      Ref.uv sixteenth) = S754_finite false 16015152 (-26).
Proof.
  cbv zeta. split.
  - pose proof (@sample_reciprocals Ref.lib (Ref.layer Ref.glass_bsdf F32.half)
                  Ref.garbage Ref.up Ref.uv F32.half) as H.
    cbv zeta in H. premise H. destruct H as [H _].
    premise H. premise H. destruct H as (Hs & _).
    premise Hs. destruct Hs as [Hp _].
    rewrite Hp. vm_compute. reflexivity.
  - pose proof (@sample_reciprocals Ref.lib
                  (Ref.layer (Ref.matte Ref.quarter) F32.half)
                  Ref.garbage Ref.up Ref.uv (S754_finite false 8388608 (-27)))
      as H.
    cbv zeta in H. premise H. destruct H as [_ H].
    premise H. destruct H as (_ & Hr).
    premise Hr. destruct Hr as [Hp _].
    rewrite Hp. vm_compute. reflexivity.
Defined.

(** Counterexample to C5: the layer over a continuous transmitting
    substrate whose sample has the weight (1,1,1) and the density 0.  With
    [u = 0.5] the substrate is sampled, its sample is not void, and the
    combined density [substratePickProb * 0] is 0; the layer computes
    [rcp(0)] and returns the weight [0 * rcp(0)], a NaN in every channel. *)
Lemma sample_reciprocals_counterexample :
  let self := Ref.layer (Ref.sheer F32.zero) F32.half in
  let rs := bsdf_sample (substrate self) Ref.up Ref.uv
              (@reallocate Ref.lib self Ref.up F32.half) in
  let r := @MicrofacetSheenLayer_sample Ref.lib Ref.garbage self Ref.up Ref.uv
             F32.half in
  ((Ref.dot Ref.up (getN self) <=? F32.zero)%f32 = false
   /\ (F32.half <? @coatPickProb Ref.lib self Ref.up)%f32 = false
   /\ is_void rs = false
   /\ is_specular (SampleRes.type rs) = false)
  /\ SampleRes.pdf r = F32.zero
  /\ In (CallRcp F32.zero)
       (snd (@MicrofacetSheenLayer_sample_tr Ref.lib Ref.garbage self Ref.up
               Ref.uv F32.half))
  /\ SampleRes.weight r = make_vec3f S754_nan
  /\ vfinite (SampleRes.weight r) = false.
Proof.
  vm_compute. repeat split.
  repeat (first [left; reflexivity | right]).
Qed.

(** Witness of C7: a sheen layer of blend weight 0 over the continuous
    substrate of density 1/4. *)
Lemma weight_zero_passthrough_witness :
  let self := Ref.layer (Ref.matte Ref.quarter) F32.zero in
  let rs := bsdf_sample (substrate self) Ref.up Ref.uv F32.half in
  let r := @MicrofacetSheenLayer_sample Ref.lib Ref.garbage self Ref.up Ref.uv
             F32.half in
  let e := @MicrofacetSheenLayer_eval Ref.lib self Ref.up Ref.down in
  e = bsdf_eval (substrate self) Ref.up Ref.down
  /\ SampleRes.wi r = SampleRes.wi rs
  /\ SampleRes.type r = SampleRes.type rs
  /\ SampleRes.pdf r = SampleRes.pdf rs.
Proof.
  cbv zeta.
  pose proof (@weight_zero_passthrough Ref.lib
                (Ref.layer (Ref.matte Ref.quarter) F32.zero) Ref.garbage
                Ref.up Ref.down Ref.uv F32.half) as H.
  cbv zeta in H. premise H. premise H. premise H.
  destruct H as [He Hs].
  premise He. premise He. premise He. destruct He as [He _]. premise He.
  premise Hs. premise Hs. premise Hs. premise Hs. premise Hs.
  destruct Hs as (Hwi & Hty & _ & _ & Hc).
  premise Hc. premise Hc. premise Hc. premise Hc.
  destruct Hc as [_ Hc].
  premise Hc. premise Hc. premise Hc. premise Hc. premise Hc.
  destruct Hc as [Hp _].
  split; [exact He|].
  split; [exact Hwi|]. split; [exact Hty|exact Hp].
Defined.

(** Witness of C8: the layer over a substrate that scatters nothing. *)
Lemma void_propagation_witness :
  let self := Ref.layer Ref.black F32.half in
  (F32.half <? @coatPickProb Ref.lib self Ref.up)%f32 = false
  /\ @MicrofacetSheenLayer_sample Ref.lib Ref.garbage self Ref.up Ref.uv F32.half
     = make_BSDF_SampleRes_zero
  /\ filter is_coat_term
       (snd (@MicrofacetSheenLayer_sample_tr Ref.lib Ref.garbage self Ref.up
               Ref.uv F32.half)) = [].
Proof.
  cbv zeta. split; [vm_compute; reflexivity|].
  pose proof (@void_propagation Ref.lib (Ref.layer Ref.black F32.half)
                Ref.garbage Ref.up Ref.uv F32.half) as H.
  cbv zeta in H. premise H. premise H. premise H.
  destruct H as (_ & Hr & _ & _ & _ & Hc & _).
  split; [rewrite Hr; reflexivity | exact Hc].
Defined.


(** * The helpers and the constructors of the two models *)

Section MoreComparisons.

Lemma ltb_irrefl a : (a <? a)%f32 = false.
Proof.
  destruct a as [s|s| |s m e]; try destruct s; try reflexivity;
    unfold F32.ltb, SFltb, SFcompare;
    rewrite Z.compare_refl, Pos.compare_cont_refl; reflexivity.
Qed.

Lemma max_of_positive d : (F32.zero <? d)%f32 = true -> F32.max d F32.zero = d.
Proof. intros H. unfold F32.max. rewrite H. reflexivity. Qed.

Lemma add_zero_r a z : F32.is_zero z = true -> F32.same (a + z)%f32 a.
Proof.
  destruct z as [sz|sz| |sz mz ez]; simpl; try congruence. intros _.
  destruct a as [sa|sa| |sa m e]; try (left; reflexivity).
  destruct sz, sa; simpl; (left; reflexivity) || (right; split; reflexivity).
Qed.

End MoreComparisons.

Section HelperFacts.

Context {L : Library}.

(** X1.  [MicrofacetSheenLayer_sample] never returns what its local [res]
    held before the first assignment: the result is the same for any two
    initial contents. *)
Theorem sample_initial_contents (self : MicrofacetSheenLayer)
    (res0 res0' : BSDF_SampleRes) (wo : vec3f) (s : vec2f) (u : float) :
  MicrofacetSheenLayer_sample res0 self wo s u
  = MicrofacetSheenLayer_sample res0' self wo s u.
Proof.
  destruct (dot wo (getN self) <=? F32.zero)%f32 eqn:Ho.
  { rewrite !sample_below by assumption. reflexivity. }
  destruct (u <? coatPickProb self wo)%f32 eqn:Hu.
  - rewrite !sample_coat by assumption. cbv zeta.
    destruct (dot (linear3f_mul (sheen_frame self) (uniformSampleHemisphere s))
                (getN self) <=? F32.zero)%f32 eqn:Hi.
    + rewrite !tail_transmit by (try assumption; reflexivity). reflexivity.
    + rewrite !tail_reflect by (try assumption; reflexivity). reflexivity.
  - rewrite !sample_substrate by assumption. reflexivity.
Qed.

(** X2.  When [sample] draws from the substrate it hands on the direction
    and the lobe type the substrate proposed; a void or a specular proposal
    also keeps its density. *)
Theorem sample_keeps_proposal (self : MicrofacetSheenLayer)
    (res0 : BSDF_SampleRes) (wo : vec3f) (s : vec2f) (u : float) :
  let rs := bsdf_sample (substrate self) wo s (reallocate self wo u) in
  let r := MicrofacetSheenLayer_sample res0 self wo s u in
  (dot wo (getN self) <=? F32.zero)%f32 = false ->
  (u <? coatPickProb self wo)%f32 = false ->
  SampleRes.wi r = SampleRes.wi rs
  /\ SampleRes.type r = SampleRes.type rs
  /\ (is_void rs = true \/ is_specular (SampleRes.type rs) = true ->
      SampleRes.pdf r = SampleRes.pdf rs).
Proof.
  cbv zeta. intros Ho Hu.
  rewrite sample_substrate by assumption. cbv zeta.
  destruct (is_void _) eqn:Hv.
  - repeat split; reflexivity.
  - split; [apply tail_wi|]. split; [apply tail_type|].
    intros [H|H]; [discriminate H|].
    rewrite tail_specular by assumption. reflexivity.
Qed.

Lemma abs_neg_pos c :
  (F32.zero <? c)%f32 = true -> F32.abs (F32.neg c) = c.
Proof. destruct c as [sc|sc| |sc m e]; try destruct sc; cbv; congruence. Qed.

Lemma neg_pos_not_pos c :
  (F32.zero <? c)%f32 = true -> (F32.zero <? F32.neg c)%f32 = false.
Proof. destruct c as [sc|sc| |sc m e]; try destruct sc; cbv; congruence. Qed.

Lemma min_same a : F32.min a a = a.
Proof. unfold F32.min. destruct (a <? a)%f32; reflexivity. Qed.

(** Straight through the layer the attenuation is the probability of the
    substrate. *)
Lemma transmission_straight (self : MicrofacetSheenLayer) (wo : vec3f) :
  (F32.zero <? dot wo (getN self))%f32 = true ->
  dot (neg wo) (getN self) = F32.neg (dot wo (getN self)) ->
  transmission self wo (neg wo) = substratePickProb self wo.
Proof.
  intros Ho Hd. unfold transmission, albedo_in.
  rewrite Hd, (abs_neg_pos _ Ho).
  fold (coatPickProb self wo). fold (substratePickProb self wo).
  apply min_same.
Qed.

(** X3.  Shadow rays and scattering agree straight through the layer.  For
    [wo] above the horizon, [MicrofacetSheenLayer_getTransparency] at the
    cosine, roughness and weight of the layer is [t = 1 - Ro] in every
    channel; [eval(wo, -wo)] is the substrate's evaluation with value and
    density each multiplied by [t]; and when [sample] draws from the
    substrate a specular sample that goes straight through ([wi = -wo]), it
    returns the substrate's weight times [t] times [rcp(t)] with the
    substrate's direction, density and lobe type.  The cosine of [-wo] is
    taken to be the negated cosine of [wo]. *)
Theorem transparency_straight_through (self : MicrofacetSheenLayer)
    (res0 : BSDF_SampleRes) (wo : vec3f) (s : vec2f) (u : float) :
  let cosThetaO := dot wo (getN self) in
  let t := Vec3f.x (MicrofacetSheenLayer_getTransparency cosThetaO
                      (roughness self) (weight self)) in
  let sub := bsdf_eval (substrate self) wo (neg wo) in
  let rs := bsdf_sample (substrate self) wo s (reallocate self wo u) in
  let r := MicrofacetSheenLayer_sample res0 self wo s u in
  (F32.zero <? cosThetaO)%f32 = true ->
  dot (neg wo) (getN self) = F32.neg cosThetaO ->
  MicrofacetSheenLayer_getTransparency cosThetaO (roughness self) (weight self)
    = make_vec3f t
  /\ MicrofacetSheenLayer_eval self wo (neg wo)
     = EvalRes.mk (vscale (EvalRes.value sub) t) (EvalRes.pdf sub * t)%f32
  /\ ((u <? coatPickProb self wo)%f32 = false ->
      is_void rs = false ->
      is_specular (SampleRes.type rs) = true ->
      SampleRes.wi rs = neg wo ->
      r = SampleRes.mk
            (vscale (vscale (vscale (SampleRes.weight rs) F32.one) t) (rcp t))
            (neg wo) (SampleRes.pdf rs) (SampleRes.type rs)).
Proof.
  cbv zeta. intros Ho Hd.
  change (Vec3f.x (MicrofacetSheenLayer_getTransparency (dot wo (getN self))
                     (roughness self) (weight self)))
    with (substratePickProb self wo).
  pose proof (ltb_zero_not_leb _ Ho) as Ho'.
  split; [reflexivity|]. split.
  - rewrite eval_transmit
      by (try assumption; rewrite Hd; apply neg_pos_not_pos, Ho).
    rewrite (transmission_straight self wo Ho Hd). reflexivity.
  - intros Hu Hv Hs Hwi.
    rewrite sample_substrate by assumption. cbv zeta. rewrite Hv.
    rewrite tail_specular by assumption.
    unfold reconstruct. rewrite Hs, Hwi.
    rewrite (transmission_straight self wo Ho Hd). reflexivity.
Qed.

(** X4.  For [wo] above the horizon the transparency of the thin dielectric
    is [1 - F] times the weight [ThinDielectric_sample] gives a transmitted
    sample. *)
Theorem thin_dielectric_transparency (self : ThinDielectric) (wo : vec3f)
    (s : vec2f) (u : float) :
  let cosThetaO := dot wo (vz (td_frame self)) in
  let F := fst (fresnelDielectricEx cosThetaO (eta self)) in
  let r := ThinDielectric_sample self wo s u in
  (F32.zero <? cosThetaO)%f32 = true ->
  (u <=? F)%f32 = false ->
  SampleRes.type r = BSDF_SPECULAR_TRANSMISSION
  /\ ThinDielectric_getTransparency cosThetaO (eta self) (attenuation self)
     = vscale_l (F32.one - F)%f32 (SampleRes.weight r).
Proof.
  cbv zeta. intros Ho Hu.
  rewrite ThinDielectric_sample_eq. rewrite (max_of_positive _ Ho). rewrite Hu.
  unfold ThinDielectric_getTransparency.
  destruct (fresnelDielectricEx (dot wo (vz (td_frame self))) (eta self))
    as [F cosThetaT].
  split; reflexivity.
Qed.

(** X5.  A sheen layer over a substrate whose evaluation is the zero
    sentinel, as over every thin dielectric, evaluates to its coat alone:
    towards the far side it has no value and no density, towards the near
    side it has the coat value and the density [Ro * coatPdf], up to the sign
    of a zero. *)
Theorem eval_over_thin_dielectric (self : MicrofacetSheenLayer)
    (frame : linear3f) (eta_ : float) (attenuation_ : vec3f) (wo wi : vec3f) :
  let e := MicrofacetSheenLayer_eval self wo wi in
  substrate self = ThinDielectric_Constructor frame eta_ attenuation_ ->
  (dot wo (getN self) <=? F32.zero)%f32 = false ->
  F32.is_finite (transmission self wo wi) = true ->
  F32.is_finite (substratePickProb self wo) = true ->
  ((F32.zero <? dot wi (getN self))%f32 = false ->
     vzero (EvalRes.value e) = true /\ F32.is_zero (EvalRes.pdf e) = true)
  /\ ((F32.zero <? dot wi (getN self))%f32 = true ->
      vsame (EvalRes.value e) (EvalRes.value (coat self wo wi))
      /\ F32.same (EvalRes.pdf e)
           (coatPickProb self wo * uniformSampleHemispherePDF)%f32).
Proof.
  cbv zeta. intros Hsub Ho HT HP.
  assert (Hz : bsdf_eval (substrate self) wo wi = make_BSDF_EvalRes_zero)
    by (rewrite Hsub; reflexivity).
  split; intros Hi.
  - rewrite eval_transmit by assumption. rewrite Hz.
    cbn [EvalRes.value EvalRes.pdf make_BSDF_EvalRes_zero]. split.
    + apply vscale_zero; [reflexivity | assumption].
    + apply mul_zero_l; [reflexivity | assumption].
  - rewrite eval_reflect by assumption. rewrite Hz.
    cbn [EvalRes.value EvalRes.pdf make_BSDF_EvalRes_zero]. split.
    + assert (Hv : vzero (vscale (make_vec3f F32.zero) (transmission self wo wi))
                   = true)
        by (apply vscale_zero; [reflexivity | assumption]).
      revert Hv.
      generalize (vscale (make_vec3f F32.zero) (transmission self wo wi)).
      generalize (EvalRes.value (coat self wo wi)).
      intros [a b c] [a' b' c']. unfold vzero, vsame, vadd. simpl.
      rewrite !eqb_zero_is_zero. intros H.
      apply andb_true_iff in H. destruct H as [H Hc].
      apply andb_true_iff in H. destruct H as [Ha Hb].
      auto using add_zero_r.
    + apply add_zero_r. apply mul_zero_r; [assumption | reflexivity].
Qed.

End HelperFacts.

Section ConstructorFacts.

Context {L : Library}.

Variable lerp : float -> vec3f -> vec3f -> vec3f.
Variable roughnessToAlpha : float -> float.
Variable make_SheenDistribution : float -> SheenDistribution.

Lemma land_lor_r (t a b : Z) : Z.land t b = t -> Z.land t (Z.lor a b) = t.
Proof.
  intros H. apply Z.bits_inj'. intros n Hn.
  assert (Hb : Z.testbit (Z.land t b) n = Z.testbit t n) by (rewrite H; reflexivity).
  rewrite Z.land_spec in Hb. rewrite Z.land_spec, Z.lor_spec.
  destruct (Z.testbit t n), (Z.testbit a n), (Z.testbit b n);
    simpl in *; congruence.
Qed.

Lemma thin_dielectric_lobes (frame : linear3f) (eta_ : float)
    (attenuation_ : vec3f) :
  lobes_declared (ThinDielectric_Constructor frame eta_ attenuation_).
Proof.
  intros wo s u. cbv zeta. intros _.
  cbn [bsdf_sample bsdf_type ThinDielectric_Constructor].
  rewrite ThinDielectric_sample_eq.
  destruct (u <=? _)%f32; reflexivity.
Qed.

Lemma sheen_layer_lobes (res0 : BSDF_SampleRes) (frame : linear3f)
    (sub : BSDF) (R_ : vec3f) (roughness_ weight_ : float) :
  lobes_declared sub ->
  lobes_declared
    (MicrofacetSheenLayer_Constructor lerp roughnessToAlpha
       make_SheenDistribution res0 frame sub R_ roughness_ weight_).
Proof.
  intros Hsub wo s u. cbv zeta.
  cbn [bsdf_sample bsdf_type MicrofacetSheenLayer_Constructor].
  set (self := {| sheen_frame := frame; substrate := sub; R := R_;
                  microfacet := make_SheenDistribution (roughnessToAlpha roughness_);
                  roughness := roughness_; weight := weight_ |}).
  destruct (dot wo (getN self) <=? F32.zero)%f32 eqn:Ho.
  { rewrite sample_below by assumption. intros H. discriminate H. }
  destruct (u <? coatPickProb self wo)%f32 eqn:Hu.
  - rewrite sample_coat by assumption. cbv zeta. intros _.
    rewrite tail_type. cbn [SampleRes.type].
    apply Z.bits_inj'. intros n Hn.
    rewrite Z.land_spec, Z.lor_spec.
    destruct (Z.testbit BSDF_DIFFUSE_REFLECTION n); reflexivity.
  - rewrite sample_substrate by assumption. cbv zeta.
    change (substrate self) with sub.
    destruct (is_void (bsdf_sample sub wo s (reallocate self wo u))) eqn:Hv.
    + intros H. congruence.
    + intros _. rewrite tail_type. apply land_lor_r. apply (Hsub wo s _ Hv).
Qed.

(** X6.  The lobe types are declared.  Every sample of a thin dielectric is
    specular with the infinite density and has a lobe type within the mask
    its constructor declares; a sheen layer keeps that property of its
    substrate, so every sample that is not void of a thin dielectric, or of
    any substrate with the property, wrapped in any number of sheen layers,
    has a lobe type within the declared mask. *)
Theorem coated_lobes_declared (base : BSDF) (cs : list Coating)
    (frame : linear3f) (eta_ : float) (attenuation_ : vec3f) :
  (forall wo s u,
     let r := bsdf_sample (ThinDielectric_Constructor frame eta_ attenuation_)
                wo s u in
     is_specular (SampleRes.type r) = true /\ SampleRes.pdf r = F32.inf)
  /\ lobes_declared
       (coated lerp roughnessToAlpha make_SheenDistribution
          (ThinDielectric_Constructor frame eta_ attenuation_) cs)
  /\ (lobes_declared base ->
      lobes_declared
        (coated lerp roughnessToAlpha make_SheenDistribution base cs)).
Proof.
  assert (H : forall b, lobes_declared b ->
                lobes_declared
                  (coated lerp roughnessToAlpha make_SheenDistribution b cs)).
  { intros b Hb. induction cs as [|c cs' IH]; [exact Hb|].
    simpl. apply sheen_layer_lobes. exact IH. }
  split; [|split].
  - intros wo s u. cbv zeta.
    cbn [bsdf_sample ThinDielectric_Constructor].
    rewrite ThinDielectric_sample_eq.
    destruct (u <=? _)%f32; split; reflexivity.
  - apply H, thin_dielectric_lobes.
  - apply H.
Qed.

End ConstructorFacts.


(** * The order of binary32 numbers *)

Section FloatOrder.

Import Volume.

Lemma ltb_lex a b :
  F32.is_nan a = false -> F32.is_nan b = false ->
  ((a <? b)%f32 = true <-> lex (key a) (key b)).
Proof.
  intros Ha Hb.
  destruct a as [sa|sa| |sa ma ea]; try discriminate Ha;
  destruct b as [sb|sb| |sb mb eb]; try discriminate Hb;
  destruct sa; destruct sb; unfold F32.ltb, SFltb, SFcompare, key, lex;
  try (split; [discriminate | lia]); try (split; [lia | reflexivity]).
  - change (Pos.compare_cont Eq ma mb) with (Pos.compare ma mb).
    destruct (Z.compare_spec ea eb), (Pos.compare_spec ma mb); simpl;
      split; intros; try discriminate; try reflexivity; lia.
  - change (Pos.compare_cont Eq ma mb) with (Pos.compare ma mb).
    destruct (Z.compare_spec ea eb), (Pos.compare_spec ma mb); simpl;
      split; intros; try discriminate; try reflexivity; lia.
Qed.

Lemma ltb_not_nan a b :
  (a <? b)%f32 = true -> F32.is_nan a = false /\ F32.is_nan b = false.
Proof.
  destruct a as [sa|sa| |sa ma ea], b as [sb|sb| |sb mb eb];
    try (intros H; discriminate H); split; reflexivity.
Qed.

Lemma ltb_trans a b c :
  (a <? b)%f32 = true -> (b <? c)%f32 = true -> (a <? c)%f32 = true.
Proof.
  intros Hab Hbc.
  destruct (ltb_not_nan _ _ Hab) as [Na Nb].
  destruct (ltb_not_nan _ _ Hbc) as [_ Nc].
  apply ltb_lex in Hab; try assumption. apply ltb_lex in Hbc; try assumption.
  apply ltb_lex; try assumption.
  destruct (key a) as [[c1 e1] m1], (key b) as [[c2 e2] m2],
    (key c) as [[c3 e3] m3]. unfold lex in *. lia.
Qed.

Lemma ltb_between a b c :
  F32.is_nan b = false -> (a <? c)%f32 = true ->
  (a <? b)%f32 = true \/ (b <? c)%f32 = true.
Proof.
  intros Nb Hac.
  destruct (ltb_not_nan _ _ Hac) as [Na Nc].
  apply ltb_lex in Hac; try assumption.
  assert (H : lex (key a) (key b) \/ lex (key b) (key c)).
  { destruct (key a) as [[c1 e1] m1], (key b) as [[c2 e2] m2],
      (key c) as [[c3 e3] m3]. unfold lex in *. lia. }
  destruct H as [H|H]; [left|right]; apply ltb_lex; assumption.
Qed.

Lemma ordered_not_nan a : Volume.ordered a = true -> F32.is_nan a = false.
Proof. destruct a as [s|s| |s m e]; try destruct s; simpl; congruence. Qed.

Lemma ltb_antisym a b :
  Volume.ordered a = true -> Volume.ordered b = true ->
  (a <? b)%f32 = false -> (b <? a)%f32 = false -> a = b.
Proof.
  intros Oa Ob Hab Hba.
  pose proof (ordered_not_nan _ Oa) as Na. pose proof (ordered_not_nan _ Ob) as Nb.
  assert (H1 : ~ lex (key a) (key b))
    by (intros H; apply ltb_lex in H; congruence).
  assert (H2 : ~ lex (key b) (key a))
    by (intros H; apply ltb_lex in H; congruence).
  destruct a as [sa|sa| |sa ma ea]; try discriminate Oa;
  destruct b as [sb|sb| |sb mb eb]; try discriminate Ob;
  destruct sa; try discriminate Oa; destruct sb; try discriminate Ob;
  unfold key, lex in *; try reflexivity; try lia;
  assert (ea = eb /\ Zpos ma = Zpos mb) as [-> E] by lia;
  injection E as ->; reflexivity.
Qed.

End FloatOrder.


(** * Folding a selection by comparison *)

Section Pick.

Variable A : Type.
Variable lt : A -> A -> bool.
Variable ok : A -> bool.

Hypothesis lt_irrefl : forall a, lt a a = false.
Hypothesis lt_trans :
  forall a b c, lt a b = true -> lt b c = true -> lt a c = true.
Hypothesis lt_between :
  forall a b c, ok b = true -> lt a c = true -> lt a b = true \/ lt b c = true.
Hypothesis lt_antisym :
  forall a b, ok a = true -> ok b = true ->
    lt a b = false -> lt b a = false -> a = b.

Local Notation "'pick'" := (Volume.pick lt).

Lemma pick_ok a b : ok a = true -> ok b = true -> ok (pick a b) = true.
Proof. intros Ha Hb. unfold Volume.pick. destruct (lt b a); assumption. Qed.

Lemma pick_idem a : pick a a = a.
Proof. unfold Volume.pick. rewrite lt_irrefl. reflexivity. Qed.

Lemma pick_assoc x a b :
  ok a = true -> pick (pick x a) b = pick x (pick a b).
Proof.
  intros Ha. unfold Volume.pick.
  destruct (lt a x) eqn:Eax, (lt b a) eqn:Eba; try rewrite Eax; try rewrite Eba;
    try reflexivity.
  - rewrite (lt_trans _ _ _ Eba Eax). reflexivity.
  - destruct (lt b x) eqn:Ebx; [|reflexivity].
    destruct (lt_between _ _ _ Ha Ebx); congruence.
Qed.

Lemma pick_comm a b : ok a = true -> ok b = true -> pick a b = pick b a.
Proof.
  intros Ha Hb. unfold Volume.pick.
  destruct (lt b a) eqn:Eba, (lt a b) eqn:Eab; try reflexivity.
  - pose proof (lt_trans _ _ _ Eba Eab) as H.
    rewrite lt_irrefl in H. discriminate H.
  - apply lt_antisym; assumption.
Qed.

Lemma pick_before a b : lt (pick a b) a = true \/ pick a b = a.
Proof. unfold Volume.pick. destruct (lt b a) eqn:E; auto. Qed.

Lemma fold_pick_shift vs : forall x w,
  Forall (fun v => ok v = true) vs -> ok w = true ->
  fold_left pick vs (pick x w) = pick x (fold_left pick vs w).
Proof.
  induction vs as [|v vs IH]; intros x w Hvs Hw; [reflexivity|].
  inversion Hvs as [|? ? Hv Hvs']; subst. simpl.
  rewrite pick_assoc by assumption.
  apply IH; [assumption | apply pick_ok; assumption].
Qed.

Lemma fold_pick_ok vs : forall w,
  Forall (fun v => ok v = true) vs -> ok w = true ->
  ok (fold_left pick vs w) = true.
Proof.
  induction vs as [|v vs IH]; intros w Hvs Hw; [exact Hw|].
  inversion Hvs; subst. simpl. apply IH; [assumption | apply pick_ok; assumption].
Qed.

Lemma fold_pick_perm l l' :
  Permutation l l' -> Forall (fun v => ok v = true) l ->
  forall x, fold_left pick l x = fold_left pick l' x.
Proof.
  induction 1 as [|v l l' Hp IH|v w l|l l' l'' Hp IH Hp' IH'];
    intros Hok x.
  - reflexivity.
  - inversion Hok; subst. simpl. apply IH. assumption.
  - inversion Hok as [|? ? Hw Hok']; subst.
    inversion Hok' as [|? ? Hv Hok'']; subst. simpl.
    rewrite !pick_assoc by assumption.
    rewrite (pick_comm w v) by assumption. reflexivity.
  - rewrite IH by assumption. apply IH'.
    eapply Permutation_Forall; eassumption.
Qed.

(** The selection over a list is the selection over its parts. *)
Lemma fold_pick_concat (d : A) (parts : list (list A)) : forall x,
  Forall (fun p => p <> [] /\ Forall (fun v => ok v = true) p) parts ->
  fold_left pick (concat parts) x
  = fold_left pick (map (fun p => fold_left pick p (hd d p)) parts) x.
Proof.
  induction parts as [|p parts IH]; intros x Hp; [reflexivity|].
  inversion Hp as [|? ? [Hne Hok] Hp']; subst. simpl.
  rewrite fold_left_app. destruct p as [|v p]; [congruence|].
  inversion Hok; subst. simpl hd.
  replace (fold_left pick (v :: p) v) with (fold_left pick p v)
    by (simpl; rewrite pick_idem; reflexivity).
  rewrite <- IH by assumption. f_equal.
  simpl. apply fold_pick_shift; assumption.
Qed.

End Pick.


(** * The voxel range *)

Section VoxelRange.

Import Volume.

Lemma std_min_pick a b : std_min a b = pick F32.ltb a b.
Proof. reflexivity. Qed.

Lemma std_max_pick a b : std_max a b = pick gtb a b.
Proof. reflexivity. Qed.

Lemma gtb_trans a b c : gtb a b = true -> gtb b c = true -> gtb a c = true.
Proof. unfold gtb. intros H1 H2. exact (ltb_trans _ _ _ H2 H1). Qed.

Lemma gtb_between a b c :
  F32.is_nan b = false -> gtb a c = true -> gtb a b = true \/ gtb b c = true.
Proof.
  unfold gtb. intros Hb H.
  destruct (ltb_between _ _ _ Hb H); auto.
Qed.

Lemma gtb_antisym a b :
  ordered a = true -> ordered b = true ->
  gtb a b = false -> gtb b a = false -> a = b.
Proof. unfold gtb. intros. apply ltb_antisym; assumption. Qed.

(** The two ends of the range evolve independently. *)
Lemma fold_widen {A : Type} (f : A -> float) (l : list A) : forall r,
  fold_left (fun r a => widen r (f a)) l r
  = Vec2f.mk (fold_left (pick F32.ltb) (map f l) (Vec2f.x r))
             (fold_left (pick gtb) (map f l) (Vec2f.y r)).
Proof.
  induction l as [|a l IH]; intros [x y]; [reflexivity|].
  simpl. rewrite IH. reflexivity.
Qed.

Lemma fold_merge {A : Type} (f : A -> vec2f) (l : list A) : forall r,
  fold_left (fun r a => merge r (f a)) l r
  = Vec2f.mk
      (fold_left (pick F32.ltb) (map (fun a => Vec2f.x (f a)) l) (Vec2f.x r))
      (fold_left (pick gtb) (map (fun a => Vec2f.y (f a)) l) (Vec2f.y r)).
Proof.
  induction l as [|a l IH]; intros [x y]; [reflexivity|].
  simpl. rewrite IH. reflexivity.
Qed.

End VoxelRange.

(** What a fold of [pick] does to its start, for an order in which only
    the elements that satisfy [nn] compare. *)
Section PickBounds.

Variable lt : float -> float -> bool.
Variable nn : float -> bool.

Hypothesis lt_irrefl : forall a, lt a a = false.
Hypothesis lt_nn : forall a b, lt a b = true -> nn a = true /\ nn b = true.
Hypothesis lt_trans :
  forall a b c, lt a b = true -> lt b c = true -> lt a c = true.
Hypothesis lt_between :
  forall a b c, nn b = true -> lt a c = true -> lt a b = true \/ lt b c = true.

Lemma fold_pick_bounds vs : forall x,
  nn x = true ->
  let r := fold_left (Volume.pick lt) vs x in
  nn r = true
  /\ lt x r = false
  /\ (forall v, In v vs -> lt v r = false).
Proof.
  induction vs as [|v vs IH]; intros x Hx; cbv zeta.
  - simpl. repeat split; [assumption | apply lt_irrefl | intros v []].
  - simpl.
    assert (Hp : nn (Volume.pick lt x v) = true).
    { unfold Volume.pick. destruct (lt v x) eqn:E; [|assumption].
      apply (lt_nn _ _ E). }
    destruct (IH _ Hp) as (Hr & Hle & Hall). cbv zeta in *.
    set (r := fold_left (Volume.pick lt) vs (Volume.pick lt x v)) in *.
    split; [assumption|]. split.
    + destruct (lt x r) eqn:E; [|reflexivity].
      destruct (lt_between _ _ _ Hp E) as [H|H]; [|congruence].
      unfold Volume.pick in H. destruct (lt v x) eqn:Evx.
      * pose proof (lt_trans _ _ _ H Evx) as H'. rewrite lt_irrefl in H'.
        discriminate H'.
      * rewrite lt_irrefl in H. discriminate H.
    + intros w [<-|Hw]; [|apply Hall, Hw].
      destruct (lt v r) eqn:E; [|reflexivity].
      destruct (lt_between _ _ _ Hp E) as [H|H]; [|congruence].
      unfold Volume.pick in H. destruct (lt v x) eqn:Evx.
      * rewrite lt_irrefl in H. discriminate H.
      * congruence.
Qed.

Lemma fold_pick_attained vs : forall x,
  let r := fold_left (Volume.pick lt) vs x in r = x \/ In r vs.
Proof.
  induction vs as [|v vs IH]; intros x; cbv zeta; [left; reflexivity|].
  simpl. destruct (IH (Volume.pick lt x v)) as [H|H]; [|right; right; exact H].
  rewrite H. unfold Volume.pick. destruct (lt v x); [right; left|left]; reflexivity.
Qed.

End PickBounds.


Section VoxelRangeBounds.

Import Volume.

Lemma ltb_nn a b :
  (a <? b)%f32 = true -> negb (F32.is_nan a) = true /\ negb (F32.is_nan b) = true.
Proof.
  intros H. destruct (ltb_not_nan _ _ H) as [-> ->]. split; reflexivity.
Qed.

Lemma gtb_nn a b :
  gtb a b = true -> negb (F32.is_nan a) = true /\ negb (F32.is_nan b) = true.
Proof. unfold gtb. intros H. destruct (ltb_nn _ _ H). split; assumption. Qed.

Lemma ltb_between' a b c :
  negb (F32.is_nan b) = true -> (a <? c)%f32 = true ->
  (a <? b)%f32 = true \/ (b <? c)%f32 = true.
Proof.
  intros Hb. apply ltb_between. destruct (F32.is_nan b); [discriminate|reflexivity].
Qed.

Lemma gtb_between' a b c :
  negb (F32.is_nan b) = true -> gtb a c = true ->
  gtb a b = true \/ gtb b c = true.
Proof.
  intros Hb. apply gtb_between. destruct (F32.is_nan b); [discriminate|reflexivity].
Qed.

(** X7.  [computeVoxelRange] over float voxels, started from a range without
    NaN, returns a range without NaN that contains the range it started
    from and every voxel: no voxel is below its lower end or above its upper
    end, so a NaN voxel is passed over.  Each end is the end it started
    from or one of the voxels. *)
Theorem voxel_range_encloses (voxelRange : vec2f) (source : list float) :
  let r := computeVoxelRange_float voxelRange source in
  F32.is_nan (Vec2f.x voxelRange) = false ->
  F32.is_nan (Vec2f.y voxelRange) = false ->
  (F32.is_nan (Vec2f.x r) = false /\ F32.is_nan (Vec2f.y r) = false)
  /\ ((Vec2f.x voxelRange <? Vec2f.x r)%f32 = false
      /\ (Vec2f.y r <? Vec2f.y voxelRange)%f32 = false)
  /\ (forall v, In v source ->
        (v <? Vec2f.x r)%f32 = false /\ (Vec2f.y r <? v)%f32 = false)
  /\ ((Vec2f.x r = Vec2f.x voxelRange \/ In (Vec2f.x r) source)
      /\ (Vec2f.y r = Vec2f.y voxelRange \/ In (Vec2f.y r) source)).
Proof.
  cbv zeta. intros Hx Hy. unfold computeVoxelRange_float.
  rewrite (fold_widen (fun v => v)). rewrite map_id. cbn [Vec2f.x Vec2f.y].
  destruct (fold_pick_bounds F32.ltb (fun a => negb (F32.is_nan a))
              ltb_irrefl ltb_nn ltb_trans ltb_between' source (Vec2f.x voxelRange))
    as (Hnx & Hlx & Hax); [rewrite Hx; reflexivity|].
  destruct (fold_pick_bounds gtb (fun a => negb (F32.is_nan a))
              (fun a => ltb_irrefl a) gtb_nn gtb_trans gtb_between' source
              (Vec2f.y voxelRange))
    as (Hny & Hly & Hay); [rewrite Hy; reflexivity|].
  cbv zeta in *.
  repeat split.
  - apply negb_true_iff in Hnx. exact Hnx.
  - apply negb_true_iff in Hny. exact Hny.
  - exact Hlx.
  - exact Hly.
  - apply Hax; assumption.
  - apply (Hay v); assumption.
  - apply fold_pick_attained.
  - apply fold_pick_attained.
Qed.

(** X8.  [computeVoxelRange] over double voxels compares the voxels rounded
    to float: started from a range without NaN it returns a range without
    NaN that contains the range it started from and the rounded value of
    every voxel. *)
Theorem voxel_range_double_encloses (voxelRange : vec2f) (source : list double) :
  let r := computeVoxelRange_double voxelRange source in
  F32.is_nan (Vec2f.x voxelRange) = false ->
  F32.is_nan (Vec2f.y voxelRange) = false ->
  r = computeVoxelRange_float voxelRange (map float_of_double source)
  /\ (F32.is_nan (Vec2f.x r) = false /\ F32.is_nan (Vec2f.y r) = false)
  /\ ((Vec2f.x voxelRange <? Vec2f.x r)%f32 = false
      /\ (Vec2f.y r <? Vec2f.y voxelRange)%f32 = false)
  /\ (forall d, In d source ->
        (float_of_double d <? Vec2f.x r)%f32 = false
        /\ (Vec2f.y r <? float_of_double d)%f32 = false).
Proof.
  cbv zeta. intros Hx Hy.
  assert (E : computeVoxelRange_double voxelRange source
              = computeVoxelRange_float voxelRange (map float_of_double source)).
  { unfold computeVoxelRange_double, computeVoxelRange_float.
    rewrite fold_widen, (fold_widen (fun v => v)), map_id. reflexivity. }
  unfold computeVoxelRange_float in E.
  rewrite (fold_widen (fun v => v)), map_id in E.
  split; [rewrite E; unfold computeVoxelRange_float;
          rewrite (fold_widen (fun v => v)), map_id; reflexivity|].
  rewrite E. cbn [Vec2f.x Vec2f.y].
  destruct (fold_pick_bounds F32.ltb (fun a => negb (F32.is_nan a))
              ltb_irrefl ltb_nn ltb_trans ltb_between'
              (map float_of_double source) (Vec2f.x voxelRange))
    as (Hnx & Hlx & Hax); [rewrite Hx; reflexivity|].
  destruct (fold_pick_bounds gtb (fun a => negb (F32.is_nan a))
              (fun a => ltb_irrefl a) gtb_nn gtb_trans gtb_between'
              (map float_of_double source) (Vec2f.y voxelRange))
    as (Hny & Hly & Hay); [rewrite Hy; reflexivity|].
  cbv zeta in *.
  repeat split.
  - apply negb_true_iff in Hnx. exact Hnx.
  - apply negb_true_iff in Hny. exact Hny.
  - exact Hlx.
  - exact Hly.
  - apply Hax, in_map; assumption.
  - apply (Hay (float_of_double d)), in_map; assumption.
Qed.

End VoxelRangeBounds.


Section VoxelBlocks.

Import Volume.

Lemma float_of_uchar_ordered c : ordered (float_of_uchar c) = true.
Proof. destruct c; reflexivity. Qed.

(** Reading the indices from [lo] up to [hi] gives that part of the list. *)
Lemma map_nth_seq {A : Type} (d : A) (l : list A) : forall (n : nat),
  (n <= length l)%nat ->
  map (fun k => nth k l d) (seq 0 n) = firstn n l.
Proof.
  induction l as [|a l IH]; intros n Hn.
  - simpl in Hn. replace n with 0%nat by lia. reflexivity.
  - destruct n as [|n]; [reflexivity|].
    simpl. f_equal. rewrite <- seq_shift, map_map.
    apply IH. simpl in Hn. lia.
Qed.

Lemma map_at_index_range {B : Type} (f : byte -> B) (source : list byte) (lo hi : Z) :
  0 <= lo <= hi -> hi <= Z.of_nat (length source) ->
  map (fun j => f (at_index source j)) (range lo hi)
  = map f (firstn (Z.to_nat (hi - lo)) (skipn (Z.to_nat lo) source)).
Proof.
  intros Hlo Hhi. unfold range, at_index. rewrite map_map.
  rewrite <- (map_nth_seq Byte.x00) by (rewrite length_skipn; lia).
  rewrite map_map. apply map_ext. intros k.
  rewrite nth_skipn. f_equal. f_equal. lia.
Qed.

Lemma range_succ (n : Z) : 0 <= n -> range 0 (n + 1) = range 0 n ++ [n].
Proof.
  intros Hn. unfold range.
  replace (Z.to_nat (n + 1 - 0)) with (S (Z.to_nat (n - 0))) by lia.
  rewrite seq_S, map_app. simpl. f_equal. f_equal. lia.
Qed.

Lemma firstn_add {A : Type} (l : list A) (a b : nat) :
  firstn (a + b) l = firstn a l ++ firstn b (skipn a l).
Proof.
  revert l. induction a as [|a IH]; intros l; [reflexivity|].
  destruct l as [|x l]; [simpl; rewrite firstn_nil; reflexivity|].
  simpl. f_equal. apply IH.
Qed.

Lemma concat_chunks (source : list byte) (k : Z) :
  0 <= k ->
  concat (map (chunk source) (range 0 k))
  = firstn (Z.to_nat (Z.min (k * blockSize) (Z.of_nat (length source)))) source.
Proof.
  intros Hk. pattern k. apply natlike_ind; [| |exact Hk].
  - change (range 0 0) with (@nil Z). rewrite Z.min_l by lia. reflexivity.
  - clear k Hk. intros k Hk IH. unfold Z.succ.
    rewrite range_succ by assumption.
    rewrite map_app, concat_app, IH. simpl. rewrite app_nil_r.
    unfold chunk, blockSize in *.
    set (n := Z.of_nat (length source)) in *.
    destruct (Z.le_gt_cases n (k * 1000000)) as [Hle|Hgt].
    + rewrite !Z.min_r by lia.
      replace (Z.to_nat (n - k * 1000000)) with 0%nat by lia.
      simpl. rewrite app_nil_r. reflexivity.
    + rewrite (Z.min_l (k * 1000000)) by lia.
      replace (Z.to_nat (Z.min ((k + 1) * 1000000) n))
        with (Z.to_nat (k * 1000000)
              + Z.to_nat (Z.min (k * 1000000 + 1000000) n - k * 1000000))%nat
        by lia.
      apply eq_sym, firstn_add.
Qed.

Lemma in_range (lo hi i : Z) : In i (range lo hi) -> lo <= i < hi.
Proof.
  unfold range. rewrite in_map_iff. intros (k & <- & Hk).
  apply in_seq in Hk. lia.
Qed.

Lemma blocks_eq (source : list byte) :
  Z.of_nat (length source) <= 2147483647 * 1000000 ->
  blocks source = range 0 ((Z.of_nat (length source) + 999999) / 1000000).
Proof.
  intros Hn. unfold blocks, numBlocks, divRoundUp, to_size_t, to_int, blockSize.
  set (n := Z.of_nat (length source)) in *.
  assert (H0 : 0 <= n) by lia.
  replace (n + 1000000 - 1) with (n + 999999) by lia.
  rewrite (Z.mod_small (n + 999999)) by lia.
  pose proof (Z.div_mod (n + 999999) 1000000 ltac:(lia)) as Hd.
  pose proof (Z.mod_pos_bound (n + 999999) 1000000 ltac:(lia)) as Hm.
  set (q := (n + 999999) / 1000000) in *.
  rewrite (Z.mod_small (q + 2 ^ 31)) by lia.
  replace (q + 2 ^ 31 - 2 ^ 31) with q by lia.
  rewrite Z.mod_small by lia. reflexivity.
Qed.

Lemma hd_firstn_skipn {A : Type} (d : A) (l : list A) (a k : nat) :
  (0 < k)%nat -> hd d (firstn k (skipn a l)) = nth a l d.
Proof.
  intros Hk. rewrite <- (Nat.add_0_r a) at 2. rewrite <- nth_skipn.
  destruct k; [lia|]. destruct (skipn a l); reflexivity.
Qed.

(** Block [i] computes the range of its elements, started at the first. *)
Lemma block_range_eq (source : list byte) (i : Z) :
  Z.of_nat (length source) <= 2147483647 * 1000000 ->
  0 <= i < (Z.of_nat (length source) + 999999) / 1000000 ->
  chunk source i <> []
  /\ block_range source i
     = Vec2f.mk
         (fold_left (pick F32.ltb) (map float_of_uchar (chunk source i))
            (hd F32.zero (map float_of_uchar (chunk source i))))
         (fold_left (pick gtb) (map float_of_uchar (chunk source i))
            (hd F32.zero (map float_of_uchar (chunk source i)))).
Proof.
  intros Hn Hi.
  set (n := Z.of_nat (length source)) in *.
  pose proof (Z.div_mod (n + 999999) 1000000 ltac:(lia)) as Hd.
  pose proof (Z.mod_pos_bound (n + 999999) 1000000 ltac:(lia)) as Hm.
  set (q := (n + 999999) / 1000000) in *.
  assert (Hlt : i * 1000000 < n) by lia.
  assert (Hne : chunk source i <> []).
  { unfold chunk, blockSize. fold n.
    intros E. apply (f_equal (@length byte)) in E.
    rewrite length_firstn, length_skipn in E. simpl in E. lia. }
  split; [exact Hne|].
  unfold block_range, to_size_t, blockSize. fold n.
  rewrite (Z.mod_small (i * 1000000)) by lia.
  rewrite (Z.mod_small (i * 1000000 + 1000000)) by lia.
  rewrite (fold_widen (fun j => float_of_uchar (at_index source j))).
  cbn [Vec2f.x Vec2f.y].
  rewrite map_at_index_range by (fold n; lia).
  assert (Hhd : hd F32.zero (map float_of_uchar (chunk source i))
               = float_of_uchar (at_index source (i * 1000000))).
  { unfold at_index. rewrite <- (hd_firstn_skipn Byte.x00 source _
      (Z.to_nat (Z.min (i * 1000000 + 1000000) n - i * 1000000))) by lia.
    change (firstn _ (skipn _ source)) with (chunk source i).
    destruct (chunk source i); [congruence | reflexivity]. }
  rewrite Hhd. reflexivity.
Qed.

Lemma ordered_between (lt : float -> float -> bool) :
  (forall a b c, F32.is_nan b = false -> lt a c = true ->
     lt a b = true \/ lt b c = true) ->
  forall a b c, ordered b = true -> lt a c = true ->
    lt a b = true \/ lt b c = true.
Proof. intros H a b c Hb. apply H, ordered_not_nan, Hb. Qed.

(** One end of the range: merging the blocks in any order gives the
    selection over the whole array. *)
Lemma merge_blocks_any_order (lt : float -> float -> bool)
    (proj : vec2f -> float) (source : list byte) (schedule : list Z) (x : float) :
  (forall a, lt a a = false) ->
  (forall a b c, lt a b = true -> lt b c = true -> lt a c = true) ->
  (forall a b c, F32.is_nan b = false -> lt a c = true ->
     lt a b = true \/ lt b c = true) ->
  (forall a b, ordered a = true -> ordered b = true ->
     lt a b = false -> lt b a = false -> a = b) ->
  (forall i, 0 <= i < (Z.of_nat (length source) + 999999) / 1000000 ->
     proj (block_range source i)
     = fold_left (pick lt) (map float_of_uchar (chunk source i))
         (hd F32.zero (map float_of_uchar (chunk source i)))) ->
  Z.of_nat (length source) <= 2147483647 * 1000000 ->
  Permutation schedule (blocks source) ->
  fold_left (pick lt) (map (fun i => proj (block_range source i)) schedule) x
  = fold_left (pick lt) (map float_of_uchar source) x.
Proof.
  intros Hirr Htr Hbt Has Hproj Hn Hperm.
  rewrite blocks_eq in Hperm by assumption.
  set (n := Z.of_nat (length source)) in *.
  set (q := (n + 999999) / 1000000) in *.
  pose proof (ordered_between lt Hbt) as Hbt'.
  assert (Hparts : Forall (fun p => p <> [] /\ Forall (fun v => ordered v = true) p)
                     (map (fun i => map float_of_uchar (chunk source i)) (range 0 q))).
  { apply Forall_forall. intros p Hp. apply in_map_iff in Hp.
    destruct Hp as (i & <- & Hi). apply in_range in Hi.
    destruct (block_range_eq source i Hn Hi) as [Hne _]. split.
    - destruct (chunk source i); [congruence | discriminate].
    - apply Forall_forall. intros v Hv. apply in_map_iff in Hv.
      destruct Hv as (c & <- & _). apply float_of_uchar_ordered. }
  assert (Hmins : map (fun i => proj (block_range source i)) (range 0 q)
                  = map (fun p => fold_left (pick lt) p (hd F32.zero p))
                      (map (fun i => map float_of_uchar (chunk source i))
                         (range 0 q))).
  { rewrite map_map. apply map_ext_in. intros i Hi. apply in_range in Hi.
    apply Hproj, Hi. }
  assert (Hok : Forall (fun v => ordered v = true)
                  (map (fun i => proj (block_range source i)) (range 0 q))).
  { rewrite Hmins. apply Forall_forall. intros v Hv. apply in_map_iff in Hv.
    destruct Hv as (p & <- & Hp).
    rewrite Forall_forall in Hparts. destruct (Hparts p Hp) as [Hne Hall].
    apply (fold_pick_ok float lt ordered); [assumption|].
    destruct p as [|v p]; [congruence|]. inversion Hall; assumption. }
  rewrite (fold_pick_perm float lt ordered Hirr Htr Hbt' Has
             (map (fun i => proj (block_range source i)) schedule)
             (map (fun i => proj (block_range source i)) (range 0 q))).
  - rewrite Hmins.
    rewrite <- (fold_pick_concat float lt ordered Hirr Htr Hbt' F32.zero)
      by assumption.
    f_equal. rewrite <- (map_map (chunk source) (map float_of_uchar)).
    rewrite <- concat_map. f_equal.
    pose proof (Z.div_mod (n + 999999) 1000000 ltac:(lia)) as Hd.
    pose proof (Z.mod_pos_bound (n + 999999) 1000000 ltac:(lia)) as Hm.
    fold q in Hd.
    rewrite (concat_chunks source q) by lia.
    fold n. unfold blockSize.
    rewrite Z.min_r by lia. unfold n. rewrite Nat2Z.id. apply firstn_all.
  - apply Permutation_map. assumption.
  - eapply Permutation_Forall; [|exact Hok].
    apply Permutation_map, Permutation_sym. assumption.
Qed.

(** The parallel computation as two folds over the voxels. *)
Lemma parallel_folds (schedule : list Z) (voxelRange : vec2f)
    (source : list byte) :
  Z.of_nat (length source) <= 2147483647 * 1000000 ->
  Permutation schedule (blocks source) ->
  computeVoxelRange_uchar schedule voxelRange source
  = Vec2f.mk
      (fold_left (pick F32.ltb) (map float_of_uchar source) (Vec2f.x voxelRange))
      (fold_left (pick gtb) (map float_of_uchar source) (Vec2f.y voxelRange)).
Proof.
  intros Hn Hperm.
  unfold computeVoxelRange_uchar.
  rewrite fold_merge. f_equal.
  - apply (merge_blocks_any_order F32.ltb Vec2f.x); try assumption.
    + exact ltb_irrefl.
    + exact ltb_trans.
    + exact ltb_between.
    + exact ltb_antisym.
    + intros i Hi. destruct (block_range_eq source i Hn Hi) as [_ ->]. reflexivity.
  - apply (merge_blocks_any_order gtb Vec2f.y); try assumption.
    + intros a. apply ltb_irrefl.
    + exact gtb_trans.
    + exact gtb_between.
    + exact gtb_antisym.
    + intros i Hi. destruct (block_range_eq source i Hn Hi) as [_ ->]. reflexivity.
Qed.

(** X9.  [computeVoxelRange] over unsigned byte voxels returns, whatever
    the order in which its blocks take the mutex, the range of the single
    loop it replaces (the [#else] branch): the range it started from
    widened by every voxel. *)
Theorem voxel_range_any_schedule (schedule : list Z) (voxelRange : vec2f)
    (source : list byte) :
  Z.of_nat (length source) <= 2147483647 * 1000000 ->
  Permutation schedule (blocks source) ->
  computeVoxelRange_uchar schedule voxelRange source
  = computeVoxelRange_uchar_serial voxelRange source.
Proof.
  intros Hn Hperm.
  rewrite (parallel_folds schedule voxelRange source Hn Hperm).
  unfold computeVoxelRange_uchar_serial.
  rewrite fold_widen. reflexivity.
Qed.

End VoxelBlocks.

Section VoxelBytes.

Import Volume.

Lemma float_of_uchar_mono (c d : byte) :
  (Byte.to_N c < Byte.to_N d)%N ->
  (float_of_uchar c <? float_of_uchar d)%f32 = true.
Proof.
  intros Hlt.
  assert (forallb (fun n =>
            forallb (fun m =>
              implb (n <? m)%nat
                (binary_normalize F32.prec F32.emax (Z.of_nat n) 0 false
                 <? binary_normalize F32.prec F32.emax (Z.of_nat m) 0 false)%f32)
              (seq 0 256))
            (seq 0 256) = true) as Hall by (vm_compute; reflexivity).
  rewrite forallb_forall in Hall.
  pose proof (Byte.to_N_bounded c) as Hc. pose proof (Byte.to_N_bounded d) as Hd.
  specialize (Hall (N.to_nat (Byte.to_N c))
                ltac:(apply in_seq; lia)).
  rewrite forallb_forall in Hall.
  specialize (Hall (N.to_nat (Byte.to_N d))
                ltac:(apply in_seq; lia)).
  rewrite !N_nat_Z in Hall.
  assert ((N.to_nat (Byte.to_N c) <? N.to_nat (Byte.to_N d))%nat = true) as E
    by (apply Nat.ltb_lt; lia).
  rewrite E in Hall. exact Hall.
Qed.

Lemma float_of_uchar_not_nan (c : byte) :
  negb (F32.is_nan (float_of_uchar c)) = true.
Proof. destruct c; reflexivity. Qed.

(** The fold of [pick] over the bytes, from a start that every byte is
    before, is the number of a byte that no byte is before. *)
Lemma fold_pick_least (lt : float -> float -> bool) (source : list byte)
    (x : float) :
  (forall a, lt a a = false) ->
  (forall a b, lt a b = true
     -> negb (F32.is_nan a) = true /\ negb (F32.is_nan b) = true) ->
  (forall a b c, lt a b = true -> lt b c = true -> lt a c = true) ->
  (forall a b c, negb (F32.is_nan b) = true -> lt a c = true
     -> lt a b = true \/ lt b c = true) ->
  source <> [] ->
  (forall c, In c source -> lt (float_of_uchar c) x = true) ->
  exists m,
    In m source
    /\ fold_left (pick lt) (map float_of_uchar source) x = float_of_uchar m
    /\ (forall c, In c source
          -> lt (float_of_uchar c) (float_of_uchar m) = false).
Proof.
  intros Hirr Hnn Htr Hbt Hne Hstart.
  assert (negb (F32.is_nan x) = true) as Hx.
  { destruct source as [ | c0 source' ]; [ contradiction | ].
    apply (Hnn _ _ (Hstart c0 (or_introl eq_refl))). }
  destruct (fold_pick_bounds lt (fun a => negb (F32.is_nan a)) Hirr Hnn Htr Hbt
              (map float_of_uchar source) x Hx) as (_ & _ & Hall).
  pose proof (fold_pick_attained lt (map float_of_uchar source) x) as Hatt.
  cbv zeta in Hall, Hatt.
  set (r := fold_left (pick lt) (map float_of_uchar source) x) in *.
  assert (In r (map float_of_uchar source)) as Hin.
  { destruct Hatt as [Hrx | Hin]; [ | exact Hin ].
    destruct source as [ | c0 source' ]; [ contradiction | ].
    specialize (Hall (float_of_uchar c0) (or_introl eq_refl)).
    rewrite Hrx in Hall. rewrite (Hstart c0 (or_introl eq_refl)) in Hall.
    discriminate Hall. }
  apply in_map_iff in Hin. destruct Hin as (m & Hm & Hin).
  exists m. split; [ exact Hin | ]. split; [ symmetry; exact Hm | ].
  intros c Hc. rewrite Hm. apply Hall. apply in_map. exact Hc.
Qed.

(** X10.  [computeVoxelRange] over unsigned byte voxels, on a volume that is
    not empty and from a range whose lower end is above 255 and whose upper
    end is below 0, returns the least and the greatest voxel as floats,
    whatever the order in which the blocks take the mutex. *)
Theorem voxel_range_of_bytes (schedule : list Z) (voxelRange : vec2f)
    (source : list byte) :
  Z.of_nat (length source) <= 2147483647 * 1000000 ->
  Permutation schedule (blocks source) ->
  source <> [] ->
  (float_of_uchar Byte.xff <? Vec2f.x voxelRange)%f32 = true ->
  (Vec2f.y voxelRange <? float_of_uchar Byte.x00)%f32 = true ->
  exists lo hi : byte,
    In lo source /\ In hi source
    /\ (forall c, In c source ->
          (Byte.to_N lo <= Byte.to_N c <= Byte.to_N hi)%N)
    /\ computeVoxelRange_uchar schedule voxelRange source
       = Vec2f.mk (float_of_uchar lo) (float_of_uchar hi).
Proof.
  intros Hn Hperm Hne Hx Hy.
  rewrite (parallel_folds schedule voxelRange source Hn Hperm).
  destruct (fold_pick_least F32.ltb source (Vec2f.x voxelRange)
              ltb_irrefl ltb_nn ltb_trans ltb_between' Hne)
    as (lo & Hlo & Elo & Hleast).
  { intros c _.
    destruct (ltb_between' (float_of_uchar Byte.xff) (float_of_uchar c)
                (Vec2f.x voxelRange) (float_of_uchar_not_nan c) Hx)
      as [H | H]; [ | exact H ].
    destruct c; discriminate H. }
  destruct (fold_pick_least gtb source (Vec2f.y voxelRange)
              (fun a => ltb_irrefl a) gtb_nn gtb_trans gtb_between' Hne)
    as (hi & Hhi & Ehi & Hgreatest).
  { intros c _. unfold gtb.
    destruct (ltb_between' (Vec2f.y voxelRange) (float_of_uchar c)
                (float_of_uchar Byte.x00) (float_of_uchar_not_nan c) Hy)
      as [H | H]; [ exact H | ].
    destruct c; discriminate H. }
  exists lo, hi. split; [ exact Hlo | ]. split; [ exact Hhi | ].
  split; [ | f_equal; [ exact Elo | exact Ehi ] ].
  intros c Hc. split.
  - destruct (N.le_gt_cases (Byte.to_N lo) (Byte.to_N c)) as [H | H];
      [ exact H | ].
    specialize (Hleast c Hc).
    rewrite (float_of_uchar_mono c lo H) in Hleast.
    discriminate Hleast.
  - destruct (N.le_gt_cases (Byte.to_N c) (Byte.to_N hi)) as [H | H];
      [ exact H | ].
    specialize (Hgreatest c Hc). unfold gtb in Hgreatest.
    rewrite (float_of_uchar_mono hi c H) in Hgreatest.
    discriminate Hgreatest.
Qed.

End VoxelBytes.

(** * The voxel type *)

Section VoxelTypeFacts.

Import VoxelType.
Import String.StringSyntax.
Local Open Scope string_scope.

Lemma c_str_prefix (s : string) :
  exists tail, s = String.append (c_str s) tail
    /\ (tail = String.EmptyString <-> without is_nul s = true).
Proof.
  induction s as [ | c s' IH ].
  - exists String.EmptyString. split; [ reflexivity | ].
    split; reflexivity.
  - cbn [c_str without]. destruct (is_nul c) eqn:E.
    + exists (String.String c s'). split; [ reflexivity | ].
      cbn [negb andb]. split; intros H; discriminate H.
    + destruct IH as (tail & Hs & Ht). exists tail. split.
      * cbn [String.append]. rewrite <- Hs. reflexivity.
      * cbn [negb andb]. exact Ht.
Qed.

Lemma scanset_append (s : string) :
  s = String.append (fst (scanset s)) (snd (scanset s))
  /\ without is_digit (fst (scanset s)) = true
  /\ (snd (scanset s) = String.EmptyString <-> without is_digit s = true).
Proof.
  induction s as [ | c s' IH ].
  - repeat split; reflexivity.
  - cbn [scanset without]. destruct (is_digit c) eqn:E.
    + cbn [fst snd String.append negb andb]. repeat split.
      * intros H. discriminate H.
      * intros H. discriminate H.
    + destruct (scanset s') as [kind rest]. cbn [fst snd] in *.
      destruct IH as (Hs & Hk & Hr).
      cbn [String.append without negb andb]. rewrite E. cbn [negb andb].
      rewrite <- Hs. repeat split; [ exact Hk | apply Hr | apply Hr ].
Qed.

Lemma length_append (a b : string) :
  String.length (String.append a b) = (String.length a + String.length b)%nat.
Proof.
  induction a as [ | c a' IH ]; [ reflexivity | ].
  cbn [String.append String.length]. rewrite IH. reflexivity.
Qed.

Lemma append_assoc (a b c : string) :
  String.append (String.append a b) c = String.append a (String.append b c).
Proof.
  induction a as [ | x a' IH ]; [ reflexivity | ].
  cbn [String.append]. rewrite IH. reflexivity.
Qed.

Lemma length_zero (a : string) : String.length a = 0%nat -> a = String.EmptyString.
Proof. destruct a; [ reflexivity | intros H; discriminate H ]. Qed.

Lemma without_c_str (p : ascii -> bool) (s : string) :
  without is_nul s = true -> c_str s = s.
Proof.
  induction s as [ | c s' IH ]; [ reflexivity | ].
  cbn [without c_str]. destruct (is_nul c); cbn [negb andb].
  - intros H. discriminate H.
  - intros H. rewrite (IH H). reflexivity.
Qed.

(** The shape of a string on which the scan stays inside [kind]. *)
Lemma scan_shape (s : string) :
  let kind := fst (scanset (c_str s)) in
  exists rest,
    s = String.append kind rest
    /\ (rest = String.EmptyString
        <-> without is_nul s = true /\ without is_digit s = true).
Proof.
  cbv zeta.
  destruct (c_str_prefix s) as (tail & Hs & Ht).
  destruct (scanset_append (c_str s)) as (Hc & Hk & Hr).
  exists (String.append (snd (scanset (c_str s))) tail). split.
  - rewrite <- append_assoc, <- Hc. exact Hs.
  - split.
    + intros H.
      assert (snd (scanset (c_str s)) = String.EmptyString
              /\ tail = String.EmptyString) as [H1 H2].
      { destruct (snd (scanset (c_str s))); [ | discriminate H ].
        split; [ reflexivity | exact H ]. }
      apply Ht in H2. apply Hr in H1.
      rewrite (without_c_str is_nul s H2) in H1. split; assumption.
    + intros [H1 H2].
      rewrite (without_c_str is_nul s H1) in Hr |- *.
      apply Ht in H1. apply Hr in H2. rewrite H1, H2. reflexivity.
Qed.

(** X11.  [getVoxelType]: [kind] has room for the characters of
    [voxelType] and none for the NUL that ends a string, so the scan stores
    one character past its end exactly when [voxelType] is not empty and
    holds neither a digit nor a NUL, as do the names [uchar], [float] and
    [double] on their own. *)
Theorem voxel_type_overrun (voxelType : string) :
  getVoxelType voxelType = inr WritesPastEnd
  <-> voxelType <> String.EmptyString
      /\ without is_nul voxelType = true
      /\ without is_digit voxelType = true.
Proof.
  unfold getVoxelType. cbv zeta.
  destruct (scan_shape voxelType) as (rest & Hs & Hrest). cbv zeta in Hs, Hrest.
  destruct (scanset (c_str voxelType)) as [kind rest'] eqn:Escan.
  cbn [fst] in Hs.
  assert (Z.of_nat (String.length voxelType)
          = Z.of_nat (String.length kind) + Z.of_nat (String.length rest)) as Hlen.
  { rewrite Hs at 1. rewrite length_append. lia. }
  destruct kind as [ | c kind' ].
  - split.
    + intros H. discriminate H.
    + intros (Hne & Hnul & Hdig).
      destruct Hrest as [_ Hrest]. specialize (Hrest (conj Hnul Hdig)).
      rewrite Hrest in Hs. cbn in Hs. contradiction.
  - set (kind := String.String c kind') in *.
    destruct (Z.ltb_spec (Z.of_nat (String.length voxelType))
                (Z.of_nat (String.length kind) + 1)) as [Hlt | Hge].
    + split; [ intros _ | reflexivity ].
      assert (rest = String.EmptyString) as Hr by (apply length_zero; lia).
      apply Hrest in Hr. destruct Hr as [Hnul Hdig].
      split; [ | split; assumption ].
      rewrite Hs. subst kind. intros H. discriminate H.
    + split.
      * intros H.
        destruct rest' as [ | ? ? ]; [ discriminate H | ].
        destruct (digits _ 0 <? 2 ^ 32); discriminate H.
      * intros (_ & Hnul & Hdig).
        destruct Hrest as [_ Hrest]. specialize (Hrest (conj Hnul Hdig)).
        rewrite Hrest in Hlen. cbn [String.length] in Hlen. lia.
Qed.

Lemma inl_inj (a b : OSPDataType) : @inl _ Undefined a = inl b -> a = b.
Proof. intros E. injection E as E. exact E. Qed.

Lemma classify_known (kind : string) (width : Z) (res : OSPDataType) :
  (if String.eqb kind "double" && (width =? 1) then OSP_DOUBLE
   else if String.eqb kind "float" && (width =? 1) then OSP_FLOAT
   else if String.eqb kind "uchar" && (width =? 1) then OSP_UCHAR
   else OSP_UNKNOWN) = res ->
  res <> OSP_UNKNOWN ->
  kind = name res.
Proof.
  intros H Hknown.
  destruct (String.eqb kind "double" && (width =? 1)) eqn:Ed.
  { apply andb_prop in Ed. destruct Ed as [Ed _].
    apply String.eqb_eq in Ed. rewrite <- H. exact Ed. }
  destruct (String.eqb kind "float" && (width =? 1)) eqn:Ef.
  { apply andb_prop in Ef. destruct Ef as [Ef _].
    apply String.eqb_eq in Ef. rewrite <- H. exact Ef. }
  destruct (String.eqb kind "uchar" && (width =? 1)) eqn:Eu.
  { apply andb_prop in Eu. destruct Eu as [Eu _].
    apply String.eqb_eq in Eu. rewrite <- H. exact Eu. }
  congruence.
Qed.

(** X12.  [getVoxelType]: when it returns a known type, [voxelType] is the
    name of that type followed by at least one more character: a name on
    its own is never recognised, and the type returned is the one named. *)
Theorem voxel_type_needs_suffix (voxelType : string) (res : OSPDataType) :
  getVoxelType voxelType = inl res ->
  res <> OSP_UNKNOWN ->
  exists rest,
    voxelType = String.append (name res) rest /\ rest <> String.EmptyString.
Proof.
  unfold getVoxelType. cbv zeta.
  destruct (scan_shape voxelType) as (rest & Hs & Hrest). cbv zeta in Hs, Hrest.
  destruct (scanset (c_str voxelType)) as [kind rest'] eqn:Escan.
  cbn [fst] in Hs.
  assert (Z.of_nat (String.length voxelType)
          = Z.of_nat (String.length kind) + Z.of_nat (String.length rest)) as Hlen.
  { rewrite Hs at 1. rewrite length_append. lia. }
  destruct kind as [ | c kind' ]; [ intros H; discriminate H | ].
  set (kind := String.String c kind') in *.
  destruct (Z.ltb_spec (Z.of_nat (String.length voxelType))
              (Z.of_nat (String.length kind) + 1)) as [Hlt | Hge];
    [ intros H; discriminate H | ].
  assert (rest <> String.EmptyString) as Hne.
  { intros H. rewrite H in Hlen. cbn [String.length] in Hlen. lia. }
  set (width := match rest' with
                | String.EmptyString => Some 1
                | _ => _ end).
  destruct width as [ width | ]; [ | intros H; discriminate H ].
  intros H Hknown. exists rest. split; [ | exact Hne ].
  rewrite Hs at 1. f_equal.
  apply (classify_known kind width); [ | exact Hknown ].
  apply inl_inj. exact H.
Qed.

End VoxelTypeFacts.

(** * The sphere geometry *)

Section SpheresFacts.

Import Geometry.

Context {L : Library}.

Lemma int32_small (a : Z) : - 2 ^ 31 <= a < 2 ^ 31 -> int32 a = a.
Proof.
  intros H. unfold int32.
  rewrite Z.mod_small by lia. lia.
Qed.

Lemma int64_small (a : Z) : - 2 ^ 63 <= a < 2 ^ 63 -> int64 a = a.
Proof.
  intros H. unfold int64.
  rewrite Z.mod_small by lia. lia.
Qed.

(** The address a program instance reads is the one of its own sphere,
    whether the gang goes through the pages or not. *)
Lemma getMaterialID_lane_address (mem : Memory) (self : Spheres) (paged : bool)
    (p : Z) :
  0 <= offset_materialID self ->
  0 <= stride self < 2 ^ 31 ->
  0 <= p < 2 ^ 31 ->
  (paged = false -> stride self * p < 2 ^ 31) ->
  (paged = true -> stride self <= 32 \/ stride self * p < 2 ^ 31) ->
  getMaterialID_lane mem self paged p
  = int32 (load_uint32 mem (data self + stride self * p + offset_materialID self)).
Proof.
  intros Ho Hs Hp Hdirect Hpaged. unfold getMaterialID_lane.
  destruct (Z.leb_spec 0 (offset_materialID self)) as [_ | Hneg]; [ | lia ].
  destruct paged.
  - cbv zeta.
    rewrite Z.quot_div_nonneg by (unfold primsPerPage; lia).
    rewrite Z.rem_mod_nonneg by (unfold primsPerPage; lia).
    pose proof (Z.div_mod p primsPerPage ltac:(unfold primsPerPage; lia)) as Hd.
    pose proof (Z.mod_pos_bound p primsPerPage ltac:(unfold primsPerPage; lia)) as Hm.
    assert (0 <= p / primsPerPage) as Hq
      by (apply Z.div_pos; unfold primsPerPage; lia).
    set (q := p / primsPerPage) in *. set (l := p mod primsPerPage) in *.
    assert (primsPerPage = 2 ^ 26) as Hppp by reflexivity.
    assert (0 <= q * primsPerPage <= p) as Hqp by nia.
    rewrite (int64_small (q * primsPerPage)) by lia.
    assert (0 <= q * primsPerPage * stride self < 2 ^ 62) as Hqs by nia.
    rewrite (int64_small (q * primsPerPage * stride self)) by lia.
    assert (0 <= stride self * l < 2 ^ 31) as Hsl.
    { destruct (Hpaged eq_refl) as [H32 | Hsp]; nia. }
    rewrite (int32_small (stride self * l)) by lia.
    assert (stride self * p = q * primsPerPage * stride self + stride self * l)
      as E by (rewrite Hd at 1; ring).
    rewrite E. do 2 f_equal. ring.
  - cbv zeta.
    rewrite (int32_small (stride self * p)) by (specialize (Hdirect eq_refl); nia).
    reflexivity.
Qed.

(** X13.  [Spheres_getMaterialID]: with a material offset in the sphere
    records, every program instance of the gang gets the material identifier
    stored in its own sphere, at [data + stride * primID + offset_materialID],
    whatever the primitives of the other program instances are and whether
    the gang goes through the pages of [primsPerPage] spheres or not,
    provided the stride is at most 32 bytes or the byte offset of the sphere
    fits 31 bits. *)
Theorem material_id_of_own_sphere (mem : Memory) (self : Spheres)
    (primIDs : list Z) :
  0 <= offset_materialID self ->
  0 <= stride self < 2 ^ 31 ->
  Forall (fun p => 0 <= p < 2 ^ 31 /\
                   (stride self <= 32 \/ stride self * p < 2 ^ 31)) primIDs ->
  Spheres_getMaterialID mem self primIDs
  = map (fun p => int32 (load_uint32 mem
                   (data self + stride self * p + offset_materialID self)))
        primIDs.
Proof.
  intros Ho Hs Hall. unfold Spheres_getMaterialID. cbv zeta.
  set (paged := existsb _ primIDs).
  assert (paged = false -> Forall (fun p => p < primsPerPage) primIDs) as Hnone.
  { intros Hp. apply Forall_forall. intros p Hin.
    destruct (Z.leb_spec primsPerPage p) as [Hge | Hlt]; [ | exact Hlt ].
    assert (paged = true) as Ht.
    { apply existsb_exists. exists p. split; [ exact Hin | ].
      apply Z.leb_le. exact Hge. }
    congruence. }
  apply map_ext_in. intros p Hin.
  rewrite Forall_forall in Hall. destruct (Hall p Hin) as [Hp Hor].
  apply getMaterialID_lane_address; try assumption.
  - intros Hf. specialize (Hnone Hf). rewrite Forall_forall in Hnone.
    specialize (Hnone p Hin). unfold primsPerPage in Hnone.
    destruct Hor as [H32 | Hsp]; nia.
  - intros _. exact Hor.
Qed.

(** X14.  [Spheres_getMaterialID]: without a material offset
    ([offset_materialID < 0]) every program instance gets the material of
    the geometry and memory is not read. *)
Theorem material_id_default (mem mem' : Memory) (self : Spheres)
    (primIDs : list Z) :
  offset_materialID self < 0 ->
  Spheres_getMaterialID mem self primIDs
  = map (fun _ => materialID self) primIDs
  /\ Spheres_getMaterialID mem self primIDs
     = Spheres_getMaterialID mem' self primIDs.
Proof.
  intros Hneg. unfold Spheres_getMaterialID, getMaterialID_lane. cbv zeta.
  destruct (Z.leb_spec 0 (offset_materialID self)) as [Hge | _]; [ lia | ].
  split; reflexivity.
Qed.

Variable sqrt : float -> float.
Variable rcpf : float -> float.

(** What a hit of the kernel leaves in the ray is [ray] itself, or one of
    the two rays of a hit. *)
Lemma kernel_cases (mem : Memory) (self : Spheres) (valid : bool)
    (args_primID args_instID : Z) (isOcclusionTest : bool) (ray : Ray) :
  let r := Spheres_intersect_kernel sqrt rcpf mem self valid args_primID
             args_instID isOcclusionTest ray in
  r = ray \/
  (valid = true /\
   exists t' center,
     (t' <? t ray)%f32 = true /\
     ((t0 ray <? t')%f32 = true \/ (t0 ray + epsilon self <? t')%f32 = true) /\
     r = if isOcclusionTest then
           {| org := org ray; dir := dir ray; t0 := t0 ray; t := neg_inf;
              Ng := Ng ray; primID := primID ray;
              ray_geomID := ray_geomID ray; instID := instID ray |}
         else
           {| org := org ray; dir := dir ray; t0 := t0 ray; t := t';
              Ng := vsub (vadd (org ray) (vscale_l t' (dir ray))) center;
              primID := int32 (uint32 args_primID);
              ray_geomID := geomID self; instID := args_instID |}).
Proof.
  cbv zeta. unfold Spheres_intersect_kernel.
  destruct valid; [ | left; reflexivity ].
  cbn [negb]. cbv zeta.
  match goal with |- context [if (?x <? F32.zero)%f32 then _ else _] =>
    destruct (x <? F32.zero)%f32 end; [ left; reflexivity | ].
  match goal with
  |- context [if (?a && ?b) then _ else if (?c && ?d) then _ else _] =>
    destruct (a && b) eqn:Ein;
    [ apply andb_prop in Ein; destruct Ein as [Ea Eb]
    | destruct (c && d) eqn:Eout;
      [ apply andb_prop in Eout; destruct Eout as [Ec Ed]
      | left; reflexivity ] ]
  end;
  right; (split; [ reflexivity | ]); do 2 eexists;
  (split; [ eassumption | ]);
  (split; [ first [ left; eassumption | right; eassumption ] | reflexivity ]).
Qed.

(** X15.  [Spheres_intersect]: the call leaves the ray as it was (a program
    instance that is not valid, a negative radical, no root inside the
    interval of the ray), or it records a hit: origin, direction and [t0]
    are kept, the new [t] is strictly below the old one and above [t0] or
    above [t0 + epsilon], and the identifiers are those of the primitive,
    of the geometry and of the instance. *)
Theorem intersect_shortens_ray (mem : Memory) (self : Spheres) (valid : bool)
    (args_primID args_instID : Z) (ray : Ray) :
  let r := Spheres_intersect sqrt rcpf mem self valid args_primID args_instID
             ray in
  r = ray \/
  (valid = true /\
   org r = org ray /\ dir r = dir ray /\ t0 r = t0 ray /\
   (t r <? t ray)%f32 = true /\
   ((t0 ray <? t r)%f32 = true \/ (t0 ray + epsilon self <? t r)%f32 = true) /\
   primID r = int32 (uint32 args_primID) /\
   ray_geomID r = geomID self /\
   instID r = args_instID).
Proof.
  cbv zeta. unfold Spheres_intersect.
  destruct (kernel_cases mem self valid args_primID args_instID false ray)
    as [H | (Hv & t' & center & Hlt & Habove & H)].
  - left. exact H.
  - right. rewrite H. cbn. repeat split; assumption.
Qed.

(** X16.  [Spheres_occluded]: the call writes nothing but [t]: every other
    field of the ray is kept, and [t] is kept or set to minus infinity. *)
Theorem occluded_writes_t_only (mem : Memory) (self : Spheres) (valid : bool)
    (args_primID args_instID : Z) (ray : Ray) :
  let r := Spheres_occluded sqrt rcpf mem self valid args_primID args_instID
             ray in
  org r = org ray /\ dir r = dir ray /\ t0 r = t0 ray /\ Ng r = Ng ray /\
  primID r = primID ray /\ ray_geomID r = ray_geomID ray /\
  instID r = instID ray /\
  (t r = t ray \/ t r = neg_inf).
Proof.
  cbv zeta. unfold Spheres_occluded.
  destruct (kernel_cases mem self valid args_primID args_instID true ray)
    as [H | (Hv & t' & center & Hlt & Habove & H)]; rewrite H.
  - repeat split. left. reflexivity.
  - cbn. repeat split. right. reflexivity.
Qed.

Lemma ltb_neg_inf (x : float) : (x <? neg_inf)%f32 = false.
Proof. destruct x as [ [ | ] | [ | ] | | [ | ] m e ]; reflexivity. Qed.

Lemma ltb_nan_r (x : float) : (x <? S754_nan)%f32 = false.
Proof. destruct x as [ [ | ] | [ | ] | | [ | ] m e ]; reflexivity. Qed.

(** X17.  [Spheres_intersect_kernel]: a ray that is already occluded ([t] is
    minus infinity) is left as it is by every later test, of intersection
    or of occlusion, against any sphere. *)
Theorem occluded_ray_stays (mem : Memory) (self : Spheres) (valid : bool)
    (args_primID args_instID : Z) (isOcclusionTest : bool) (ray : Ray) :
  t ray = neg_inf ->
  Spheres_intersect_kernel sqrt rcpf mem self valid args_primID args_instID
    isOcclusionTest ray = ray.
Proof.
  intros Ht.
  destruct (kernel_cases mem self valid args_primID args_instID
              isOcclusionTest ray)
    as [H | (Hv & t' & center & Hlt & Habove & H)]; [ exact H | ].
  rewrite Ht, ltb_neg_inf in Hlt. discriminate Hlt.
Qed.

Variable log : float -> float.

Lemma ltb_round_pos (m e : Z) (l : location) :
  (binary_round_aux F32.prec F32.emax false m e l <? F32.zero)%f32 = false.
Proof.
  unfold binary_round_aux.
  destruct (shr_fexp F32.prec F32.emax m e l) as [mrs' e'].
  match goal with |- context [shr_fexp ?p ?q ?m e' loc_Exact] =>
    destruct (shr_fexp p q m e' loc_Exact) as [mrs'' e''] end.
  destruct (shr_m mrs'') as [ | p | p ]; try reflexivity.
  match goal with |- context [if ?c then _ else _] => destruct c end;
  reflexivity.
Qed.

Ltac round_pos :=
  unfold F32.div, SFdiv; cbn [xorb];
  match goal with |- context [SFdiv_core_binary ?p ?q ?a ?b ?c ?d] =>
    destruct (SFdiv_core_binary p q a b c d) as [ [mz ez] lz ] end;
  apply ltb_round_pos.

Lemma div_negatives (x y : float) :
  (x <? F32.zero)%f32 = true -> (y <? F32.zero)%f32 = true ->
  (F32.div x y <? F32.zero)%f32 = false.
Proof.
  destruct x as [ [ | ] | [ | ] | | [ | ] mx ex ];
  destruct y as [ [ | ] | [ | ] | | [ | ] my ey ];
  intros Hx Hy; try reflexivity;
  try (cbv in Hx; discriminate Hx); try (cbv in Hy; discriminate Hy).
  round_pos.
Qed.

Lemma div_hundred (x : float) :
  (x <? F32.zero)%f32 = false ->
  (F32.div x hundred <? F32.zero)%f32 = false.
Proof.
  destruct x as [ [ | ] | [ | ] | | [ | ] mx ex ];
  intros Hx; try reflexivity; try (cbv in Hx; discriminate Hx).
  unfold hundred. round_pos.
Qed.

(** X18.  [SpheresGeometry_set]: the epsilon it stores is never above a
    hundredth of the radius, and for a radius that is not negative it is
    not negative either, whatever [log] returns. *)
Theorem epsilon_within_radius (geomID_ data_ texcoord_ color_ : Z)
    (color_offset_ color_stride_ color_format_ bytesPerSphere : Z)
    (radius_ : float) (materialID_ : Z)
    (offset_center_ offset_radius_ offset_materialID_ offset_colorID_ : Z)
    (huge_mesh_ : bool) :
  let self := SpheresGeometry_set log geomID_ data_ texcoord_ color_
                color_offset_ color_stride_ color_format_ bytesPerSphere
                radius_ materialID_ offset_center_ offset_radius_
                offset_materialID_ offset_colorID_ huge_mesh_ in
  (F32.div (radius self) hundred <? epsilon self)%f32 = false /\
  ((radius_ <? F32.zero)%f32 = false ->
   (epsilon self <? F32.zero)%f32 = false).
Proof.
  cbv zeta. cbn [SpheresGeometry_set radius epsilon]. unfold set_epsilon.
  cbv zeta.
  set (e := if (log radius_ <? F32.zero)%f32 then _ else _).
  split.
  - destruct (F32.div radius_ hundred <? e)%f32 eqn:E.
    + apply ltb_irrefl.
    + exact E.
  - intros Hr.
    destruct (F32.div radius_ hundred <? e)%f32.
    + apply div_hundred. exact Hr.
    + subst e. destruct (log radius_ <? F32.zero)%f32 eqn:El.
      * apply div_negatives; [ reflexivity | exact El ].
      * exact El.
Qed.

End SpheresFacts.

Section SphereRecords.

Import Geometry.

Context {L : Library}.

Variable sqrt : float -> float.
Variable rcpf : float -> float.

(** X19.  [Spheres_intersect_kernel] and [Spheres_bounds] read nothing of
    the memory but the record of their own sphere: its centre at
    [data + stride * primID + offset_center] and, with a radius offset in
    the records, its radius at [data + stride * primID + offset_radius].
    Two memories that agree there give the same ray and the same box. *)
Theorem reads_own_sphere (mem mem' : Memory) (self : Spheres) (valid : bool)
    (args_primID args_instID : Z) (isOcclusionTest : bool) (ray : Ray) :
  let spherePtr := data self + stride self * args_primID in
  - 2 ^ 31 <= stride self < 2 ^ 31 ->
  0 <= args_primID < 2 ^ 31 ->
  load_vec3f mem (spherePtr + offset_center self)
  = load_vec3f mem' (spherePtr + offset_center self) ->
  (0 <= offset_radius self ->
   load_float mem (spherePtr + offset_radius self)
   = load_float mem' (spherePtr + offset_radius self)) ->
  Spheres_intersect_kernel sqrt rcpf mem self valid args_primID args_instID
    isOcclusionTest ray
  = Spheres_intersect_kernel sqrt rcpf mem' self valid args_primID args_instID
      isOcclusionTest ray
  /\ Spheres_bounds mem self args_primID = Spheres_bounds mem' self args_primID.
Proof.
  cbv zeta. intros Hs Hp Hc Hr.
  assert (uint32 args_primID = args_primID) as Hu
    by (unfold uint32; apply Z.mod_small; lia).
  assert (int32 args_primID = args_primID) as Hi
    by (apply int32_small; lia).
  assert (int64 (stride self * args_primID) = stride self * args_primID) as H64
    by (apply int64_small; nia).
  unfold Spheres_intersect_kernel, Spheres_bounds. cbv zeta.
  rewrite Hu, Hi, H64, Hc.
  destruct (Z.leb_spec 0 (offset_radius self)) as [Hge | Hlt].
  - rewrite (Hr Hge). split; reflexivity.
  - split; reflexivity.
Qed.

End SphereRecords.

Section Colours.

Import Geometry.

Variables DG_COLOR DG_TEXCOORD DG_MATERIALID : Z.
Variables OSP_FLOAT4 OSP_FLOAT3 OSP_FLOAT3A OSP_UCHAR4 : Z.
Variable gather_byte_stride_vec4f : bool -> Z -> Z -> Z -> vec4f.
Variable gather_byte_stride_vec3f : bool -> Z -> Z -> Z -> vec3f.
Variable gather_stride_uint32 : bool -> Z -> Z -> Z -> Z.

Lemma channel_range (n : Z) :
  0 <= n < 256 ->
  (F32.zero <=? F32.div (float_of_uint32 n) two_five_five)%f32
  && (F32.div (float_of_uint32 n) two_five_five <=? F32.one)%f32 = true.
Proof.
  intros Hn.
  assert (forallb (fun k => (F32.zero <=? F32.div (float_of_uint32 (Z.of_nat k)) two_five_five)%f32
                            && (F32.div (float_of_uint32 (Z.of_nat k)) two_five_five <=? F32.one)%f32)
            (seq 0 256) = true) as Hall by (vm_compute; reflexivity).
  rewrite forallb_forall in Hall.
  specialize (Hall (Z.to_nat n)). rewrite Z2Nat.id in Hall by lia.
  apply Hall. apply in_seq. lia.
Qed.

Lemma byte_of_word (r g b a : Z) :
  0 <= r < 256 -> 0 <= g < 256 -> 0 <= b < 256 -> 0 <= a < 256 ->
  let c := r + 256 * g + 65536 * b + 16777216 * a in
  Z.land c 255 = r
  /\ Z.shiftr (Z.land c 65280) 8 = g
  /\ Z.shiftr (Z.land c 16711680) 16 = b
  /\ Z.shiftr (Z.land c 4278190080) 24 = a.
Proof.
  intros Hr Hg Hb Ha. cbv zeta.
  set (c := r + 256 * g + 65536 * b + 16777216 * a).
  assert (forall k, 0 <= k ->
            Z.shiftr (Z.land c (Z.shiftl 255 k)) k = (c / 2 ^ k) mod 256) as H.
  { intros k Hk. rewrite Z.shiftr_land, Z.shiftr_shiftl_l by lia.
    rewrite Z.sub_diag, Z.shiftl_0_r.
    change 255 with (Z.ones 8). rewrite Z.land_ones by lia.
    rewrite Z.shiftr_div_pow2 by lia. reflexivity. }
  pose proof (H 0 ltac:(lia)) as H0. pose proof (H 8 ltac:(lia)) as H8.
  pose proof (H 16 ltac:(lia)) as H16. pose proof (H 24 ltac:(lia)) as H24.
  rewrite Z.shiftr_0_r in H0.
  change (Z.shiftl 255 0) with 255 in H0.
  change (Z.shiftl 255 8) with 65280 in H8.
  change (Z.shiftl 255 16) with 16711680 in H16.
  change (Z.shiftl 255 24) with 4278190080 in H24.
  rewrite H0, H8, H16, H24.
  change (2 ^ 0) with 1. change (2 ^ 8) with 256.
  change (2 ^ 16) with 65536. change (2 ^ 24) with 16777216.
  subst c. repeat split; Z.div_mod_to_equations; lia.
Qed.

(** X20.  [Spheres_postIntersect]: with colours in the format [OSP_UCHAR4]
    the colour it stores is made of the four bytes of the word it gathers,
    the lowest byte first, each byte divided by 255: every channel lies
    between 0 and 1.  The normals are those of the ray. *)
Theorem uchar4_colour (mem : Memory) (self : Spheres) (paged : bool)
    (dg : DifferentialGeometry) (ray : Ray) (flags : Z) (r g b a : Z) :
  let colorID :=
    if 0 <=? offset_colorID self
    then load_uint32 mem (data self + int32 (stride self * primID ray)
                          + offset_colorID self)
    else uint32 (primID ray) in
  let dg' :=
    Spheres_postIntersect DG_COLOR DG_TEXCOORD DG_MATERIALID OSP_FLOAT4
      OSP_FLOAT3 OSP_FLOAT3A OSP_UCHAR4 gather_byte_stride_vec4f
      gather_byte_stride_vec3f gather_stride_uint32 mem self paged dg ray
      flags in
  Z.land flags DG_COLOR <> 0 ->
  color self <> 0 ->
  color_format self = OSP_UCHAR4 ->
  OSP_UCHAR4 <> OSP_FLOAT4 /\ OSP_UCHAR4 <> OSP_FLOAT3
    /\ OSP_UCHAR4 <> OSP_FLOAT3A ->
  0 <= r < 256 -> 0 <= g < 256 -> 0 <= b < 256 -> 0 <= a < 256 ->
  gather_stride_uint32 (huge_mesh self) (color self + color_offset self)
    (color_stride self) colorID
  = r + 256 * g + 65536 * b + 16777216 * a ->
  dg_color dg'
  = {| x4 := F32.div (float_of_uint32 r) two_five_five;
       y4 := F32.div (float_of_uint32 g) two_five_five;
       z4 := F32.div (float_of_uint32 b) two_five_five;
       w4 := F32.div (float_of_uint32 a) two_five_five |}
  /\ ((F32.zero <=? x4 (dg_color dg'))%f32
      && (x4 (dg_color dg') <=? F32.one)%f32
      && (F32.zero <=? y4 (dg_color dg'))%f32
      && (y4 (dg_color dg') <=? F32.one)%f32
      && (F32.zero <=? z4 (dg_color dg'))%f32
      && (z4 (dg_color dg') <=? F32.one)%f32
      && (F32.zero <=? w4 (dg_color dg'))%f32
      && (w4 (dg_color dg') <=? F32.one)%f32 = true)
  /\ dg_Ng dg' = Ng ray /\ dg_Ns dg' = Ng ray.
Proof.
  cbv zeta. intros Hflag Hcolor Hformat (Hn4 & Hn3 & Hn3a) Hr Hg Hb Ha Hword.
  assert (dg_color
            (Spheres_postIntersect DG_COLOR DG_TEXCOORD DG_MATERIALID
               OSP_FLOAT4 OSP_FLOAT3 OSP_FLOAT3A OSP_UCHAR4
               gather_byte_stride_vec4f gather_byte_stride_vec3f
               gather_stride_uint32 mem self paged dg ray flags)
          = {| x4 := F32.div (float_of_uint32 r) two_five_five;
               y4 := F32.div (float_of_uint32 g) two_five_five;
               z4 := F32.div (float_of_uint32 b) two_five_five;
               w4 := F32.div (float_of_uint32 a) two_five_five |}) as Hc.
  { unfold Spheres_postIntersect. cbv zeta.
    destruct (Z.eqb_spec (Z.land flags DG_COLOR) 0) as [E | _];
      [ contradiction | ].
    destruct (Z.eqb_spec (color self) 0) as [E | _]; [ contradiction | ].
    cbn [negb andb].
    rewrite Hformat.
    destruct (Z.eqb_spec OSP_UCHAR4 OSP_FLOAT4) as [E | _];
      [ contradiction | ].
    destruct (Z.eqb_spec OSP_UCHAR4 OSP_FLOAT3) as [E | _];
      [ contradiction | ].
    destruct (Z.eqb_spec OSP_UCHAR4 OSP_FLOAT3A) as [E | _];
      [ contradiction | ].
    cbn [orb]. rewrite Z.eqb_refl. rewrite Hword.
    destruct (byte_of_word r g b a Hr Hg Hb Ha) as (E0 & E8 & E16 & E24).
    cbv zeta in E0, E8, E16, E24. rewrite E0, E8, E16, E24.
    destruct (negb (Z.land flags DG_TEXCOORD =? 0) && negb (texcoord self =? 0));
      destruct (negb (Z.land flags DG_MATERIALID =? 0)); reflexivity. }
  split; [ exact Hc | ]. split.
  - rewrite Hc. cbn [x4 y4 z4 w4].
    pose proof (channel_range r Hr) as Cr. pose proof (channel_range g Hg) as Cg.
    pose proof (channel_range b Hb) as Cb. pose proof (channel_range a Ha) as Ca.
    apply andb_prop in Cr, Cg, Cb, Ca.
    destruct Cr as [-> ->], Cg as [-> ->], Cb as [-> ->], Ca as [-> ->].
    reflexivity.
  - unfold Spheres_postIntersect. cbv zeta.
    repeat match goal with |- context [if ?c then _ else _] => destruct c end;
      split; reflexivity.
Qed.

End Colours.

(** * The facts at concrete inputs *)

Ltac premise_by H tac :=
  match type of H with
  | ?P -> _ =>
      let HP := fresh "HP" in
      assert (HP : P) by tac;
      specialize (H HP); clear HP
  end.

(** A layer over the continuous substrate, seen along the normal, with [u]
    above the probability of the coat: the sample is the proposal of the
    substrate. *)
Lemma sample_keeps_proposal_witness :
  let self := Ref.layer (Ref.matte Ref.quarter) F32.half in
  let r := @MicrofacetSheenLayer_sample Ref.lib Ref.garbage self Ref.up Ref.uv
             F32.half in
  SampleRes.wi r = Ref.up /\ SampleRes.type r = BSDF_DIFFUSE_REFLECTION.
Proof.
  cbv zeta.
  pose proof (@sample_keeps_proposal Ref.lib
                (Ref.layer (Ref.matte Ref.quarter) F32.half) Ref.garbage
                Ref.up Ref.uv F32.half) as H.
  cbv zeta in H. premise H. premise H.
  destruct H as (Hw & Ht & _). rewrite Hw, Ht. split; reflexivity.
Defined.

(** A sheen layer over the lossless glass slab, seen along the normal: the
    evaluation towards [-wo] and the sample that the slab transmits. *)
Lemma transparency_straight_through_witness :
  let self := Ref.layer Ref.glass_bsdf F32.half in
  let t := S754_finite false 14680064 (-24) in
  @MicrofacetSheenLayer_eval Ref.lib self Ref.up (neg Ref.up)
  = EvalRes.mk (Vec3f.mk F32.zero F32.zero F32.zero) F32.zero
  /\ @MicrofacetSheenLayer_sample Ref.lib Ref.garbage self Ref.up Ref.uv F32.half
     = SampleRes.mk (vscale (vscale (vscale Ref.white F32.one) t) (Ref.rcp t))
         (neg Ref.up) F32.inf BSDF_SPECULAR_TRANSMISSION.
Proof.
  cbv zeta.
  pose proof (@transparency_straight_through Ref.lib
                (Ref.layer Ref.glass_bsdf F32.half) Ref.garbage Ref.up Ref.uv
                F32.half) as H.
  cbv zeta in H. premise H. premise H.
  destruct H as (_ & He & Hs).
  premise Hs. premise Hs. premise Hs. premise Hs.
  split.
  - rewrite He. vm_compute. reflexivity.
  - rewrite Hs. vm_compute. reflexivity.
Defined.

(** The lossless glass slab seen along the normal, with [u] above the
    Fresnel term. *)
Lemma thin_dielectric_transparency_witness :
  let cosThetaO := Ref.dot Ref.up (vz (td_frame Ref.glass)) in
  let F := fst (Ref.fresnelDielectricEx cosThetaO (eta Ref.glass)) in
  let r := @ThinDielectric_sample Ref.lib Ref.glass Ref.up Ref.uv F32.half in
  SampleRes.type r = BSDF_SPECULAR_TRANSMISSION
  /\ @ThinDielectric_getTransparency Ref.lib cosThetaO (eta Ref.glass)
       (attenuation Ref.glass)
     = vscale_l (F32.one - F)%f32 (SampleRes.weight r).
Proof.
  cbv zeta.
  pose proof (@thin_dielectric_transparency Ref.lib Ref.glass Ref.up Ref.uv
                F32.half) as H.
  cbv zeta in H. premise H. premise H.
  exact H.
Defined.

(** A sheen layer over the glass slab, evaluated along the normal. *)
Lemma eval_over_thin_dielectric_witness :
  let self := Ref.layer Ref.glass_bsdf F32.half in
  let e := @MicrofacetSheenLayer_eval Ref.lib self Ref.up Ref.up in
  vsame (EvalRes.value e)
    (EvalRes.value (@coat Ref.lib self Ref.up Ref.up))
  /\ F32.same (EvalRes.pdf e)
       (@coatPickProb Ref.lib self Ref.up * Ref.one_over_two_pi)%f32.
Proof.
  cbv zeta.
  pose proof (@eval_over_thin_dielectric Ref.lib
                (Ref.layer Ref.glass_bsdf F32.half) Ref.frame Ref.one_and_half
                (make_vec3f F32.zero) Ref.up Ref.up) as H.
  cbv zeta in H.
  assert (H0 : substrate (Ref.layer Ref.glass_bsdf F32.half)
               = @ThinDielectric_Constructor Ref.lib Ref.frame Ref.one_and_half
                   (make_vec3f F32.zero)) by reflexivity.
  specialize (H H0). premise H. premise H. premise H.
  destruct H as [_ H]. premise H. exact H.
Defined.

(** Two sheen layers over the continuous substrate, sampled along the
    normal. *)
Lemma coated_lobes_declared_witness :
  let c := {| coating_res0 := Ref.garbage; coating_frame := Ref.frame;
              coating_R := Ref.white; coating_roughness := F32.half;
              coating_weight := F32.half |} in
  let b := @coated Ref.lib (fun _ a _ => a) (fun a => a)
             (fun a => {| sheen_alpha := a |}) (Ref.matte Ref.quarter) [c; c] in
  let r := bsdf_sample b Ref.up Ref.uv F32.half in
  is_void r = false
  /\ Z.land (SampleRes.type r) (bsdf_type b) = SampleRes.type r.
Proof.
  cbv zeta.
  assert (Hv : is_void
                 (bsdf_sample
                    (@coated Ref.lib (fun _ a _ => a) (fun a => a)
                       (fun a => {| sheen_alpha := a |}) (Ref.matte Ref.quarter)
                       [ {| coating_res0 := Ref.garbage;
                            coating_frame := Ref.frame;
                            coating_R := Ref.white;
                            coating_roughness := F32.half;
                            coating_weight := F32.half |};
                         {| coating_res0 := Ref.garbage;
                            coating_frame := Ref.frame;
                            coating_R := Ref.white;
                            coating_roughness := F32.half;
                            coating_weight := F32.half |} ])
                    Ref.up Ref.uv F32.half) = false)
    by (vm_compute; reflexivity).
  split; [ exact Hv | ].
  refine (proj2 (proj2 (@coated_lobes_declared Ref.lib (fun _ a _ => a)
                          (fun a => a) (fun a => {| sheen_alpha := a |})
                          (Ref.matte Ref.quarter) _ Ref.frame Ref.one_and_half
                          (make_vec3f F32.zero)))
            _ Ref.up Ref.uv F32.half Hv).
  intros wo s u. cbv zeta. intros _. reflexivity.
Defined.

(** Three float voxels, one of them a NaN, from the empty range. *)
Lemma voxel_range_encloses_witness :
  let source := [F32.one; S754_nan; Ref.quarter] in
  let r := Volume.computeVoxelRange_float (Vec2f.mk F32.inf Ref.minus_inf)
             source in
  (F32.one <? Vec2f.x r)%f32 = false /\ (Vec2f.y r <? F32.one)%f32 = false.
Proof.
  cbv zeta.
  pose proof (voxel_range_encloses (Vec2f.mk F32.inf Ref.minus_inf)
                [F32.one; S754_nan; Ref.quarter]) as H.
  cbv zeta in H. premise H. premise H.
  destruct H as (_ & _ & H & _). apply H. left. reflexivity.
Defined.

(** Two double voxels, 1/3 and 2, from the empty range. *)
Lemma voxel_range_double_encloses_witness :
  let source := [S754_finite false 6004799503160661 (-54);
                 S754_finite false 4503599627370496 (-51)] in
  let r := Volume.computeVoxelRange_double (Vec2f.mk F32.inf Ref.minus_inf)
             source in
  r = Volume.computeVoxelRange_float (Vec2f.mk F32.inf Ref.minus_inf)
        (map Volume.float_of_double source).
Proof.
  cbv zeta.
  pose proof (voxel_range_double_encloses (Vec2f.mk F32.inf Ref.minus_inf)
                [S754_finite false 6004799503160661 (-54);
                 S754_finite false 4503599627370496 (-51)]) as H.
  cbv zeta in H. premise H. premise H.
  destruct H as (H & _). exact H.
Defined.

(** Three byte voxels: one block. *)
Lemma voxel_range_any_schedule_witness :
  let source := [Byte.x07; Byte.x02; Byte.xc8] in
  Volume.computeVoxelRange_uchar [0] (Vec2f.mk F32.inf Ref.minus_inf) source
  = Volume.computeVoxelRange_uchar_serial (Vec2f.mk F32.inf Ref.minus_inf)
      source.
Proof.
  cbv zeta.
  apply (voxel_range_any_schedule [0] (Vec2f.mk F32.inf Ref.minus_inf)
           [Byte.x07; Byte.x02; Byte.xc8]).
  - vm_compute. intros H. discriminate H.
  - vm_compute. apply Permutation_refl.
Defined.

(** The same voxels: the least is 2 and the greatest 200. *)
Lemma voxel_range_of_bytes_witness :
  exists lo hi : Byte.byte,
    In lo [Byte.x07; Byte.x02; Byte.xc8] /\ In hi [Byte.x07; Byte.x02; Byte.xc8]
    /\ (forall c, In c [Byte.x07; Byte.x02; Byte.xc8] ->
          (Byte.to_N lo <= Byte.to_N c <= Byte.to_N hi)%N)
    /\ Volume.computeVoxelRange_uchar [0] (Vec2f.mk F32.inf Ref.minus_inf)
         [Byte.x07; Byte.x02; Byte.xc8]
       = Vec2f.mk (Volume.float_of_uchar lo) (Volume.float_of_uchar hi).
Proof.
  apply (voxel_range_of_bytes [0] (Vec2f.mk F32.inf Ref.minus_inf)
           [Byte.x07; Byte.x02; Byte.xc8]).
  - vm_compute. intros H. discriminate H.
  - vm_compute. apply Permutation_refl.
  - intros H. discriminate H.
  - vm_compute. reflexivity.
  - vm_compute. reflexivity.
Defined.

(** Spheres of 16 bytes with the material at offset 12, in a memory that
    holds its address in every word; the third primitive is on the second
    page. *)
Lemma material_id_of_own_sphere_witness :
  let mem := {| Geometry.load_uint32 := fun a => a;
                Geometry.load_float := fun _ => F32.zero;
                Geometry.load_vec2f := fun _ => Vec2f.mk F32.zero F32.zero;
                Geometry.load_vec3f := fun _ => make_vec3f F32.zero |} in
  let self := Geometry.SpheresGeometry_set (fun a => a) 0 4096 0 0 0 0 0 16
                F32.one 7 0 (-1) 12 (-1) false in
  Geometry.Spheres_getMaterialID mem self [0; 3; 67108869]
  = [4108; 4156; 1073746012].
Proof.
  cbv zeta.
  rewrite material_id_of_own_sphere.
  - vm_compute. reflexivity.
  - vm_compute. intros H. discriminate H.
  - vm_compute. split; [ intros H; discriminate H | reflexivity ].
  - repeat constructor; vm_compute; try reflexivity;
      try (intros H; discriminate H).
Defined.

(** The same spheres without a material offset. *)
Lemma material_id_default_witness :
  let mem := {| Geometry.load_uint32 := fun a => a;
                Geometry.load_float := fun _ => F32.zero;
                Geometry.load_vec2f := fun _ => Vec2f.mk F32.zero F32.zero;
                Geometry.load_vec3f := fun _ => make_vec3f F32.zero |} in
  let self := Geometry.SpheresGeometry_set (fun a => a) 0 4096 0 0 0 0 0 16
                F32.one 7 0 (-1) (-1) (-1) false in
  Geometry.Spheres_getMaterialID mem self [0; 3; 67108869] = [7; 7; 7].
Proof.
  cbv zeta.
  refine (proj1 (material_id_default _
                   {| Geometry.load_uint32 := fun _ => 0;
                      Geometry.load_float := fun _ => F32.zero;
                      Geometry.load_vec2f := fun _ => Vec2f.mk F32.zero F32.zero;
                      Geometry.load_vec3f := fun _ => make_vec3f F32.zero |}
                   _ _ _)).
  vm_compute. reflexivity.
Defined.

(** A ray along the axis towards the unit sphere centred four units away,
    already occluded. *)
Lemma occluded_ray_stays_witness :
  let mem := {| Geometry.load_uint32 := fun a => a;
                Geometry.load_float := fun _ => F32.one;
                Geometry.load_vec2f := fun _ => Vec2f.mk F32.zero F32.zero;
                Geometry.load_vec3f :=
                  fun _ => Vec3f.mk F32.zero F32.zero F32.four |} in
  let self := Geometry.SpheresGeometry_set (fun a => a) 0 4096 0 0 0 0 0 16
                F32.one 7 0 (-1) 12 (-1) false in
  let ray := {| Geometry.org := make_vec3f F32.zero; Geometry.dir := Ref.up;
                Geometry.t0 := F32.zero; Geometry.t := Geometry.neg_inf;
                Geometry.Ng := make_vec3f F32.zero; Geometry.primID := -1;
                Geometry.ray_geomID := -1; Geometry.instID := -1 |} in
  @Geometry.Spheres_intersect_kernel Ref.lib F32.sqrt Ref.rcp mem self true 0 0
    false ray = ray.
Proof.
  cbv zeta.
  apply (@occluded_ray_stays Ref.lib F32.sqrt Ref.rcp).
  reflexivity.
Defined.

(** A sphere of radius 2 with a logarithm that returns 1: the epsilon is a
    hundredth of the radius. *)
Lemma epsilon_within_radius_witness :
  let self := Geometry.SpheresGeometry_set (fun _ => F32.one) 0 4096 0 0 0 0 0
                16 Ref.two 7 0 (-1) 12 (-1) false in
  (Geometry.epsilon self <? F32.zero)%f32 = false.
Proof.
  cbv zeta.
  refine (proj2 (epsilon_within_radius (fun _ => F32.one) 0 4096 0 0 0 0 0
                   16 Ref.two 7 0 (-1) 12 (-1) false) _).
  vm_compute. reflexivity.
Defined.

(** Two memories that differ outside the record of the first sphere. *)
Lemma reads_own_sphere_witness :
  let mem := {| Geometry.load_uint32 := fun a => a;
                Geometry.load_float := fun _ => F32.one;
                Geometry.load_vec2f := fun _ => Vec2f.mk F32.zero F32.zero;
                Geometry.load_vec3f :=
                  fun _ => Vec3f.mk F32.zero F32.zero F32.four |} in
  let mem' := {| Geometry.load_uint32 := fun _ => 0;
                 Geometry.load_float :=
                   fun a => if a =? 4108 then F32.one else F32.half;
                 Geometry.load_vec2f := fun _ => Vec2f.mk F32.one F32.one;
                 Geometry.load_vec3f :=
                   fun a => if a =? 4096
                            then Vec3f.mk F32.zero F32.zero F32.four
                            else make_vec3f F32.one |} in
  let self := Geometry.SpheresGeometry_set (fun a => a) 0 4096 0 0 0 0 0 16
                F32.one 7 0 12 (-1) (-1) false in
  Geometry.Spheres_bounds mem self 0 = Geometry.Spheres_bounds mem' self 0.
Proof.
  cbv zeta.
  refine (proj2 (@reads_own_sphere Ref.lib F32.sqrt Ref.rcp _ _ _ true 0 0
                   false
                   {| Geometry.org := make_vec3f F32.zero;
                      Geometry.dir := Ref.up;
                      Geometry.t0 := F32.zero; Geometry.t := F32.inf;
                      Geometry.Ng := make_vec3f F32.zero;
                      Geometry.primID := -1;
                      Geometry.ray_geomID := -1; Geometry.instID := -1 |}
                   _ _ _ _)).
  - vm_compute. split; [ intros H; discriminate H | reflexivity ].
  - vm_compute. split; [ intros H; discriminate H | reflexivity ].
  - vm_compute. reflexivity.
  - intros _. vm_compute. reflexivity.
Defined.

(** The word 0xff8000ff: opaque, full red, no green, half blue. *)
Lemma uchar4_colour_witness :
  let mem := {| Geometry.load_uint32 := fun a => a;
                Geometry.load_float := fun _ => F32.one;
                Geometry.load_vec2f := fun _ => Vec2f.mk F32.zero F32.zero;
                Geometry.load_vec3f := fun _ => make_vec3f F32.zero |} in
  let self := Geometry.SpheresGeometry_set (fun a => a) 0 4096 0 8192 0 4 3 16
                F32.one 7 0 (-1) (-1) (-1) false in
  let ray := {| Geometry.org := make_vec3f F32.zero; Geometry.dir := Ref.up;
                Geometry.t0 := F32.zero; Geometry.t := F32.one;
                Geometry.Ng := Ref.up; Geometry.primID := 5;
                Geometry.ray_geomID := 0; Geometry.instID := 0 |} in
  let dg := {| Geometry.dg_Ng := make_vec3f F32.zero;
               Geometry.dg_Ns := make_vec3f F32.zero;
               Geometry.dg_color :=
                 {| Geometry.x4 := F32.zero; Geometry.y4 := F32.zero;
                    Geometry.z4 := F32.zero; Geometry.w4 := F32.zero |};
               Geometry.dg_st := Vec2f.mk F32.zero F32.zero;
               Geometry.dg_materialID := -1 |} in
  Geometry.dg_color
    (Geometry.Spheres_postIntersect 1 2 4 0 1 2 3
       (fun _ _ _ _ => Geometry.dg_color dg) (fun _ _ _ _ => Ref.up)
       (fun _ _ _ _ => 4286578943) mem self false dg ray 1)
  = {| Geometry.x4 := F32.one; Geometry.y4 := F32.zero;
       Geometry.z4 := S754_finite false 8421505 (-24);
       Geometry.w4 := F32.one |}.
Proof.
  cbv zeta.
  match goal with |- Geometry.dg_color (Geometry.Spheres_postIntersect
      ?c ?tc ?m ?f4 ?f3 ?f3a ?u4 ?g4 ?g3 ?gu ?mem ?self ?paged ?dg ?ray ?flags)
      = _ =>
    pose proof (uchar4_colour c tc m f4 f3 f3a u4 g4 g3 gu mem self paged dg
                  ray flags 255 0 128 255) as H
  end.
  cbv zeta in H.
  premise_by H ltac:(vm_compute; intros E; discriminate E).
  premise_by H ltac:(vm_compute; intros E; discriminate E).
  premise H.
  premise_by H ltac:(vm_compute; repeat split; intros E; discriminate E).
  premise_by H lia. premise_by H lia. premise_by H lia. premise_by H lia.
  premise H.
  destruct H as (H & _). rewrite H. vm_compute. reflexivity.
Defined.

Section VoxelTypeInputs.

Import String.StringSyntax.
Local Open Scope string_scope.

(** The name [float] on its own, and followed by the width 1. *)
Lemma voxel_type_overrun_witness :
  VoxelType.getVoxelType "float" = inr VoxelType.WritesPastEnd.
Proof.
  apply (proj2 (voxel_type_overrun "float")).
  split; [ intros H; discriminate H | split; vm_compute; reflexivity ].
Defined.

Lemma voxel_type_needs_suffix_witness :
  exists rest,
    "float1" = String.append (VoxelType.name VoxelType.OSP_FLOAT) rest
    /\ rest <> String.EmptyString.
Proof.
  apply (voxel_type_needs_suffix "float1" VoxelType.OSP_FLOAT).
  - vm_compute. reflexivity.
  - intros H. discriminate H.
Defined.

End VoxelTypeInputs.
